(* ===== verification/_CoqProject ===== *)
-Q . S2P
Prelude.v
JsString.v
Number.v
Double.v
ParseFloat.v
Zod.v
SpotSchema.v
ZodRaw.v
Browser.v
Effects.v
NewPage.v
Render.v
EventLoop.v
Network.v
Router.v
Session.v
Submission.v
Typing.v
