(* ===== verification/Prelude.v ===== *)
(** * Verification of the New Spot form (src/src/pages/New/index.jsx)

    ** The program

    The repository is one React component, [New]: a form with a picture and
    three text fields.  Its parts, all in src/src/pages/New/index.jsx:

    - the validation schema [spotSchema] and its constants (lines 10-27),
      built from the combinators of the zod library;
    - five state cells (lines 31-35) and the change handlers of the four
      inputs (lines 92, 103, 112, 124);
    - the memoised preview URL of the picture (lines 39-41);
    - the submit handler [handleSubmit] (lines 43-73): validate, store the
      errors or else post the draft, wait for the answer, navigate;
    - the element tree the component returns (lines 84-130).

    The user edits cells; a submit runs the handler to its end or to its
    [await]; the settlement of the request resumes it, with the response
    or, the [await] standing outside any [try], with an exception that
    leaves the handler; after each of these the component is rendered
    again.

    The source calls libraries whose code is not in the repository: the
    engine (strings, Numbers, [parseFloat], promises and [await]), zod,
    React, the browser ([FormData], [localStorage], [File], object URLs),
    the router, and the HTTP client of services/api.  What is translated
    from the lines of index.jsx and what is modelled from the standards and
    the documented behaviour of those libraries is kept apart: in the map
    of PROJECT.json the former carries its lines, the latter is marked as
    modelled from the specification.  Helpers inside a library model (the
    parts of the scanner, of the rounding, of the loops of zod) are not in
    the map; they are proved against their specification where they are
    defined.

    ** The files

    - [Prelude] (this file): scanning functions on lists ([take_while],
      [drop_while] and their mirror images), [nonempty], the hint databases
      and tactics the other files share.
    - [JsString]: JavaScript strings as lists of UTF-16 code units, the
      white-space classes of ECMAScript, [trim], [===] on strings,
      [Array.prototype.includes].
    - [Number]: the Numbers of the size check, as the binary64 values of
      non-negative integers: [to_double] rounds an integer to 53 bits, to
      nearest and ties to even; [js_mul] and [js_le] are [*] and [<=].
    - [Double]: the Numbers in general, as IEEE 754 doubles ([JsNumber]:
      NaN, the infinities, the finite doubles [m * 2^e] with their sign);
      [round_ratio] rounds a ratio of two integers to the nearest double,
      ties to even, and [RoundMVResult] is the Number value ECMAScript
      gives a real; [isNaN].
    - [ParseFloat]: [parseFloat] as a scanner over code units, the grammar
      StrDecimalLiteral as inductive predicates, its mathematical value
      ([MV_Literal], a rational or infinite magnitude with a sign), the
      proof that the scanner takes the longest prefix the grammar derives
      and returns its value, and [StringNumericValue], which rounds that
      value to a Number.
    - [Zod]: the combinators the schema calls ([z.instanceof], [refine],
      [nullable], [z.string().trim().min()], the merge of the fields of
      [z.object], [safeParse], [flatten]) as typed parse functions that
      return a status and the issues raised; the class [SchemaOk] is what
      every schema built from them guarantees.
    - [SpotSchema]: [spotSchema] composed exactly as in lines 14-27, the
      contract of the validator stated without the library ([accepted],
      [normalise], [expected_messages]) and the proof that the schema
      implements it.
    - [ZodRaw]: the same combinators on data of any type ([JsValue]), as
      the library has them: the type test that raises [invalid_type] with
      its default message, [z.object]'s loop over the shape and
      [mergeObjectSync]; [raw_spotSchema] is the schema of lines 14-27
      built from them.
    - [Browser]: [FormData] as its list of entries with the value conversion
      of [append], [localStorage.getItem], the request handed to [api.post].
    - [Effects]: finite command trees [Prog], the monad in which a handler
      is written, with its laws up to [prog_equiv]: a leaf is a value or an
      exception ([Throw]), [await] issues a command whose answer is the
      settlement of a promise and throws the reason of a rejection, and
      [try_catch] is the statement of that name; [commands] lists what a
      program issues in an environment that answers each command; a
      [Handler] gives each command an effect on a state and an answer, and
      [interp] runs a program under it.
    - [NewPage]: the record [State] of the five cells, a setter per cell, the
      [onChange] handlers, and [handleSubmit] as a program over the commands
      [preventDefault], [do_setErrors], [localStorage_getItem], [api_post],
      [navigate], in the order of the source; [api_post] is awaited, and
      nothing catches.
    - [Render]: [useMemo] with its dependency, the object URLs of the
      document, and the tree [view] with the same elements, attributes and
      conditional error spans as the JSX.
    - [EventLoop]: the page at run time as a record [World] (component
      state, storage, location, requests issued, handlers waiting,
      unhandled rejections).  [dispatch] is what the tree binds to the
      events of the user (lines 85, 92, 103, 112, 124).  The rest is the
      browser's part: [exec] runs a handler to its end, to its [await] or
      to the exception that leaves it, [resume] hands a settlement to the
      handler that waits for it, [step] is one event, [reachable] the
      inductive closure of [step] from the first render.  [transition]
      states what the page promises as rules, one per event and outcome.
    - [Network]: the HTTP client and the server: the server is a function
      of the request ([Backend]), the client settles the promise of
      [api.post] from its answer ([settle]), and [handle] gives each
      command of a handler its effect on the world when the network
      answers at once; an exception that leaves the handler is an unhandled
      rejection ([ended]).
    - [Router]: the event loop restricted to the events that can happen
      ([routed_step]): those of the user need the form mounted, that is,
      the location at the path of its route.
    - [Session]: [EventLoop] with a render after every step.
    - [Submission]: the life cycle of a submission drawn in the
      specification of the form, as a machine [progress] over what an
      observer sees of a world ([observe]).
    - [Typing]: the ranges of the values of the page (16-bit code units,
      64-bit file sizes, scalar-value strings in a request) as predicates
      on states, requests, worlds and events, and their preservation by
      the steps of the page; supporting material, on which no other file
      depends.

    ** What the theorems show

    - Validation ([SpotSchema]): [safeParse_spotSchema], the schema
      implements the contract on every draft; [spot_errors_spec] and
      [spot_errors_empty] characterise the error object; [price_ok_spec]
      says which prices pass; [thumbnail_both_failures] that refinements
      do not short-circuit; [no_form_errors] that every issue belongs to a
      field; [size_ok_exact] that the size check, made on doubles, is
      exact for every size.
    - Typed and untyped schema ([ZodRaw]): [raw_spotSchema_typed], on the
      object the handler builds the schema of the library answers what the
      typed schema answers; [type_issues_spec] says which data raises
      [invalid_type].
    - Numbers ([Double]): [round_ratio_nearest], the rounding gives the
      double nearest to the ratio, the even one of two, and an infinity
      exactly from [2^1024 - 2^970] on ([round_ratio_overflow]); a real
      has one nearest double ([nearest_double_unique]), so the rounding
      is the only function with that property ([round_ratio_complete]);
      [round_ratio_exact], doubles are its fixed points, each written in
      one canonical form ([canonical_inj]); [to_double_round] and
      [js_mul_nearest], the rounding of integers by shifts and masks in
      [Number] is the same rounding; [round_ratio_ieee], it agrees with
      the division of the Standard Library's [SpecFloat] on sample ratios.
    - Library semantics: [scan_literal_spec] (the scanner reads the longest
      literal and returns its mathematical value, which is unique,
      [MV_Literal_functional]), [parseFloat_spec] (what [parseFloat]
      returns, case by case) and [parseFloat_NaN] ([ParseFloat]);
      [trim_unique] and [trim_decompose] ([JsString]);
      [flatten_lookup] and the [SchemaOk] instances ([Zod]);
      [toUSVString_well_formed], [toUSVString_units],
      [toUSVString_blank] and [price_ok_toUSVString] (a literal is written
      in ASCII, [StrDecimalLiteral_ascii], so the conversion of [append]
      does not change the verdict of the price check) ([Browser]);
      [to_double_idemp], [to_double_le] and
      the agreement of [to_double] with the Standard Library's [SpecFloat]
      on sample values ([Number]); the monad laws ([Effects]).
    - The handler alone ([NewPage]): [handleSubmit_commands], the orders in
      which it issues its effects, in any environment, a rejecting one
      included, and [handleSubmit_result], when it ends with an exception;
      [payload_raw], what it posts is what was typed.
    - One submit ([EventLoop]): [submit_rejected] and [submit_accepted] give
      the world after a submit on both branches; [null_thumbnail_posted]
      and [submit_unguarded] are behaviours that differ from what the
      specification of the form promises.
    - The rules of the page ([EventLoop]): [run_transition], after any
      history the event loop, running the code of the handlers, takes the
      page exactly where the rules of [transition] say (helper
      [step_transition], from which the lemmas about one step are read
      off); [reject_silent] is the rule of a rejected request: nothing
      catches the exception of the [await], so the failure changes nothing
      the user sees ([rejection_caught] shows what a [catch] would do).
    - All histories ([EventLoop]): [reachable_ok] is the invariant;
      [request_shape] (what every request posted looks like, the price
      posted passing the price check included) and
      [navigation_needs_fulfil] follow from it by induction on the history; [history_log] gives the whole log of the
      page, the requests (one per accepted submit, with the draft and the
      user of that moment), the prevented defaults and the unhandled
      rejections; [submit_fulfil_navigates] is the way to the dashboard;
      [run_cells], only edits change the input cells; [conservation] and
      [settle_bound] count requests and answers.
    - Typing ([Typing]): [run_typed], every step keeps the values of the
      page within their ranges.
    - Handler, client and server together ([Network]): [exec_interp], for
      any program of commands the event loop, fed the settlements of its
      requests, computes the interpretation under [handle];
      [submit_outcome] is that for [handleSubmit], with the world it ends
      in on each branch; [submit_navigates] says when that is the
      dashboard; [settle_any_time] and [delayed_submission] say that an
      answer gives the same whenever it arrives; [submission_phase]
      ([Submission]) names the phase a submission ends in.
    - Teardown ([Router]): [routed_run_run], a routed history is a history
      of the event loop, so that every invariant above holds of it;
      [unmounted_frozen], after the page has left nothing of it changes;
      [unmounted_resumes], the handlers that still wait are answered all
      the same.
    - Refinement ([Submission]): [run_progress], every history of the page
      is a run of the life-cycle machine; [step_phase] reads the phases
      off it.
    - The screen ([Render], [Session]): [render_spec] (one render: the
      tree, the memo cell, the URLs), [render_idempotent], [view_reads]
      (the handlers, the values and the error texts of the tree);
      [session_screen_ok] is the invariant relating the tree to the state;
      [urls_never_released], [pick_mints_url] and [session_urls_distinct]
      describe the object URLs; [submit_shows_first_messages] is what the
      user reads after a submit, and [settle_keeps_screen] says that an
      answer of the network, a failure included, changes nothing on it.

    ** Bounds and assumptions

    All recursion is structural (on strings, on command trees, on
    histories): no definition takes fuel.  The value of a literal is kept
    exact, as a ratio of two integers of any size, until it is rounded
    once; the engine is taken to read every digit of a literal, where the
    standard lets it drop the digits after the twentieth.  Code units and
    file sizes are kept as natural numbers; [Typing] shows that the page
    never leaves the ranges (code units below 2^16, sizes up to 2^64 - 1)
    when the events stay in them, and the theorems of the other files hold
    without that assumption.  A [File] is the two fields the program reads
    and the identity of the object; a [File] being immutable, its identity
    determines it, and [Object.is] on two files is the equality of these
    records.  A size is read as a
    Number, that is, rounded to a double: [to_double] is that rounding, and
    because the limit 5,242,880 is far below 2^53 the rounding never
    changes the comparison [file.size <= MAX_FILE_SIZE].  The cells of the
    text inputs always hold strings and the picture cell holds [null],
    [undefined] or a [File]: these are the only values the handlers of the
    page can store, so the schema is modelled on typed inputs, and [ZodRaw]
    proves that the schema of the library, which starts from data of any
    type, agrees with it there.  The library is modelled as zod 3 behaves
    (a parse returns a status, valid, dirty or aborted, and pushes issues;
    the issue of [z.instanceof] aborts, those of [refine] and [min] do not;
    the default message of a missing value is "Required"); the sources
    under src/ do not pin its version.  The client behind [api.post] is
    taken to be an axios instance with the default [validateStatus], and
    the form to be mounted exactly while the location is the path it was
    first shown at; both modules are outside src/, and only [Network] and
    [Router] depend on these two assumptions.  [EventLoop] lets every
    event happen in every world, also events of the user after the page
    has left: its theorems hold of all those histories, hence of the routed
    ones ([routed_run_run]); [settle_keeps_screen] and
    [delayed_submission] speak of the tree of the component, which the
    router no longer shows after a navigation.  A handler runs without
    interleaving, as on the event loop of a browser, and the state a handler reads is the state of the render that
    bound it, which is the latest one because every step is followed by a
    render.  [Render] and [Session] are parametrised by the function that
    mints object URLs and assume only that it is injective; [blob] is one
    such function.

    ** What is not modelled

    Arithmetic on Numbers other than what the program computes (the
    product and the comparison of non-negative integers, the rounding of a
    decimal); the parts of zod the schema does not call (other
    schema kinds, custom error maps, asynchronous parsing, the exception
    [parse] throws); the HTTP transport, interceptors and timeouts of the
    client, and what the server does with a spot; route matching, the
    history stack and the other routes of the router; style sheets and
    images; the batching of state updates by React, which cannot be
    observed here because a handler writes each cell at most once. *)

From stdpp Require Export base tactics option list.
From Stdlib Require Export NArith.

(** This file is the prelude of the development: the scanning functions on
    lists that the string model and the number scanner share, their lemmas,
    the hint databases and the small tactics used everywhere else. *)

(** Method chaining, written in the order of the source: [x |> f |> g]. *)
Declare Scope chain_scope.
Delimit Scope chain_scope with chain.
Notation "x |> f" := (f x)
  (at level 45, left associativity, only parsing) : chain_scope.

Create HintDb scan discriminated.
Create Rewrite HintDb scan.

(** [case_if] splits on the first boolean test of the goal, keeping the
    equation. *)
Ltac case_if :=
  match goal with
  | |- context [if ?b then _ else _] =>
      let E := fresh "E" in destruct b eqn:E
  end.

Section scanning.
Context {A : Type} (p : A → bool).

(** The longest prefix whose elements all satisfy [p]. *)
Fixpoint take_while (l : list A) : list A :=
  match l with
  | [] => []
  | x :: l' => if p x then x :: take_while l' else []
  end.

(** What remains once that prefix is removed. *)
Fixpoint drop_while (l : list A) : list A :=
  match l with
  | [] => []
  | x :: l' => if p x then drop_while l' else l
  end.

(** The same from the right end. *)
Definition drop_while_end (l : list A) : list A :=
  reverse (drop_while (reverse l)).

(** The longest suffix whose elements all satisfy [p]. *)
Definition take_while_end (l : list A) : list A :=
  reverse (take_while (reverse l)).

Lemma take_drop_while l : take_while l ++ drop_while l = l.
Proof. induction l as [|x l IH]; simpl; [done|]. case_if; simpl; by f_equal. Qed.

Lemma take_while_Forall l : Forall (λ x, p x = true) (take_while l).
Proof. induction l as [|x l IH]; simpl; [constructor|]. case_if; by constructor. Qed.

Lemma drop_while_head l x l' : drop_while l = x :: l' → p x = false.
Proof.
  induction l as [|y l IH]; simpl; [done|].
  case_if; [done|]. by intros [= -> ->].
Qed.

Lemma drop_while_all l : Forall (λ x, p x = true) l → drop_while l = [].
Proof. induction 1 as [|x l Hx _ IH]; simpl; [done|]. by rewrite Hx. Qed.

Lemma drop_while_nil l : drop_while l = [] ↔ Forall (λ x, p x = true) l.
Proof.
  split; [|apply drop_while_all].
  induction l as [|x l IH]; simpl; [constructor|].
  case_if; [|done]. intros; constructor; auto.
Qed.

Lemma take_while_all l : Forall (λ x, p x = true) l → take_while l = l.
Proof. induction 1 as [|x l Hx _ IH]; simpl; [done|]. rewrite Hx. by f_equal. Qed.

Lemma drop_while_stop x l : p x = false → drop_while (x :: l) = x :: l.
Proof. simpl. by intros ->. Qed.

Lemma take_while_stop x l : p x = false → take_while (x :: l) = [].
Proof. simpl. by intros ->. Qed.

Lemma drop_while_app l1 l2 :
  Forall (λ x, p x = true) l1 → drop_while (l1 ++ l2) = drop_while l2.
Proof. induction 1 as [|x l Hx _ IH]; simpl; [done|]. by rewrite Hx. Qed.

Lemma take_while_app l1 l2 :
  Forall (λ x, p x = true) l1 → take_while (l1 ++ l2) = l1 ++ take_while l2.
Proof. induction 1 as [|x l Hx _ IH]; simpl; [done|]. rewrite Hx. by f_equal. Qed.

Lemma drop_while_idemp l : drop_while (drop_while l) = drop_while l.
Proof.
  destruct (drop_while l) as [|x l'] eqn:E; [done|].
  apply drop_while_stop, (drop_while_head _ _ _ E).
Qed.

Lemma drop_while_length l : length (drop_while l) ≤ length l.
Proof. induction l as [|x l IH]; simpl; [done|]. case_if; simpl; lia. Qed.

Lemma drop_while_suffix l : drop_while l `suffix_of` l.
Proof. exists (take_while l). by rewrite take_drop_while. Qed.

Lemma take_while_prefix l : take_while l `prefix_of` l.
Proof. exists (drop_while l). by rewrite take_drop_while. Qed.

(** Maximality: every prefix made of [p]-elements lies inside [take_while]. *)
Lemma take_while_longest l l1 l2 :
  l = l1 ++ l2 → Forall (λ x, p x = true) l1 → l1 `prefix_of` take_while l.
Proof.
  intros -> H. rewrite take_while_app by done. by apply prefix_app_r.
Qed.

(** A split at a first element failing [p] is the split the scan makes. *)
Lemma scan_unique l1 x l2 :
  Forall (λ y, p y = true) l1 → p x = false →
  take_while (l1 ++ x :: l2) = l1 ∧ drop_while (l1 ++ x :: l2) = x :: l2.
Proof.
  intros H Hx. rewrite take_while_app, drop_while_app by done.
  by rewrite take_while_stop, drop_while_stop, app_nil_r.
Qed.

Lemma drop_while_end_all l :
  Forall (λ x, p x = true) l → drop_while_end l = [].
Proof.
  intros H. unfold drop_while_end.
  rewrite drop_while_all; [done|]. by apply Forall_reverse.
Qed.

Lemma drop_while_end_nil l :
  drop_while_end l = [] ↔ Forall (λ x, p x = true) l.
Proof.
  split; [|apply drop_while_end_all]. unfold drop_while_end. intros H.
  apply (f_equal reverse) in H. rewrite reverse_involutive in H.
  apply drop_while_nil, Forall_reverse in H. by rewrite reverse_involutive in H.
Qed.

Lemma drop_while_end_snoc_stop l x :
  p x = false → drop_while_end (l ++ [x]) = l ++ [x].
Proof.
  intros Hx. unfold drop_while_end.
  rewrite reverse_snoc, drop_while_stop by done.
  by rewrite reverse_cons, reverse_involutive.
Qed.

Lemma drop_while_end_snoc_go l x :
  p x = true → drop_while_end (l ++ [x]) = drop_while_end l.
Proof.
  intros Hx. unfold drop_while_end. rewrite reverse_snoc. simpl. by rewrite Hx.
Qed.

Lemma drop_while_end_app l1 l2 :
  Forall (λ x, p x = true) l2 → drop_while_end (l1 ++ l2) = drop_while_end l1.
Proof.
  intros H. unfold drop_while_end.
  rewrite reverse_app, drop_while_app; [done|]. by apply Forall_reverse.
Qed.

Lemma drop_while_end_last l x l' :
  drop_while_end l = l' ++ [x] → p x = false.
Proof.
  unfold drop_while_end. intros H.
  apply (f_equal reverse) in H.
  rewrite reverse_involutive, reverse_snoc in H.
  by apply drop_while_head in H.
Qed.

Lemma drop_while_end_idemp l :
  drop_while_end (drop_while_end l) = drop_while_end l.
Proof.
  unfold drop_while_end.
  by rewrite reverse_involutive, drop_while_idemp.
Qed.

Lemma drop_while_end_prefix l : drop_while_end l `prefix_of` l.
Proof.
  unfold drop_while_end.
  destruct (drop_while_suffix (reverse l)) as [k Hk].
  exists (reverse k). apply (f_equal reverse) in Hk.
  by rewrite reverse_involutive, reverse_app in Hk.
Qed.

Lemma drop_take_while_end l : drop_while_end l ++ take_while_end l = l.
Proof.
  unfold drop_while_end, take_while_end.
  by rewrite <- reverse_app, take_drop_while, reverse_involutive.
Qed.

Lemma take_while_end_Forall l : Forall (λ x, p x = true) (take_while_end l).
Proof. apply Forall_reverse, take_while_Forall. Qed.

Lemma drop_while_end_length l : length (drop_while_end l) ≤ length l.
Proof. apply prefix_length, drop_while_end_prefix. Qed.

Lemma drop_while_snoc_stop l x :
  p x = false → drop_while (l ++ [x]) = drop_while l ++ [x].
Proof.
  intros Hx. induction l as [|y l IH]; simpl; [by rewrite Hx|]. by case_if.
Qed.

(** Dropping from the right leaves a first element that fails [p] alone. *)
Lemma drop_while_end_cons_stop x l :
  p x = false → drop_while_end (x :: l) = x :: drop_while_end l.
Proof.
  intros Hx. unfold drop_while_end.
  by rewrite reverse_cons, drop_while_snoc_stop, reverse_snoc.
Qed.

End scanning.

(** A list as a JavaScript caller sees an optional array: absent when it
    would be empty. *)
Definition nonempty {A} (l : list A) : option (list A) :=
  if decide (l = []) then None else Some l.

Lemma nonempty_Some {A} (l m : list A) : nonempty l = Some m ↔ l = m ∧ m ≠ [].
Proof.
  unfold nonempty. case_decide as H; split; try done.
  - by intros [-> ?].
  - by intros [= ->].
  - by intros [-> _].
Qed.

Lemma nonempty_None {A} (l : list A) : nonempty l = None ↔ l = [].
Proof. unfold nonempty. by case_decide. Qed.

Lemma nonempty_head {A} (l : list A) : nonempty l ≫= head = head l.
Proof. unfold nonempty. case_decide; by subst. Qed.

Section filtering.
Context {A : Type} (P : A → Prop) `{!∀ x, Decision (P x)}.

Lemma filter_all (l : list A) : Forall P l → filter P l = l.
Proof.
  induction 1 as [|x l Hx _ IH]; [done|].
  by rewrite filter_cons_True, IH.
Qed.

Lemma filter_none (l : list A) : Forall (λ x, ¬ P x) l → filter P l = [].
Proof.
  induction 1 as [|x l Hx _ IH]; [done|].
  by rewrite filter_cons_False.
Qed.

Lemma filter_nil_Forall (l : list A) : filter P l = [] ↔ Forall (λ x, ¬ P x) l.
Proof.
  split; [|apply filter_none].
  intros Hnil. apply Forall_forall. intros x Hx HP.
  by eapply filter_nil_not_elem_of.
Qed.

End filtering.

(** Deleting within the first of two lists that are appended. *)
Lemma delete_app_l {A} (l k : list A) i :
  i < length l → delete i (l ++ k) = delete i l ++ k.
Proof.
  revert i. induction l as [|x l IH]; intros [|i] Hi; simpl in *; try lia;
    [done|].
  f_equal. apply IH. lia.
Qed.

#[export] Hint Resolve take_while_Forall take_while_end_Forall drop_while_suffix take_while_prefix
  drop_while_end_prefix : scan.
#[export] Hint Rewrite @take_drop_while @drop_while_idemp @drop_while_end_idemp : scan.
