(* ===== verification/JsString.v ===== *)
(** JavaScript strings as the engine holds them: finite sequences of UTF-16
    code units.  The file gives the white-space classes of ECMAScript, the
    [trim] family of [String.prototype], strict equality on strings and
    [Array.prototype.includes] on arrays of strings, with the lemmas the
    schema and the number scanner rely on. *)
From S2P Require Import Prelude.
From Stdlib Require Import Ascii String.
From stdpp Require Import strings.

#[local] Open Scope N_scope.

(** A code unit is a number below 2^16; a string is a list of them.  Text the
    user types is a [jsstring]; the literals of the program that are never
    inspected character by character (messages, field names, paths) stay
    Rocq strings. *)
Abbreviation code_unit := N (only parsing).
Abbreviation jsstring := (list N) (only parsing).

(** An ASCII literal of the program as a [jsstring]. *)
Definition lit (s : string) : jsstring :=
  N_of_ascii <$> list_ascii_of_string s.

(** ECMAScript's WhiteSpace code points: TAB, VT, FF, ZWNBSP and the Unicode
    category Zs; they all lie in the basic plane, hence are single units. *)
Definition WhiteSpace : list N :=
  [0x0009; 0x000B; 0x000C; 0xFEFF;
   0x0020; 0x00A0; 0x1680; 0x2000; 0x2001; 0x2002; 0x2003; 0x2004; 0x2005;
   0x2006; 0x2007; 0x2008; 0x2009; 0x200A; 0x202F; 0x205F; 0x3000].

(** ECMAScript's LineTerminator code points: LF, CR, LS, PS. *)
Definition LineTerminator : list N := [0x000A; 0x000D; 0x2028; 0x2029].

(** What [trim] and [parseFloat] strip: WhiteSpace or LineTerminator. *)
Definition isStrWhiteSpaceChar (c : N) : bool :=
  bool_decide (c ∈ WhiteSpace ++ LineTerminator).

(** [String.prototype.trimStart], [trimEnd] and [trim]. *)
Definition trimStart (s : jsstring) : jsstring :=
  drop_while isStrWhiteSpaceChar s.

Definition trimEnd (s : jsstring) : jsstring :=
  drop_while_end isStrWhiteSpaceChar s.

Definition trim (s : jsstring) : jsstring := trimEnd (trimStart s).

(** [a === b] on two strings: same sequence of code units. *)
Definition strict_eq (a b : jsstring) : bool := bool_decide (a = b).

(** [arr.includes(x)] on an array of strings. *)
Definition includes (arr : list jsstring) (x : jsstring) : bool :=
  bool_decide (x ∈ arr).

(** A code unit of the ASCII range. *)
Definition is_ascii (c : N) : Prop := c < 128.

(** A string with nothing but white space. *)
Definition blank (s : jsstring) : Prop :=
  Forall (λ c, isStrWhiteSpaceChar c = true) s.

(** A string that neither starts nor ends with white space. *)
Definition trimmed (s : jsstring) : Prop :=
  (∀ c s', s = c :: s' → isStrWhiteSpaceChar c = false) ∧
  (∀ c s', s = s' ++ [c] → isStrWhiteSpaceChar c = false).

#[export] Instance blank_dec s : Decision (blank s).
Proof. unfold blank. apply _. Defined.

Section trim_lemmas.
Implicit Types (s l r m : jsstring) (c : N).

Lemma lit_length (t : string) : length (lit t) = String.length t.
Proof.
  unfold lit. rewrite length_fmap.
  induction t as [|a t IH]; simpl; [done|]. by rewrite IH.
Qed.

Lemma lit_inj : Inj (=) (=) lit.
Proof.
  intros t1. unfold lit.
  induction t1 as [|a t1 IH]; intros [|b t2]; simpl; try done.
  intros [= Hab Ht]. f_equal; [|by apply IH].
  by rewrite <- (ascii_N_embedding a), <- (ascii_N_embedding b), Hab.
Qed.

Lemma strict_eq_true a b : strict_eq a b = true ↔ a = b.
Proof. unfold strict_eq. by rewrite bool_decide_eq_true. Qed.

Lemma includes_true arr x : includes arr x = true ↔ x ∈ arr.
Proof. unfold includes. by rewrite bool_decide_eq_true. Qed.

Lemma trimStart_blank s : blank s → trimStart s = [].
Proof. apply drop_while_all. Qed.

Lemma trimStart_suffix s : trimStart s `suffix_of` s.
Proof. unfold trimStart. auto with scan. Qed.

Lemma trimEnd_prefix s : trimEnd s `prefix_of` s.
Proof. unfold trimEnd. auto with scan. Qed.

(** The two ends are trimmed independently of one another. *)
Lemma trimStart_trimEnd s : trimStart (trimEnd s) = trimEnd (trimStart s).
Proof.
  unfold trimStart, trimEnd.
  induction s as [|c s IH]; [done|]. simpl.
  destruct (isStrWhiteSpaceChar c) eqn:Hc.
  - rewrite <- IH. destruct (decide (blank s)) as [Hb|Hb].
    + rewrite (drop_while_end_all _ (c :: s)) by (by constructor).
      by rewrite (drop_while_end_all _ s).
    + assert (drop_while_end isStrWhiteSpaceChar s ≠ []) as Hne
        by (by rewrite drop_while_end_nil).
      destruct (drop_while_end isStrWhiteSpaceChar s) as [|d s'] eqn:Es;
        [done|].
      enough (drop_while_end isStrWhiteSpaceChar (c :: s) = c :: d :: s')
        as -> by (simpl; by rewrite Hc).
      clear IH Hne Hb. revert d s' Es.
      induction s as [|e s IH] using rev_ind; intros d s' Es; [done|].
      destruct (isStrWhiteSpaceChar e) eqn:He.
      * rewrite drop_while_end_snoc_go in Es by done.
        rewrite app_comm_cons, drop_while_end_snoc_go by done. eauto.
      * rewrite drop_while_end_snoc_stop in Es by done.
        by rewrite app_comm_cons, drop_while_end_snoc_stop, <- Es.
  - by rewrite drop_while_end_cons_stop, drop_while_stop.
Qed.

Lemma trim_blank s : blank s → trim s = [].
Proof. intros H. unfold trim. by rewrite trimStart_blank. Qed.

(** [trim] yields the empty string exactly on blank strings. *)
Lemma trim_nil s : trim s = [] ↔ blank s.
Proof.
  split; [|apply trim_blank]. unfold trim, trimEnd, trimStart. intros H.
  apply drop_while_end_nil in H.
  rewrite <- (take_drop_while isStrWhiteSpaceChar s).
  apply Forall_app; split; [apply take_while_Forall|done].
Qed.

Lemma trim_length s : (length (trim s) ≤ length s)%nat.
Proof.
  unfold trim, trimEnd, trimStart.
  etrans; [apply drop_while_end_length|apply drop_while_length].
Qed.

Lemma trim_trimmed s : trimmed (trim s).
Proof.
  split; intros c s' E.
  - unfold trim in E. rewrite <- trimStart_trimEnd in E.
    by apply drop_while_head in E.
  - by apply drop_while_end_last in E.
Qed.

Lemma trimmed_trim s : trimmed s → trim s = s.
Proof.
  intros [Hh Hl]. unfold trim, trimStart, trimEnd.
  destruct s as [|c s]; [done|].
  rewrite drop_while_stop by eauto.
  destruct (exists_last (l:=c :: s)) as (s' & d & E);
    [done|]. rewrite E. apply drop_while_end_snoc_stop; eauto.
Qed.

Lemma trim_idemp s : trim (trim s) = trim s.
Proof. apply trimmed_trim, trim_trimmed. Qed.

(** [trim] removes a blank prefix and a blank suffix and nothing else. *)
Lemma trim_decompose s : ∃ l r, s = l ++ trim s ++ r ∧ blank l ∧ blank r.
Proof.
  exists (take_while isStrWhiteSpaceChar s),
    (take_while_end isStrWhiteSpaceChar (trimStart s)).
  split_and!; [|unfold blank; auto with scan..].
  unfold trim, trimEnd. rewrite drop_take_while_end.
  unfold trimStart. by autorewrite with scan.
Qed.

(** C18. The decomposition determines the result: [trim] is TrimString. *)
Lemma trim_unique s l m r :
  s = l ++ m ++ r → blank l → blank r → trimmed m → trim s = m.
Proof.
  intros -> Hl Hr Hm. unfold trim, trimStart.
  rewrite drop_while_app by exact Hl. fold (trimStart (m ++ r)).
  rewrite <- trimStart_trimEnd. unfold trimEnd.
  rewrite drop_while_end_app by exact Hr.
  fold (trimEnd m). rewrite trimStart_trimEnd. by apply trimmed_trim.
Qed.

Lemma trim_unique_witness : trim (lit " a b ") = lit "a b".
Proof.
  apply (trim_unique (lit " a b ") (lit " ") (lit "a b") (lit " ")).
  - reflexivity.
  - repeat constructor.
  - repeat constructor.
  - split; intros c s' H.
    + by injection H as <- _.
    + apply (f_equal last) in H. rewrite last_snoc in H. by injection H as <-.
Defined.

End trim_lemmas.

#[export] Hint Resolve trim_trimmed trim_blank : scan.
#[export] Hint Rewrite trim_idemp : scan.
