(* ===== verification/Number.v ===== *)
(** The Number values the schema compares: non-negative integers as IEEE 754
    doubles.  A file size is an unsigned 64-bit integer that the engine
    converts to a Number when the program reads [file.size]; a product of
    two Numbers is the exact product rounded once.  The file gives the
    rounding, checks it against the standard library's specification of
    binary64 on sample values, and proves the bounds within which the
    integers of the program are exact. *)
From S2P Require Import Prelude.
From Stdlib Require Import SpecFloat ZArith.

#[local] Open Scope N_scope.

(** The precision of a double: 53 significant bits. *)
Definition prec : N := 53.

(** The nearest double of a non-negative integer, ties to even: an integer
    of at most 53 bits is a double; a longer one keeps its 53 leading bits,
    rounded on the bits that are dropped. *)
Definition to_double (n : N) : N :=
  let k := N.size n in
  if k <=? prec then n
  else
    let sh := k - prec in
    let q := N.shiftr n sh in
    let r := N.land n (N.ones sh) in
    let half := N.shiftl 1 (sh - 1) in
    let q' := if (half <? r) || ((r =? half) && N.odd q) then q + 1 else q in
    N.shiftl q' sh.

(** An integer that is a double. *)
Definition is_double (n : N) : Prop := to_double n = n.

(** [a * b] on two integer Numbers. *)
Definition js_mul (a b : N) : N := to_double (a * b).

(** [a <= b] on two integer Numbers. *)
Definition js_le (a b : N) : bool := a <=? b.

(** The largest value of a WebIDL [unsigned long long], the type of
    [Blob.size]. *)
Definition unsigned_long_long_max : N := 2 ^ 64 - 1.

(** The same conversion by the standard library's specification of IEEE 754
    arithmetic, and the integer a finite float denotes, if it is one. *)
Definition ieee_double (n : N) : spec_float :=
  binary_normalize 53 1024 (Z.of_N n) 0 false.

Definition SF_to_N (x : spec_float) : option N :=
  match x with
  | S754_zero _ => Some 0
  | S754_finite false m e =>
      match e with
      | Z0 => Some (Npos m)
      | Zpos p => Some (N.shiftl (Npos m) (Npos p))
      | Zneg p =>
          if N.land (Npos m) (N.ones (Npos p)) =? 0
          then Some (N.shiftr (Npos m) (Npos p)) else None
      end
  | _ => None
  end.

(** Integers around the places where the rounding changes: below and at
    2^53, odd and even neighbours, ties, the largest file size. *)
Definition samples : list N :=
  [0; 1; 5; 5120; 5242880; 5242881; 2 ^ 52; 2 ^ 53 - 1; 2 ^ 53; 2 ^ 53 + 1;
   2 ^ 53 + 2; 2 ^ 53 + 3; 2 ^ 54 + 2; 2 ^ 54 + 5; 2 ^ 54 + 6; 2 ^ 63;
   2 ^ 64 - 1025; 2 ^ 64 - 1024; unsigned_long_long_max].

(** * The rounding against the standard library *)

Example to_double_ieee :
  Forall (λ n, SF_to_N (ieee_double n) = Some (to_double n)) samples.
Proof. repeat constructor. Qed.

Example js_mul_ieee :
  SFmul 53 1024 (SFmul 53 1024 (ieee_double 5) (ieee_double 1024))
    (ieee_double 1024)
  = ieee_double (js_mul (js_mul 5 1024) 1024).
Proof. vm_compute. reflexivity. Qed.

Example to_double_rounds_up : to_double unsigned_long_long_max = 2 ^ 64.
Proof. vm_compute. reflexivity. Qed.

Example to_double_tie_even : to_double (2 ^ 53 + 1) = 2 ^ 53.
Proof. vm_compute. reflexivity. Qed.

(** * Bounds *)

Lemma size_le n k : N.size n <= k ↔ n < 2 ^ k.
Proof.
  destruct (decide (n = 0)) as [->|Hn].
  - simpl. split; [intros _; apply N.neq_0_lt_0, N.pow_nonzero; lia|lia].
  - rewrite N.size_log2 by done. rewrite N.le_succ_l.
    split; [apply N.log2_lt_pow2|intros; apply N.log2_lt_pow2]; lia.
Qed.

(** Integers below 2^53 are doubles. *)
Lemma to_double_small n : n < 2 ^ prec → to_double n = n.
Proof.
  intros H. unfold to_double. apply size_le in H.
  by rewrite (proj2 (N.leb_le _ _) H).
Qed.

(** Rounding never takes an integer from 2^53 on below 2^53. *)
Lemma to_double_large n : 2 ^ prec <= n → 2 ^ prec <= to_double n.
Proof.
  intros H. unfold to_double.
  assert (prec < N.size n) as Hk.
  { apply N.lt_nge. rewrite size_le. lia. }
  rewrite (proj2 (N.leb_gt _ _) Hk).
  assert (n ≠ 0) as Hn by (intros ->; unfold prec in *; simpl in *; lia).
  pose proof (N.log2_spec n ltac:(lia)) as [Hlo _].
  rewrite N.size_log2 in * by done.
  set (sh := N.succ (N.log2 n) - prec) in *.
  assert (N.log2 n = 52 + sh) as Hl by (unfold sh, prec in *; lia).
  rewrite Hl, N.pow_add_r in Hlo.
  assert (2 ^ 1 <= 2 ^ sh) as Hsh
    by (apply N.pow_le_mono_r; unfold sh, prec in *; lia).
  assert (2 ^ 52 <= N.shiftr n sh) as Hq.
  { rewrite N.shiftr_div_pow2. apply N.div_le_lower_bound; lia. }
  rewrite N.shiftl_mul_pow2. change (2 ^ prec) with (2 ^ 52 * 2 ^ 1).
  apply N.mul_le_mono; [|done]. case_match; lia.
Qed.

(** Comparing with a bound below 2^53 is not disturbed by the rounding. *)
Lemma to_double_le m n :
  m < 2 ^ prec → js_le (to_double n) m = js_le n m.
Proof.
  intros Hm. unfold js_le. destruct (decide (n < 2 ^ prec)) as [Hn|Hn].
  - by rewrite to_double_small.
  - pose proof (to_double_large n ltac:(lia)).
    rewrite !(proj2 (N.leb_gt _ _)); [done|lia..].
Qed.

(** A product below 2^53 is exact. *)
Lemma js_mul_exact a b : a * b < 2 ^ prec → js_mul a b = a * b.
Proof. apply to_double_small. Qed.

(** * The doubles among the integers *)

Lemma size_shiftl m s : m ≠ 0 → N.size (N.shiftl m s) = N.size m + s.
Proof.
  intros Hm. assert (N.shiftl m s ≠ 0) by (by rewrite N.shiftl_eq_0_iff).
  rewrite !N.size_log2, N.log2_shiftl by done. lia.
Qed.

(** Every integer with at most 53 significant bits is a double. *)
Lemma to_double_shiftl m s : m < 2 ^ prec → is_double (N.shiftl m s).
Proof.
  intros Hm. unfold is_double, to_double.
  destruct (decide (m = 0)) as [->|Hne]; [by rewrite N.shiftl_0_l|].
  case_match eqn:Hk; [done|]. apply N.leb_gt in Hk.
  rewrite size_shiftl in * by done.
  apply size_le in Hm.
  set (sh := N.size m + s - prec) in *.
  assert (sh <= s ∧ 1 <= sh) as [Hs Hs1] by (unfold sh; lia).
  assert (N.land (N.shiftl m s) (N.ones sh) = 0) as ->.
  { rewrite N.land_ones, N.shiftl_mul_pow2.
    replace s with (s - sh + sh) by lia.
    rewrite N.pow_add_r, N.mul_assoc. apply N.Div0.mod_mul. }
  assert (0 < N.shiftl 1 (sh - 1)) as Hh.
  { rewrite N.shiftl_1_l. apply N.neq_0_lt_0, N.pow_nonzero. lia. }
  rewrite (proj2 (N.ltb_ge _ _)) by lia.
  rewrite (proj2 (N.eqb_neq _ _)) by lia. simpl.
  rewrite N.shiftr_shiftl_l by lia. rewrite N.shiftl_shiftl. f_equal. lia.
Qed.

(** The result of the rounding has at most 53 significant bits. *)
Lemma to_double_repr n : ∃ m s, m < 2 ^ prec ∧ to_double n = N.shiftl m s.
Proof.
  destruct (decide (n < 2 ^ prec)) as [Hn|Hn].
  - exists n, 0. by rewrite to_double_small, N.shiftl_0_r.
  - unfold to_double.
    assert (prec < N.size n) as Hk.
    { apply N.lt_nge. rewrite size_le. lia. }
    rewrite (proj2 (N.leb_gt _ _) Hk).
    set (sh := N.size n - prec).
    assert (N.shiftr n sh < 2 ^ prec) as Hq.
    { rewrite N.shiftr_div_pow2. apply N.Div0.div_lt_upper_bound.
      rewrite <- N.pow_add_r. apply size_le. unfold sh. lia. }
    case_match; [|by eauto].
    destruct (decide (N.shiftr n sh + 1 < 2 ^ prec)) as [|Hm]; [by eauto|].
    exists (2 ^ 52), (1 + sh). split; [done|].
    rewrite <- N.shiftl_shiftl. f_equal.
    change (N.shiftl (2 ^ 52) 1) with (2 ^ prec). lia.
Qed.

Lemma to_double_idemp n : is_double (to_double n).
Proof.
  destruct (to_double_repr n) as (m & s & Hm & ->). by apply to_double_shiftl.
Qed.
