(* ===== verification/Double.v ===== *)
(** The Numbers of the program as IEEE 754 doubles (binary64), and the
    rounding that turns a mathematical value into one: [RoundMVResult], the
    last step of [parseFloat], which ECMAScript calls the Number value for a
    real.  A finite double is a sign, a significand below [2^53] and an
    exponent; a non-negative ratio [p / q] is rounded to the nearest double,
    the one with the even significand when two are as near, and to an
    infinity from [2^1024 - 2^970] on.  The file proves that [round_ratio]
    is that rounding, that doubles are its fixed points, that it agrees with
    the rounding of integers in [Number], and checks it against the
    Standard Library's [SpecFloat] on sample ratios. *)
From S2P Require Import Prelude Number.
From Stdlib Require Import SpecFloat ZArith QArith Qpower Qabs Lqa Lia.

#[local] Open Scope Z_scope.
#[local] Ltac Zify.zify_post_hook ::= Z.div_mod_to_equations.

(** The exponents of the least and of the greatest finite double, for a
    significand read as an integer of 53 bits. *)
Definition emin : Z := -1074.
Definition emax : Z := 971.

(** A Number: NaN, an infinity, or the finite double [m * 2^e] with its
    sign; the zeros are the finite doubles of significand 0. *)
Inductive JsNumber :=
| js_NaN
| js_Infinity (negative : bool)
| js_finite (negative : bool) (m e : Z).

(** [isNaN(x)] on a Number. *)
Definition isNaN (x : JsNumber) : bool :=
  match x with js_NaN => true | _ => false end.

(** The integer nearest to [a / b], the even one of two. *)
Definition rne_div (a b : Z) : Z :=
  let q := a / b in
  let r := a mod b in
  if (b <? 2 * r) || ((2 * r =? b) && Z.odd q) then q + 1 else q.

(** [p / q] divided by [2^e], as the ratio [num p e / den q e]. *)
Definition num (p e : Z) : Z := p * 2 ^ Z.max 0 (- e).
Definition den (q e : Z) : Z := q * 2 ^ Z.max 0 e.

(** The exponent of the double below [p / q]: the one for which the ratio
    divided by [2^e] has 53 bits, or [emin] when it has fewer there. *)
Definition exponent (p q : Z) : Z :=
  let e := Z.max emin (Z.log2 p - Z.log2 q - 53) in
  if 2 ^ 53 <=? num p e / den q e then e + 1 else e.

(** The double nearest to [p / q], for [0 <= p] and [0 < q]; [None] when
    it is beyond the finite doubles.  A significand that rounds up to
    [2^53] is carried into the exponent. *)
Definition round_ratio (p q : Z) : option (Z * Z) :=
  if p =? 0 then Some (0, emin) else
  let e := exponent p q in
  let m := rne_div (num p e) (den q e) in
  let '(m, e) := if m =? 2 ^ 53 then (2 ^ 52, e + 1) else (m, e) in
  if emax <? e then None else Some (m, e).

(** The Number value for the real [p / q] with a sign. *)
Definition RoundMVResult (negative : bool) (p q : Z) : JsNumber :=
  match round_ratio p q with
  | Some (m, e) => js_finite negative m e
  | None => js_Infinity negative
  end.

(** The form in which a double is written once: a significand of 53 bits,
    or fewer at the least exponent. *)
Definition canonical (m e : Z) : Prop :=
  0 ≤ m < 2 ^ 53 ∧ emin ≤ e ≤ emax ∧ (2 ^ 52 ≤ m ∨ e = emin).

Definition Number_ok (x : JsNumber) : Prop :=
  match x with js_finite _ m e => canonical m e | _ => True end.

(** [m] is a nearest integer to the ratio divided by [2^e], and an even
    one when there are two. *)
Definition nearest (p q m e : Z) : Prop :=
  Z.abs (2 * num p e - 2 * m * den q e) ≤ den q e
  ∧ (Z.abs (2 * num p e - 2 * m * den q e) = den q e → Z.even m = true).

(** [m * 2^e] is the double the ratio rounds to: a nearest one, the even
    one of two, and not the least of its binade when the ratio is nearer
    to the double below it. *)
Definition rounded (p q m e : Z) : Prop :=
  canonical m e ∧ nearest p q m e
  ∧ (m = 2 ^ 52 → emin < e → 4 * (m * den q e - num p e) ≤ den q e).

(** Ratios and doubles as rationals. *)
Definition ratio (p q : Z) : Q := p # Z.to_pos q.
Definition F2Q (m e : Z) : Q := ratio (m * 2 ^ Z.max 0 e) (2 ^ Z.max 0 (- e)).

(** The unit in the last place of a double of exponent [e]. *)
Definition ulp (e : Z) : Q := F2Q 1 e.

(** The least magnitude that rounds to an infinity: [2^1024 - 2^970]. *)
Definition overflow_threshold : Q := F2Q (2 ^ 54 - 1) (emax - 1).

(** [m * 2^e] is the double nearest to [x]: no double is nearer, and when
    another is as near, this is the one with the even significand. *)
Definition nearest_double (x : Q) (m e : Z) : Prop :=
  canonical m e ∧
  ∀ m' e', canonical m' e' →
    (Qabs (x - F2Q m e) <= Qabs (x - F2Q m' e'))%Q
    ∧ ((Qabs (x - F2Q m e) == Qabs (x - F2Q m' e'))%Q →
       (m', e') = (m, e) ∨ Z.even m = true).

(** The same rounding by the Standard Library's specification of IEEE 754
    division, on two integers that are taken as exact. *)
Definition to_spec_float (x : JsNumber) : spec_float :=
  match x with
  | js_NaN => S754_nan
  | js_Infinity s => S754_infinity s
  | js_finite s (Zpos m) e => S754_finite s m e
  | js_finite s _ _ => S754_zero s
  end.

Definition ieee_div (p q : positive) : spec_float :=
  SFdiv 53 1024 (S754_finite false p 0) (S754_finite false q 0).

Definition spec_float_eqb (x y : spec_float) : bool :=
  match x, y with
  | S754_zero a, S754_zero b => bool_decide (a = b)
  | S754_infinity a, S754_infinity b => bool_decide (a = b)
  | S754_nan, S754_nan => true
  | S754_finite a m e, S754_finite b m' e' =>
      bool_decide (a = b) && (m =? m')%positive && (e =? e')
  | _, _ => false
  end.

(** Ratios around the places where the rounding changes: ties, the carry
    into the next binade, the least doubles, the overflow threshold, and
    decimals that are not doubles. *)
Definition ratio_samples : list (positive * positive) :=
  [(1, 10); (1, 3); (2, 3); (1, 1); (3, 1); (25, 2); (1, 10 ^ 400);
   (10 ^ 400, 1); (5, 10 ^ 324); (25, 10 ^ 325); (24, 10 ^ 325);
   (2 ^ 1024 - 2 ^ 970, 1); (2 ^ 1024 - 2 ^ 970 - 1, 1);
   (2 ^ 1025 - 2 ^ 971 - 1, 2); (2 ^ 53 + 1, 1); (2 ^ 53 + 3, 1);
   (2 ^ 54 + 2, 1); (2 ^ 54 + 6, 4); (1, 2 ^ 1074); (1, 2 ^ 1075);
   (3, 2 ^ 1075); (3, 2 ^ 1076); (9007199254740993, 10 ^ 16);
   (4503599627370497, 2 ^ 1075); (2 ^ 53 - 1, 2 ^ 1075);
   (2 ^ 54 - 1, 2 ^ 1076)]%positive.

#[export] Instance canonical_dec m e : Decision (canonical m e).
Proof. unfold canonical. apply _. Defined.

#[export] Instance Number_ok_dec x : Decision (Number_ok x).
Proof. destruct x; simpl; apply _. Defined.

(** * The rounding against the standard library *)

Example round_ratio_ieee :
  forallb (λ pq, spec_float_eqb
                   (to_spec_float (RoundMVResult false (Zpos pq.1) (Zpos pq.2)))
                   (ieee_div pq.1 pq.2)) ratio_samples = true.
Proof. vm_compute. reflexivity. Qed.

Example round_ratio_tenth : round_ratio 1 10 = Some (7205759403792794, -56).
Proof. vm_compute. reflexivity. Qed.

Example round_ratio_tie_even : round_ratio (2 ^ 53 + 1) 1 = Some (2 ^ 52, 1).
Proof. vm_compute. reflexivity. Qed.

Example round_ratio_least : round_ratio 1 (2 ^ 1074) = Some (1, emin).
Proof. vm_compute. reflexivity. Qed.

Example round_ratio_underflow : round_ratio 1 (2 ^ 1075) = Some (0, emin).
Proof. vm_compute. reflexivity. Qed.

Example round_ratio_overflows : round_ratio (10 ^ 999) 1 = None.
Proof. vm_compute. reflexivity. Qed.

(** * Division rounded to nearest *)

Lemma rne_div_spec a b :
  0 < b →
  Z.abs (2 * a - 2 * rne_div a b * b) ≤ b
  ∧ (Z.abs (2 * a - 2 * rne_div a b * b) = b → Z.even (rne_div a b) = true).
Proof.
  intros Hb. unfold rne_div.
  destruct (Z.odd (a / b)) eqn:Ho.
  - assert (Z.even (a / b + 1) = true) as He.
    { by rewrite Z.add_1_r, Z.even_succ. }
    case_match eqn:E; [|rewrite <- Z.negb_odd, Ho]; split; try done; lia.
  - assert (Z.even (a / b) = true) as He by (by rewrite <- Z.negb_odd, Ho).
    case_match eqn:E; split; try done; lia.
Qed.

Lemma rne_div_floor a b : 0 < b → a / b ≤ rne_div a b ≤ a / b + 1.
Proof. intros Hb. unfold rne_div. case_match; lia. Qed.

Lemma rne_div_exact k b : 0 < b → rne_div (k * b) b = k.
Proof.
  intros Hb. unfold rne_div.
  rewrite Z.div_mul, Z.mod_mul by lia.
  rewrite (proj2 (Z.ltb_ge _ _)), (proj2 (Z.eqb_neq _ _)) by lia. done.
Qed.

(** * Scaling a ratio by a power of two *)

Lemma pow2_pos n : 0 ≤ n → 0 < 2 ^ n.
Proof. intros. by apply Z.pow_pos_nonneg. Qed.

Lemma num_pos p e : 0 < p → 0 < num p e.
Proof. intros. unfold num. pose proof (pow2_pos (Z.max 0 (- e))). nia. Qed.

Lemma den_pos q e : 0 < q → 0 < den q e.
Proof. intros. unfold den. pose proof (pow2_pos (Z.max 0 e)). nia. Qed.

Lemma div_ge_iff a b k : 0 < b → k ≤ a / b ↔ k * b ≤ a.
Proof. intros. split; intros; nia. Qed.

Lemma scale_shift p q e e' :
  e ≤ e' → num p e * den q e' = num p e' * den q e * 2 ^ (e' - e).
Proof.
  intros He. unfold num, den.
  assert (2 ^ Z.max 0 (- e) * 2 ^ Z.max 0 e'
          = 2 ^ Z.max 0 (- e') * 2 ^ Z.max 0 e * 2 ^ (e' - e)) as H.
  { rewrite <- !Z.pow_add_r by lia. f_equal. lia. }
  transitivity (p * q * (2 ^ Z.max 0 (- e) * 2 ^ Z.max 0 e')); [ring|].
  rewrite H. ring.
Qed.

Lemma scale_succ p q e : num p e * den q (e + 1) = 2 * num p (e + 1) * den q e.
Proof.
  rewrite (scale_shift p q e (e + 1)) by lia.
  replace (e + 1 - e) with 1 by lia. change (2 ^ 1) with 2. ring.
Qed.

Lemma pow2_ge_2 n : 0 < n → 2 ≤ 2 ^ n.
Proof. intros. change 2 with (2 ^ 1) at 1. apply Z.pow_le_mono_r; lia. Qed.

Lemma num_lt_pow p q e k :
  0 < p → 0 < q → 0 ≤ k → Z.log2 p - Z.log2 q + 1 ≤ k + e →
  num p e < 2 ^ k * den q e.
Proof.
  intros Hp Hq Hk He. unfold num, den.
  pose proof (Z.log2_spec p Hp) as [_ Hlp].
  pose proof (Z.log2_spec q Hq) as [Hlq _].
  pose proof (Z.log2_nonneg p). pose proof (Z.log2_nonneg q).
  assert (2 ^ Z.succ (Z.log2 p) * 2 ^ Z.max 0 (- e)
          ≤ 2 ^ k * 2 ^ Z.log2 q * 2 ^ Z.max 0 e) as Hpw.
  { rewrite <- !Z.pow_add_r by lia. apply Z.pow_le_mono_r; lia. }
  pose proof (pow2_pos (Z.max 0 (- e)) ltac:(lia)) as HA.
  pose proof (pow2_pos (Z.max 0 e) ltac:(lia)) as HB.
  pose proof (pow2_pos k Hk) as HK.
  eapply Z.lt_le_trans; [apply Z.mul_lt_mono_pos_r, Hlp; done|].
  etrans; [exact Hpw|]. rewrite <- !Z.mul_assoc.
  apply Z.mul_le_mono_nonneg_l; [lia|]. apply Z.mul_le_mono_nonneg_r; lia.
Qed.

Lemma num_ge_pow p q e k :
  0 < p → 0 < q → 0 ≤ k → k + e ≤ Z.log2 p - Z.log2 q - 1 →
  2 ^ k * den q e ≤ num p e.
Proof.
  intros Hp Hq Hk He. unfold num, den.
  pose proof (Z.log2_spec p Hp) as [Hlp _].
  pose proof (Z.log2_spec q Hq) as [_ Hlq].
  pose proof (Z.log2_nonneg p). pose proof (Z.log2_nonneg q).
  assert (2 ^ k * 2 ^ Z.succ (Z.log2 q) * 2 ^ Z.max 0 e
          ≤ 2 ^ Z.log2 p * 2 ^ Z.max 0 (- e)) as Hpw.
  { rewrite <- !Z.pow_add_r by lia. apply Z.pow_le_mono_r; lia. }
  pose proof (pow2_pos (Z.max 0 (- e)) ltac:(lia)) as HA.
  pose proof (pow2_pos (Z.max 0 e) ltac:(lia)) as HB.
  pose proof (pow2_pos k Hk) as HK.
  etrans; [|apply Z.mul_le_mono_nonneg_r, Hlp; lia].
  etrans; [|exact Hpw]. rewrite <- !Z.mul_assoc.
  apply Z.mul_le_mono_nonneg_l; [lia|]. apply Z.mul_le_mono_nonneg_r; lia.
Qed.

(** The exponent puts the ratio in the range of a 53-bit significand. *)
Lemma exponent_spec p q :
  0 < p → 0 < q →
  emin ≤ exponent p q
  ∧ num p (exponent p q) < 2 ^ 53 * den q (exponent p q)
  ∧ (2 ^ 52 * den q (exponent p q) ≤ num p (exponent p q)
     ∨ exponent p q = emin).
Proof.
  intros Hp Hq. unfold exponent.
  set (d := Z.log2 p - Z.log2 q - 53). set (e := Z.max emin d).
  pose proof (den_pos q e Hq) as Hd. pose proof (den_pos q (e + 1) Hq) as Hd1.
  assert (num p e < 2 ^ 54 * den q e) as Hu by (apply num_lt_pow; lia).
  destruct (Z.leb_spec (2 ^ 53) (num p e / den q e)) as [Hb|Hb].
  - apply div_ge_iff in Hb; [|done].
    pose proof (scale_succ p q e) as Hs.
    split_and!; [lia|nia|left; nia].
  - assert (num p e < 2 ^ 53 * den q e) as Hlt by nia.
    split_and!; [lia|done|].
    destruct (decide (emin ≤ d)); [left|right; lia].
    apply num_ge_pow; lia.
Qed.

Lemma nearest_rne p q e :
  0 < q → nearest p q (rne_div (num p e) (den q e)) e.
Proof. intros Hq. apply rne_div_spec. by apply den_pos. Qed.

Lemma nearest_carry p q e :
  0 < q → nearest p q (2 ^ 53) e →
  nearest p q (2 ^ 52) (e + 1)
  ∧ 4 * (2 ^ 52 * den q (e + 1) - num p (e + 1)) ≤ den q (e + 1).
Proof.
  intros Hq [Hn _]. pose proof (den_pos q e Hq). pose proof (den_pos q (e + 1) Hq).
  pose proof (scale_succ p q e) as Hs.
  assert (Z.abs (2 * num p (e + 1) - 2 * 2 ^ 52 * den q (e + 1)) * 2
          ≤ den q (e + 1)) as Hh by nia.
  split; [split|]; lia.
Qed.

Lemma scale_up p q e e' :
  0 < q → e < e' → 2 ^ 52 * den q e' ≤ num p e' →
  2 ^ 53 * den q e ≤ num p e.
Proof.
  intros Hq He Hl. pose proof (den_pos q e' Hq). pose proof (den_pos q e Hq).
  pose proof (scale_shift p q e e' ltac:(lia)) as Hs.
  pose proof (pow2_ge_2 (e' - e) ltac:(lia)) as Hp.
  apply (Z.mul_le_mono_pos_r _ _ (den q e')); [done|]. rewrite Hs.
  etrans; [|apply Z.mul_le_mono_nonneg_l, Hp; nia]. nia.
Qed.

(** The exponent is the only one that puts the ratio in that range. *)
Lemma exponent_unique p q e :
  0 < p → 0 < q → emin ≤ e →
  num p e < 2 ^ 53 * den q e →
  (2 ^ 52 * den q e ≤ num p e ∨ e = emin) →
  exponent p q = e.
Proof.
  intros Hp Hq He Hu Hl.
  destruct (exponent_spec p q Hp Hq) as (He0 & Hu0 & Hl0).
  destruct (Z.lt_trichotomy (exponent p q) e) as [H|[H|H]]; [|done|].
  - pose proof (scale_up p q (exponent p q) e Hq H). lia.
  - pose proof (scale_up p q e (exponent p q) Hq H). lia.
Qed.

Lemma round_ratio_spec p q :
  0 < p → 0 < q →
  match round_ratio p q with
  | Some (m, e) => rounded p q m e
  | None => (2 ^ 54 - 1) * den q emax ≤ 2 * num p emax
  end.
Proof.
  intros Hp Hq. unfold round_ratio. rewrite (proj2 (Z.eqb_neq _ _)) by lia.
  destruct (exponent_spec p q Hp Hq) as (He & Hu & Hl).
  set (e := exponent p q) in *.
  pose proof (nearest_rne p q e Hq) as Hn.
  pose proof (rne_div_floor (num p e) (den q e) (den_pos q e Hq)) as Hf.
  pose proof (den_pos q e Hq) as Hd. pose proof (den_pos q emax Hq) as Hdm.
  set (m := rne_div (num p e) (den q e)) in *.
  assert (0 ≤ m ≤ 2 ^ 53) as Hm.
  { pose proof (num_pos p e Hp). split; [|nia].
    etrans; [|apply Hf]. apply Z.div_pos; lia. }
  assert (2 ^ 52 ≤ m ∨ e = emin) as Hm2.
  { destruct Hl as [Hl|]; [left|by right].
    etrans; [|apply Hf]. by apply div_ge_iff. }
  assert (emax < e → 2 ^ 53 * den q emax ≤ num p emax) as Hov.
  { intros Ho. apply (scale_up p q emax e); [done..|].
    destruct Hl; [done|unfold emin, emax in *; lia]. }
  destruct (Z.eqb_spec m (2 ^ 53)) as [Hc|Hc].
  - rewrite Hc in Hn. destruct (nearest_carry p q e Hq Hn) as [Hn' Hb].
    destruct (Z.ltb_spec emax (e + 1)) as [Ho|Ho].
    + destruct (decide (e = emax)) as [Hx|]; [rewrite Hx in Hn; destruct Hn|]; lia.
    + split_and!; [unfold canonical; lia|done..].
  - destruct (Z.ltb_spec emax e) as [Ho|Ho]; [lia|].
    split_and!; [unfold canonical; lia|done|]. lia.
Qed.

(** * Doubles as rationals *)

Lemma ratio_le a b c d : 0 < b → 0 < d → (ratio a b <= ratio c d)%Q ↔ a * d ≤ c * b.
Proof. intros. unfold ratio, Qle. simpl. by rewrite !Z2Pos.id. Qed.

Lemma ratio_lt a b c d : 0 < b → 0 < d → (ratio a b < ratio c d)%Q ↔ a * d < c * b.
Proof. intros. unfold ratio, Qlt. simpl. by rewrite !Z2Pos.id. Qed.

Lemma ratio_eq a b c d : 0 < b → 0 < d → (ratio a b == ratio c d)%Q ↔ a * d = c * b.
Proof. intros. unfold ratio, Qeq. simpl. by rewrite !Z2Pos.id. Qed.

Lemma ratio_sub a b c d :
  0 < b → 0 < d → (ratio a b - ratio c d == ratio (a * d - c * b) (b * d))%Q.
Proof.
  intros. unfold ratio, Qeq, Qminus, Qplus, Qopp. simpl.
  rewrite !Pos2Z.inj_mul, !Z2Pos.id by nia. ring.
Qed.

Lemma ratio_mul k a b : (inject_Z k * ratio a b == ratio (k * a) b)%Q.
Proof. unfold ratio, Qeq, Qmult. simpl. by rewrite Pos.mul_1_l. Qed.

Lemma ratio_add a b c :
  0 < c → (ratio a c + ratio b c == ratio (a + b) c)%Q.
Proof.
  intros. unfold ratio, Qeq, Qplus. simpl.
  rewrite !Pos2Z.inj_mul, !Z2Pos.id by nia. ring.
Qed.

(** A ratio of powers of one base is a power with an integer exponent. *)
Lemma ratio_power b m e :
  0 < b →
  (ratio (m * b ^ Z.max 0 e) (b ^ Z.max 0 (- e)) == inject_Z m * inject_Z b ^ e)%Q.
Proof.
  intros Hb. unfold ratio. destruct (Z.le_gt_cases 0 e) as [He|He].
  - rewrite Z.max_r, Z.max_l by lia. simpl.
    rewrite <- (Zpower_Qpower b e He), <- inject_Z_mult. reflexivity.
  - rewrite Z.max_l, Z.max_r by lia. rewrite Z.pow_0_r, Z.mul_1_r, Qmake_Qdiv.
    rewrite Z2Pos.id by (apply Z.pow_pos_nonneg; lia).
    rewrite (Zpower_Qpower b (- e)) by lia. rewrite Qpower_opp.
    unfold Qdiv. by rewrite Qinv_involutive.
Qed.

(** [F2Q m e] is [m * 2^e]. *)
Lemma F2Q_power m e : (F2Q m e == inject_Z m * 2 ^ e)%Q.
Proof. by apply (ratio_power 2). Qed.

Lemma F2Q_le m m' e : (F2Q m e <= F2Q m' e)%Q ↔ m ≤ m'.
Proof.
  unfold F2Q. pose proof (pow2_pos (Z.max 0 e) ltac:(lia)).
  pose proof (pow2_pos (Z.max 0 (- e)) ltac:(lia)).
  rewrite ratio_le by done. rewrite <- !Z.mul_assoc.
  symmetry. apply Z.mul_le_mono_pos_r. nia.
Qed.

Lemma F2Q_shift m e k : k ≤ e → (F2Q m e == F2Q (m * 2 ^ (e - k)) k)%Q.
Proof.
  intros Hk. unfold F2Q. rewrite ratio_eq by (apply pow2_pos; lia).
  rewrite <- !Z.mul_assoc. f_equal.
  rewrite <- !Z.pow_add_r by lia. f_equal. lia.
Qed.

Lemma F2Q_add m n e : (F2Q m e + F2Q n e == F2Q (m + n) e)%Q.
Proof.
  unfold F2Q. rewrite ratio_add by (apply pow2_pos; lia).
  by rewrite Z.mul_add_distr_r.
Qed.

Lemma F2Q_le_ratio m e p q :
  0 < q → (F2Q m e <= ratio p q)%Q ↔ m * den q e ≤ num p e.
Proof.
  intros Hq. unfold F2Q, num, den.
  rewrite ratio_le by (done || apply pow2_pos; lia).
  by rewrite <- !Z.mul_assoc, (Z.mul_comm q).
Qed.

Lemma F2Q_lt m m' e : (F2Q m e < F2Q m' e)%Q ↔ m < m'.
Proof.
  unfold F2Q. pose proof (pow2_pos (Z.max 0 e) ltac:(lia)).
  pose proof (pow2_pos (Z.max 0 (- e)) ltac:(lia)).
  rewrite ratio_lt by done. rewrite <- !Z.mul_assoc.
  symmetry. apply Z.mul_lt_mono_pos_r. nia.
Qed.

Lemma Qabs_cases t : (0 <= t ∧ Qabs t == t)%Q ∨ (t <= 0 ∧ Qabs t == - t)%Q.
Proof.
  destruct (Qlt_le_dec t 0) as [H|H]; [right|left].
  - split; [by apply Qlt_le_weak|]. by apply Qabs_neg, Qlt_le_weak.
  - split; [done|]. by apply Qabs_pos.
Qed.

Lemma ulp_pos e : (0 < ulp e)%Q.
Proof.
  unfold ulp, F2Q. change 0%Q with (ratio 0 1).
  rewrite ratio_lt by (done || apply pow2_pos; lia).
  pose proof (pow2_pos (Z.max 0 e) ltac:(lia)). lia.
Qed.

Lemma F2Q_mul k m e : (inject_Z k * F2Q m e == F2Q (k * m) e)%Q.
Proof. unfold F2Q. by rewrite ratio_mul, Z.mul_assoc. Qed.

Lemma ulp_double e : (ulp e == 2 * ulp (e - 1))%Q.
Proof.
  unfold ulp. rewrite (F2Q_shift 1 e (e - 1)) by lia.
  replace (e - (e - 1)) with 1 by lia. symmetry. apply (F2Q_mul 2).
Qed.

Lemma F2Q_succ m e : (F2Q (m + 1) e == F2Q m e + ulp e)%Q.
Proof. unfold ulp. by rewrite F2Q_add. Qed.

Lemma F2Q_pred m e : (F2Q (m - 1) e == F2Q m e - ulp e)%Q.
Proof.
  pose proof (F2Q_succ (m - 1) e) as H.
  replace (m - 1 + 1) with m in H by lia. rewrite H. ring.
Qed.

(** The distance to a double and the unit in the last place, over one
    denominator. *)
Lemma diff_F2Q p q m e :
  0 < q →
  (ratio p q - F2Q m e
   == ratio (num p e - m * den q e) (q * 2 ^ Z.max 0 (- e)))%Q.
Proof.
  intros Hq. unfold F2Q. rewrite ratio_sub by (done || apply pow2_pos; lia).
  unfold num, den. f_equiv. ring.
Qed.

Lemma ulp_ratio q e :
  0 < q → (ulp e == ratio (den q e) (q * 2 ^ Z.max 0 (- e)))%Q.
Proof.
  intros Hq. pose proof (pow2_pos (Z.max 0 (- e)) ltac:(lia)).
  unfold ulp, F2Q, den. rewrite ratio_eq by nia. ring.
Qed.

(** A linear fact on the scaled integers is the same fact on the ratio,
    the double and the unit in the last place. *)
Lemma scaled_le p q m e (a b : Z) :
  0 < q →
  ((a # 1) * (ratio p q - F2Q m e) <= (b # 1) * ulp e)%Q
  ↔ a * (num p e - m * den q e) ≤ b * den q e.
Proof.
  intros Hq. pose proof (pow2_pos (Z.max 0 (- e)) ltac:(lia)).
  change (a # 1) with (inject_Z a). change (b # 1) with (inject_Z b).
  rewrite (diff_F2Q p q m e Hq), (ulp_ratio q e Hq), !ratio_mul.
  rewrite ratio_le by nia. symmetry. apply Z.mul_le_mono_pos_r. nia.
Qed.

Lemma nearest_Q p q m e :
  0 < q → nearest p q m e →
  (2 * Qabs (ratio p q - F2Q m e) <= ulp e)%Q
  ∧ ((2 * Qabs (ratio p q - F2Q m e) == ulp e)%Q → Z.even m = true).
Proof.
  intros Hq [Hn Ht].
  pose proof (scaled_le p q m e 2 1 Hq) as [_ H1].
  pose proof (scaled_le p q m e (-2) 1 Hq) as [_ H2].
  pose proof (scaled_le p q m e 2 (-1) Hq) as [H3 _].
  pose proof (scaled_le p q m e (-2) (-1) Hq) as [H4 _].
  set (t := (ratio p q - F2Q m e)%Q) in *.
  specialize (H1 ltac:(lia)). specialize (H2 ltac:(lia)).
  destruct (Qabs_cases t) as [[? E]|[? E]]; rewrite E; (split; [lra|]);
    intros Heq; apply Ht.
  - specialize (H4 ltac:(lra)). lia.
  - specialize (H3 ltac:(lra)). lia.
Qed.

(** * The doubles next to a double *)

Lemma canonical_shift m e e' :
  canonical m e → emin ≤ e' < e → 2 ^ 53 ≤ m * 2 ^ (e - e').
Proof.
  intros (Hm & He & Hn) He'.
  pose proof (pow2_ge_2 (e - e') ltac:(lia)) as Hp. destruct Hn; [nia|lia].
Qed.

Lemma double_above m e m' e' :
  canonical m e → canonical m' e' → (F2Q m e < F2Q m' e')%Q →
  (F2Q m e + ulp e <= F2Q m' e')%Q.
Proof.
  intros Hc Hc' Hlt. rewrite <- F2Q_succ.
  destruct (Z.le_gt_cases e e') as [He|He].
  - rewrite (F2Q_shift m' e' e) in * by done.
    apply F2Q_lt in Hlt. apply F2Q_le. lia.
  - rewrite (F2Q_shift m e e') in Hlt by lia. apply F2Q_lt in Hlt.
    pose proof (canonical_shift m e e' Hc). unfold canonical in *. lia.
Qed.

Lemma double_below m e m' e' :
  canonical m e → canonical m' e' → (F2Q m' e' < F2Q m e)%Q →
  2 ^ 52 < m ∨ e = emin →
  (F2Q m' e' <= F2Q m e - ulp e)%Q.
Proof.
  intros Hc Hc' Hlt Hm. rewrite <- F2Q_pred.
  destruct (Z.le_gt_cases e e') as [He|He].
  - rewrite (F2Q_shift m' e' e) in * by done.
    apply F2Q_lt in Hlt. apply F2Q_le. lia.
  - rewrite (F2Q_shift (m - 1) e e') by lia. apply F2Q_le.
    pose proof (pow2_ge_2 (e - e') ltac:(lia)) as Hp. unfold canonical in *. nia.
Qed.

Lemma double_below_binade e m' e' :
  emin < e → canonical m' e' → (F2Q m' e' < F2Q (2 ^ 52) e)%Q →
  (2 * F2Q m' e' <= 2 * F2Q (2 ^ 52) e - ulp e)%Q.
Proof.
  intros He Hc' Hlt.
  assert (F2Q (2 ^ 52) e == F2Q (2 ^ 53) (e - 1))%Q as Hy.
  { rewrite (F2Q_shift _ e (e - 1)) by lia. by replace (e - (e - 1)) with 1 by lia. }
  enough (F2Q m' e' <= F2Q (2 ^ 53 - 1) (e - 1))%Q as Hle.
  { rewrite F2Q_pred, <- Hy in Hle. pose proof (ulp_double e). lra. }
  rewrite Hy in Hlt. destruct (Z.le_gt_cases (e - 1) e') as [He'|He'].
  - rewrite (F2Q_shift m' e' (e - 1)) in * by done.
    apply F2Q_lt in Hlt. apply F2Q_le. lia.
  - rewrite (F2Q_shift (2 ^ 53 - 1) (e - 1) e') by lia. apply F2Q_le.
    pose proof (pow2_ge_2 (e - 1 - e') ltac:(lia)) as Hp. unfold canonical in *. nia.
Qed.

(** * The rounding is to nearest, ties to even *)

Section nearest.
Context (p q m e : Z) (Hq : 0 < q) (Hr : rounded p q m e).
Context (m' e' : Z) (Hc' : canonical m' e').

#[local] Abbreviation x := (ratio p q).
#[local] Abbreviation y := (F2Q m e).
#[local] Abbreviation y' := (F2Q m' e').

Lemma rounded_cases :
  (y' == y)%Q
  ∨ (2 * Qabs (x - y) <= ulp e ∧ (y + ulp e <= y' ∨ y' <= y - ulp e))%Q
  ∨ (m = 2 ^ 52 ∧ (4 * (y - x) <= ulp e ∧ 2 * y' <= 2 * y - ulp e)%Q).
Proof.
  destruct Hr as (Hc & Hn & Hb).
  destruct (nearest_Q p q m e Hq Hn) as [Hh _].
  destruct (Q_dec y' y) as [[Hlt|Hgt]|Heq]; [|right; left|by left].
  - destruct (decide (2 ^ 52 < m ∨ e = emin)) as [Hm|Hm].
    + right; left. split; [done|]. right. by apply double_below.
    + right; right. assert (m = 2 ^ 52 ∧ emin < e) as [-> He].
      { unfold canonical in Hc. lia. }
      split_and!; [done| |by apply double_below_binade].
      pose proof (scaled_le p q (2 ^ 52) e (-4) 1 Hq) as [_ H4].
      specialize (H4 ltac:(specialize (Hb eq_refl He); lia)). lra.
  - split; [done|]. left. by apply double_above.
Qed.

Theorem rounded_nearest :
  (Qabs (x - y) <= Qabs (x - y'))%Q.
Proof.
  pose proof (ulp_pos e).
  destruct rounded_cases as [Heq|[[Hh Hy]|(_ & Hb & Hy)]].
  - rewrite Heq. apply Qle_refl.
  - destruct (Qabs_cases (x - y)) as [[? ?]|[? ?]],
      (Qabs_cases (x - y')) as [[? ?]|[? ?]], Hy; lra.
  - destruct (Qabs_cases (x - y)) as [[? ?]|[? ?]],
      (Qabs_cases (x - y')) as [[? ?]|[? ?]]; lra.
Qed.

Theorem rounded_tie :
  (Qabs (x - y) == Qabs (x - y'))%Q → (y' == y)%Q ∨ Z.even m = true.
Proof.
  pose proof (ulp_pos e). intros Ht.
  destruct rounded_cases as [Heq|[[Hh Hy]|(-> & Hb & Hy)]];
    [by left|right|by right].
  destruct Hr as (_ & Hn & _).
  apply (nearest_Q p q m e Hq Hn).
  destruct (Qabs_cases (x - y)) as [[? ?]|[? ?]],
    (Qabs_cases (x - y')) as [[? ?]|[? ?]], Hy; lra.
Qed.

End nearest.

(** * Overflow *)

(** A ratio that rounds to a double is below the middle of the greatest
    double and [2^1024]. *)
Lemma rounded_below_overflow p q m e :
  0 < q → rounded p q m e → 2 * num p emax < (2 ^ 54 - 1) * den q emax.
Proof.
  intros Hq ((Hm & He & _) & [Hn Ht] & _).
  pose proof (den_pos q e Hq) as Hd. pose proof (den_pos q emax Hq) as Hdm.
  pose proof (scale_shift p q e emax ltac:(lia)) as Hs.
  pose proof (pow2_pos (emax - e) ltac:(lia)) as HP.
  set (P := 2 ^ (emax - e)) in *.
  apply Z.nle_gt. intros Hge.
  assert ((2 ^ 54 - 1) * P * den q e ≤ 2 * num p e) as H1.
  { apply (Z.mul_le_mono_pos_r _ _ (den q emax)); [done|]. nia. }
  destruct (decide (m = 2 ^ 53 - 1)) as [->|]; [|nia].
  assert (Z.abs (2 * num p e - 2 * (2 ^ 53 - 1) * den q e) = den q e) as Hx by nia.
  by apply Ht in Hx.
Qed.

Lemma round_ratio_None p q :
  0 < p → 0 < q →
  round_ratio p q = None ↔ (2 ^ 54 - 1) * den q emax ≤ 2 * num p emax.
Proof.
  intros Hp Hq. pose proof (round_ratio_spec p q Hp Hq) as Hs.
  destruct (round_ratio p q) as [[m e]|]; [|done].
  apply (rounded_below_overflow p q m e Hq) in Hs. split; [done|lia].
Qed.

Theorem round_ratio_overflow p q :
  0 < p → 0 < q →
  round_ratio p q = None ↔ (overflow_threshold <= ratio p q)%Q.
Proof.
  intros Hp Hq. rewrite round_ratio_None by done.
  unfold overflow_threshold. rewrite F2Q_le_ratio by done.
  unfold num, den, emax.
  change (Z.max 0 971) with 971. change (Z.max 0 (971 - 1)) with 970.
  change (Z.max 0 (- (971))) with 0. change (Z.max 0 (- (971 - 1))) with 0.
  change (2 ^ 971) with (2 * 2 ^ 970). lia.
Qed.

(** * Doubles are fixed points *)

Lemma F2Q_inj m m' e : (F2Q m e == F2Q m' e)%Q → m = m'.
Proof.
  intros H. apply Z.le_antisymm; apply (F2Q_le _ _ e); rewrite H; apply Qle_refl.
Qed.

(** A double has one canonical form. *)
Lemma canonical_inj m e m' e' :
  canonical m e → canonical m' e' → (F2Q m e == F2Q m' e')%Q →
  m = m' ∧ e = e'.
Proof.
  intros Hc Hc' Heq. destruct (Z.lt_trichotomy e e') as [H|[->|H]].
  - rewrite (F2Q_shift m' e' e) in Heq by lia. apply F2Q_inj in Heq.
    pose proof (canonical_shift m' e' e Hc'). unfold canonical in *. lia.
  - by apply F2Q_inj in Heq.
  - rewrite (F2Q_shift m e e') in Heq by lia. apply F2Q_inj in Heq.
    pose proof (canonical_shift m e e' Hc). unfold canonical in *. lia.
Qed.

Lemma canonical_below_threshold m e :
  canonical m e → (F2Q m e < overflow_threshold)%Q.
Proof.
  intros (Hm & He & _). unfold overflow_threshold.
  destruct (Z.le_gt_cases (emax - 1) e) as [H|H].
  - rewrite (F2Q_shift m e (emax - 1)) by done. apply F2Q_lt.
    assert (2 ^ (e - (emax - 1)) ≤ 2 ^ 1) as Hp by (apply Z.pow_le_mono_r; lia).
    change (2 ^ 1) with 2 in Hp. nia.
  - rewrite (F2Q_shift _ (emax - 1) e) by lia. apply F2Q_lt.
    pose proof (pow2_pos (emax - 1 - e) ltac:(lia)). nia.
Qed.

(** The ratio that is the double [m * 2^e]. *)
Lemma ratio_F2Q m e : ratio (num m (- e)) (den 1 (- e)) = F2Q m e.
Proof. unfold F2Q, num, den. by rewrite Z.opp_involutive, Z.mul_1_l. Qed.

Theorem round_ratio_exact m e :
  canonical m e → 0 < m →
  round_ratio (num m (- e)) (den 1 (- e)) = Some (m, e).
Proof.
  intros Hc Hm. set (p := num m (- e)). set (q := den 1 (- e)).
  assert (0 < p) as Hp by (by apply num_pos).
  assert (0 < q) as Hq by (by apply den_pos).
  pose proof (round_ratio_spec p q Hp Hq) as Hs.
  pose proof (round_ratio_overflow p q Hp Hq) as Ho.
  destruct (round_ratio p q) as [[m1 e1]|].
  - pose proof (rounded_nearest p q m1 e1 Hq Hs m e Hc) as Hn.
    unfold p, q in Hn. rewrite ratio_F2Q in Hn.
    assert (F2Q m e == F2Q m1 e1)%Q as Heq.
    { destruct (Qabs_cases (F2Q m e - F2Q m1 e1)) as [[? ?]|[? ?]],
        (Qabs_cases (F2Q m e - F2Q m e)) as [[? ?]|[? ?]]; lra. }
    destruct Hs as (Hc1 & _).
    by destruct (canonical_inj m e m1 e1 Hc Hc1 Heq) as [-> ->].
  - pose proof (canonical_below_threshold m e Hc) as Hlt.
    unfold p, q in Ho. rewrite ratio_F2Q in Ho.
    destruct Ho as [Ho _]. specialize (Ho eq_refl). lra.
Qed.

(** * The rounding, in full *)

#[export] Instance nearest_double_proper :
  Proper (Qeq ==> eq ==> eq ==> iff) nearest_double.
Proof.
  intros x x' Hx m ? <- e ? <-. unfold nearest_double.
  by setoid_rewrite Hx.
Qed.

Theorem round_ratio_nearest p q :
  0 < p → 0 < q →
  match round_ratio p q with
  | Some (m, e) => nearest_double (ratio p q) m e
  | None => (overflow_threshold <= ratio p q)%Q
  end.
Proof.
  intros Hp Hq. pose proof (round_ratio_spec p q Hp Hq) as Hs.
  pose proof (round_ratio_overflow p q Hp Hq) as Ho.
  destruct (round_ratio p q) as [[m e]|]; [|by apply Ho].
  split; [apply Hs|]. intros m' e' Hc'. split.
  - by apply rounded_nearest.
  - intros Ht. destruct (rounded_tie p q m e Hq Hs m' e' Hc' Ht) as [Heq|]; [|by right].
    left. destruct Hs as (Hc & _).
    by destruct (canonical_inj m' e' m e Hc' Hc Heq) as [-> ->].
Qed.

(** Of two doubles as near to [x] and both nearest, the lesser is followed
    by the greater, so that their significands differ in parity. *)
Lemma nearest_double_above x m e m1 e1 :
  nearest_double x m e → nearest_double x m1 e1 →
  (F2Q m e < F2Q m1 e1)%Q → Z.even m = true → Z.even m1 = true → False.
Proof.
  intros [Hc Hn] [Hc1 Hn1] Hlt Hev Hev1.
  destruct (Hn m1 e1 Hc1) as [Hle _]. destruct (Hn1 m e Hc) as [Hle1 _].
  pose proof (double_above m e m1 e1 Hc Hc1 Hlt) as Hs.
  pose proof (ulp_pos e) as Hu.
  assert (m + 1 < 2 ^ 53) as Hm.
  { destruct (decide (m + 1 < 2 ^ 53)); [done|]. exfalso.
    assert (m = 2 ^ 53 - 1) as -> by (unfold canonical in Hc; lia). done. }
  assert (canonical (m + 1) e) as Hc' by (unfold canonical in *; lia).
  destruct (Hn (m + 1) e Hc') as [Hle' _]. rewrite F2Q_succ in Hle'.
  assert (F2Q m1 e1 == F2Q (m + 1) e)%Q as Heq.
  { rewrite F2Q_succ.
    destruct (Qabs_cases (x - F2Q m e)) as [[? ?]|[? ?]],
      (Qabs_cases (x - F2Q m1 e1)) as [[? ?]|[? ?]],
      (Qabs_cases (x - (F2Q m e + ulp e))) as [[? ?]|[? ?]]; lra. }
  destruct (canonical_inj _ _ _ _ Hc1 Hc' Heq) as [-> _].
  rewrite Z.add_1_r, Z.even_succ, <- Z.negb_even, Hev in Hev1. done.
Qed.

(** A real has one nearest double. *)
Theorem nearest_double_unique x m e m1 e1 :
  nearest_double x m e → nearest_double x m1 e1 → m1 = m ∧ e1 = e.
Proof.
  intros H H1. pose proof H as [Hc Hn]. pose proof H1 as [Hc1 Hn1].
  destruct (Hn m1 e1 Hc1) as [Hle Ht]. destruct (Hn1 m e Hc) as [Hle1 Ht1].
  destruct (Ht (Qle_antisym _ _ Hle Hle1)) as [[= -> ->]|Hev]; [done|].
  destruct (Ht1 (Qle_antisym _ _ Hle1 Hle)) as [[= -> ->]|Hev1]; [done|].
  destruct (Q_dec (F2Q m e) (F2Q m1 e1)) as [[Hlt|Hgt]|Heq].
  - by destruct (nearest_double_above x m e m1 e1).
  - by destruct (nearest_double_above x m1 e1 m e).
  - by destruct (canonical_inj _ _ _ _ Hc Hc1 Heq) as [-> ->].
Qed.

(** Below the overflow threshold the rounding is the only function that
    returns the nearest double. *)
Corollary round_ratio_complete p q m e :
  0 < p → 0 < q → (ratio p q < overflow_threshold)%Q →
  nearest_double (ratio p q) m e → round_ratio p q = Some (m, e).
Proof.
  intros Hp Hq Hlt Hn. pose proof (round_ratio_nearest p q Hp Hq) as Hr.
  destruct (round_ratio p q) as [[m0 e0]|]; [|lra].
  by destruct (nearest_double_unique _ _ _ _ _ Hn Hr) as [-> ->].
Qed.

(** * Integers *)

Lemma F2Q_int m e : 0 ≤ e → (F2Q m e == inject_Z (m * 2 ^ e))%Q.
Proof.
  intros He. unfold F2Q, ratio. rewrite Z.max_r, Z.max_l by lia. reflexivity.
Qed.

Lemma round_ratio_small n :
  0 < n < 2 ^ 53 →
  round_ratio n 1 = Some (n * 2 ^ (52 - Z.log2 n), Z.log2 n - 52).
Proof.
  intros Hn. pose proof (Z.log2_spec n ltac:(lia)) as [Hlo Hhi].
  pose proof (Z.log2_nonneg n) as H0.
  assert (Z.log2 n < 53) as Hl by (apply Z.log2_lt_pow2; lia).
  set (k := 52 - Z.log2 n).
  assert (2 ^ 52 ≤ n * 2 ^ k < 2 ^ 53) as Hm.
  { replace 52 with (Z.log2 n + k) at 1 by lia.
    replace 53 with (Z.succ (Z.log2 n) + k) by lia.
    rewrite !Z.pow_add_r by lia. pose proof (pow2_pos k ltac:(lia)). nia. }
  assert (num n (Z.log2 n - 52) = n * 2 ^ k) as Hnum.
  { unfold num. do 2 f_equal. lia. }
  assert (den 1 (Z.log2 n - 52) = 1) as Hden.
  { unfold den. by rewrite Z.max_l by lia. }
  unfold round_ratio. rewrite (proj2 (Z.eqb_neq _ _)) by lia.
  rewrite (exponent_unique n 1 (Z.log2 n - 52)); rewrite ?Hnum, ?Hden;
    [|unfold emin; lia..].
  assert (rne_div (n * 2 ^ k) 1 = n * 2 ^ k) as ->.
  { rewrite <- (Z.mul_1_r (n * 2 ^ k)) at 1. by apply rne_div_exact. }
  rewrite (proj2 (Z.eqb_neq _ _)) by lia.
  by rewrite (proj2 (Z.ltb_ge _ _)) by (unfold emax; lia).
Qed.

Lemma odd_of_N q : Z.odd (Z.of_N q) = N.odd q.
Proof. by destruct q as [|[p|p|]]. Qed.

Lemma log2_of_N n : Z.log2 (Z.of_N n) = Z.of_N (N.log2 n).
Proof. by destruct n as [|[p|p|]]. Qed.

(** The rounding of [Number], by shifts and masks, is a division rounded
    to nearest. *)
Lemma to_double_rne n :
  (2 ^ 53 ≤ n)%N →
  Z.of_N (to_double n)
  = rne_div (Z.of_N n) (2 ^ (Z.log2 (Z.of_N n) - 52))
    * 2 ^ (Z.log2 (Z.of_N n) - 52).
Proof.
  intros Hn. unfold to_double, prec.
  assert (n ≠ 0%N) as Hn0 by (intros ->; cbv in Hn; done).
  assert (53 ≤ N.log2 n)%N as Hl by (by apply N.log2_le_pow2; [lia|]).
  rewrite N.size_log2 by done.
  rewrite (proj2 (N.leb_gt _ _)) by lia.
  replace (N.succ (N.log2 n) - 53)%N with (N.log2 n - 52)%N by lia.
  set (sh := (N.log2 n - 52)%N).
  replace (Z.log2 (Z.of_N n) - 52) with (Z.of_N sh)
    by (unfold sh; rewrite N2Z.inj_sub, log2_of_N by lia; done).
  rewrite N.shiftl_mul_pow2, N.shiftr_div_pow2, N.land_ones, N.shiftl_1_l.
  assert (2 ^ sh = 2 * 2 ^ (sh - 1))%N as Hh.
  { rewrite <- N.pow_succ_r'. f_equal. lia. }
  unfold rne_div. rewrite N2Z.inj_mul, N2Z.inj_pow. f_equal.
  rewrite <- (N2Z.inj_pow 2), <- N2Z.inj_div, <- N2Z.inj_mod, odd_of_N.
  set (q := (n / 2 ^ sh)%N). set (r := (n mod 2 ^ sh)%N).
  set (half := (2 ^ (sh - 1))%N) in *.
  destruct (N.odd q), (N.ltb_spec half r), (N.eqb_spec r half),
    (Z.ltb_spec (Z.of_N (2 ^ sh)) (2 * Z.of_N r)),
    (Z.eqb_spec (2 * Z.of_N r) (Z.of_N (2 ^ sh))); simpl; lia.
Qed.

Lemma exponent_large n :
  2 ^ 53 ≤ n → exponent n 1 = Z.log2 n - 52
  ∧ num n (Z.log2 n - 52) = n ∧ den 1 (Z.log2 n - 52) = 2 ^ (Z.log2 n - 52).
Proof.
  intros Hn. pose proof (Z.log2_spec n ltac:(lia)) as [Hlo Hhi].
  assert (53 ≤ Z.log2 n) as Hl by (by apply Z.log2_le_pow2; [lia|]).
  set (sh := Z.log2 n - 52).
  assert (num n sh = n) as Hnum.
  { unfold num. rewrite Z.max_l by lia. lia. }
  assert (den 1 sh = 2 ^ sh) as Hden.
  { unfold den. rewrite Z.max_r by lia. lia. }
  split; [|done]. apply exponent_unique; rewrite ?Hnum, ?Hden;
    [lia|done|unfold emin; lia| |left].
  - replace (Z.succ (Z.log2 n)) with (53 + sh) in Hhi by lia.
    by rewrite Z.pow_add_r in Hhi by lia.
  - replace (Z.log2 n) with (52 + sh) in Hlo at 1 by lia.
    by rewrite Z.pow_add_r in Hlo by lia.
Qed.

(** The size check reads a size as the double the general rounding gives
    it. *)
Theorem to_double_round n m e :
  round_ratio (Z.of_N n) 1 = Some (m, e) →
  (F2Q m e == inject_Z (Z.of_N (to_double n)))%Q.
Proof.
  intros Hr. destruct (decide (n < 2 ^ 53)%N) as [Hn|Hn].
  - rewrite to_double_small by done.
    destruct (decide (n = 0%N)) as [->|Hn0]; [by injection Hr as <- <-|].
    rewrite round_ratio_small in Hr by lia. injection Hr as <- <-.
    pose proof (Z.log2_spec (Z.of_N n) ltac:(lia)) as [Hlo Hhi].
    assert (Z.log2 (Z.of_N n) < 53) by (apply Z.log2_lt_pow2; lia).
    transitivity (F2Q (Z.of_N n) 0); [|by rewrite F2Q_int, Z.mul_1_r].
    rewrite (F2Q_shift (Z.of_N n) 0 (Z.log2 (Z.of_N n) - 52)) by lia.
    by replace (0 - (Z.log2 (Z.of_N n) - 52)) with (52 - Z.log2 (Z.of_N n)) by lia.
  - rewrite to_double_rne by lia.
    destruct (exponent_large (Z.of_N n) ltac:(lia)) as (He & Hnum & Hden).
    pose proof (Z.log2_nonneg (Z.of_N n)).
    assert (53 ≤ Z.log2 (Z.of_N n)) by (apply Z.log2_le_pow2; lia).
    unfold round_ratio in Hr. rewrite (proj2 (Z.eqb_neq _ _)) in Hr by lia.
    rewrite He, Hnum, Hden in Hr. set (sh := Z.log2 (Z.of_N n) - 52) in *.
    destruct (Z.eqb_spec (rne_div (Z.of_N n) (2 ^ sh)) (2 ^ 53)) as [Hc|Hc];
      case_match; simplify_eq; rewrite F2Q_int by lia; [|done].
    rewrite Hc, Z.pow_add_r by lia. f_equiv. lia.
Qed.

(** * The Number value *)

Lemma canonical_zero : canonical 0 emin.
Proof. unfold canonical, emin, emax. lia. Qed.

Lemma F2Q_zero e : (F2Q 0 e == 0)%Q.
Proof. unfold F2Q, ratio, Qeq. simpl. lia. Qed.

(** Zero is the double nearest to zero. *)
Lemma nearest_double_zero : nearest_double 0 0 emin.
Proof.
  split; [apply canonical_zero|]. intros m' e' Hc'.
  assert (0 - F2Q 0 emin == 0)%Q as -> by (rewrite F2Q_zero; ring).
  split; [apply Qabs_nonneg|]. intros Ht. by right.
Qed.

Lemma ratio_1 n : ratio n 1 = inject_Z n.
Proof. done. Qed.

Lemma ratio_zero q : (ratio 0 q == 0)%Q.
Proof. unfold ratio, Qeq. simpl. lia. Qed.

(** The Number value for a non-negative ratio: never NaN; the double
    nearest to the ratio; an infinity only from the threshold on; in both
    cases with the sign it was given. *)
Theorem RoundMVResult_spec neg p q :
  0 ≤ p → 0 < q →
  match RoundMVResult neg p q with
  | js_NaN => False
  | js_Infinity s => s = neg ∧ (overflow_threshold <= ratio p q)%Q
  | js_finite s m e => s = neg ∧ nearest_double (ratio p q) m e
  end.
Proof.
  intros Hp Hq. unfold RoundMVResult.
  destruct (decide (p = 0)) as [->|Hne].
  - change (round_ratio 0 q) with (Some (0, emin)).
    split; [done|]. rewrite ratio_zero. apply nearest_double_zero.
  - pose proof (round_ratio_nearest p q ltac:(lia) Hq) as Hn.
    by destruct (round_ratio p q) as [[m e]|].
Qed.

Lemma RoundMVResult_ok neg p q :
  0 ≤ p → 0 < q → Number_ok (RoundMVResult neg p q).
Proof.
  intros Hp Hq. pose proof (RoundMVResult_spec neg p q Hp Hq) as H.
  destruct (RoundMVResult neg p q); [done..|]. apply H.
Qed.

Lemma isNaN_RoundMVResult neg p q : isNaN (RoundMVResult neg p q) = false.
Proof. unfold RoundMVResult. by destruct (round_ratio p q) as [[m e]|]. Qed.

(** * The product of two integers *)

(** The Number for an integer below the overflow threshold is the double
    nearest to it. *)
Lemma to_double_nearest n m' e' :
  (inject_Z (Z.of_N n) < overflow_threshold)%Q → canonical m' e' →
  (Qabs (inject_Z (Z.of_N n) - inject_Z (Z.of_N (to_double n)))
   <= Qabs (inject_Z (Z.of_N n) - F2Q m' e'))%Q.
Proof.
  intros Hlt Hc'.
  pose proof (RoundMVResult_spec false (Z.of_N n) 1 ltac:(lia) ltac:(lia)) as Hs.
  pose proof (to_double_round n) as Hd. unfold RoundMVResult in Hs.
  destruct (round_ratio (Z.of_N n) 1) as [[m e]|].
  - destruct Hs as (_ & _ & Hn). destruct (Hn m' e' Hc') as [Hle _].
    rewrite ratio_1 in Hle. by rewrite <- (Hd m e eq_refl).
  - destruct Hs as [_ Hge]. rewrite ratio_1 in Hge. lra.
Qed.

(** C20. [a * b] on two integer Numbers is the double nearest to the exact
    product, as long as the product is below [2^1024 - 2^970]: no double
    is nearer to it. *)
Theorem js_mul_nearest a b m' e' :
  (inject_Z (Z.of_N (a * b)) < overflow_threshold)%Q → canonical m' e' →
  (Qabs (inject_Z (Z.of_N (a * b)) - inject_Z (Z.of_N (js_mul a b)))
   <= Qabs (inject_Z (Z.of_N (a * b)) - F2Q m' e'))%Q.
Proof. apply to_double_nearest. Qed.

(** * Sample Numbers *)

Lemma js_mul_nearest_witness :
  (Qabs (inject_Z (Z.of_N (5 * 1024)) - inject_Z (Z.of_N (js_mul 5 1024)))
   <= Qabs (inject_Z (Z.of_N (5 * 1024)) - F2Q (2 ^ 52) (-40)))%Q.
Proof.
  apply (js_mul_nearest 5 1024 (2 ^ 52) (-40)).
  - vm_compute. reflexivity.
  - by apply (bool_decide_unpack (canonical (2 ^ 52) (-40))).
Defined.
