(* ===== verification/ParseFloat.v ===== *)
(** The global function [parseFloat] on strings, as ECMAScript defines it:
    strip leading white space, take the longest prefix that is a
    StrDecimalLiteral, return the Number value of its mathematical value, or
    NaN when there is no such prefix.  The grammar is given as inductive
    predicates, its mathematical value (MV) as inductive relations into the
    rationals, and the scanner as structural functions; the rounding of the
    value to a double is that of [Double].  The theorems relate them. *)
From S2P Require Import Prelude JsString Double.
From Stdlib Require Import ZArith QArith Qpower Qfield Qabs.
From stdpp Require Import strings.

#[local] Open Scope N_scope.

(** What the scanner reads off a literal: its sign, and Infinity or the
    decimal [mantissa * 10 ^ exp10]. *)
Inductive MathValue :=
| mv_Infinity (negative : bool)
| mv_decimal (negative : bool) (mantissa : N) (exp10 : Z).

(** Code units of the characters the grammar names. *)
Definition ch_plus : N := 0x2B.
Definition ch_minus : N := 0x2D.
Definition ch_dot : N := 0x2E.
Definition ch_e : N := 0x65.
Definition ch_E : N := 0x45.

Definition isDecimalDigit (c : N) : bool := (0x30 <=? c) && (c <=? 0x39).
Definition isExponentIndicator (c : N) : bool := (c =? ch_e) || (c =? ch_E).

(** The value of a run of decimal digits, most significant first. *)
Definition digits_value (ds : jsstring) : N :=
  foldl (λ acc d, 10 * acc + (d - 0x30)) 0 ds.

(** [strip_prefix p s] is the rest of [s] after [p], when [s] starts with it. *)
Fixpoint strip_prefix (p s : jsstring) : option jsstring :=
  match p, s with
  | [], _ => Some s
  | a :: p', b :: s' => if a =? b then strip_prefix p' s' else None
  | _ :: _, [] => None
  end.

(** An optional sign: whether it is a minus, and the rest. *)
Definition scan_sign (s : jsstring) : bool * jsstring :=
  match s with
  | c :: s' =>
      if c =? ch_plus then (false, s')
      else if c =? ch_minus then (true, s')
      else (false, s)
  | [] => (false, s)
  end.

(** ExponentPart: an indicator, an optional sign and at least one digit.
    Returns the exponent and the rest, or [None] when there is no exponent
    part here (the scan then stays before the indicator). *)
Definition scan_exponent (s : jsstring) : option (Z * jsstring) :=
  match s with
  | c :: s1 =>
      if isExponentIndicator c then
        let '(neg, s2) := scan_sign s1 in
        match take_while isDecimalDigit s2 with
        | [] => None
        | ds =>
            let e := Z.of_N (digits_value ds) in
            Some (if neg then (- e)%Z else e, drop_while isDecimalDigit s2)
        end
      else None
  | [] => None
  end.

(** The exponent part when there is one, exponent 0 otherwise. *)
Definition scan_opt_exponent (s : jsstring) : Z * jsstring :=
  match scan_exponent s with
  | Some r => r
  | None => (0%Z, s)
  end.

(** A dot and the digits after it, when the scan is at a dot: the digits
    and the rest; otherwise no digits and the input as it is. *)
Definition scan_fraction (s : jsstring) : jsstring * jsstring :=
  match s with
  | c :: s' =>
      if c =? ch_dot
      then (take_while isDecimalDigit s', drop_while isDecimalDigit s')
      else ([], s)
  | [] => ([], s)
  end.

(** The longest StrUnsignedDecimalLiteral at the head of [s]: its mantissa
    and decimal exponent ([None] for Infinity) and the rest of [s].  There
    is none when neither side of the dot has a digit. *)
Definition scan_unsigned (s : jsstring) : option (option (N * Z) * jsstring) :=
  match strip_prefix (lit "Infinity") s with
  | Some rest => Some (None, rest)
  | None =>
      let ip := take_while isDecimalDigit s in
      let '(fp, s3) := scan_fraction (drop_while isDecimalDigit s) in
      match ip ++ fp with
      | [] => None
      | ds =>
          let '(e, rest) := scan_opt_exponent s3 in
          Some (Some (digits_value ds, (e - Z.of_nat (length fp))%Z), rest)
      end
  end.

(** The longest StrDecimalLiteral at the head of [s]: its value and the
    rest of [s]. *)
Definition scan_literal (s : jsstring) : option (MathValue * jsstring) :=
  let '(neg, s1) := scan_sign s in
  match scan_unsigned s1 with
  | Some (None, rest) => Some (mv_Infinity neg, rest)
  | Some (Some (m, e), rest) => Some (mv_decimal neg m e, rest)
  | None => None
  end.

(** The decimal [m * 10 ^ e] as a ratio of two integers. *)
Definition decimal_num (m : N) (e : Z) : Z := (Z.of_N m * 10 ^ Z.max 0 e)%Z.
Definition decimal_den (e : Z) : Z := (10 ^ Z.max 0 (- e))%Z.

(** StringNumericValue of a literal: the Number value of what was read,
    with the sign of the literal, so that [-0] is the negative zero. *)
Definition StringNumericValue (x : MathValue) : JsNumber :=
  match x with
  | mv_Infinity neg => js_Infinity neg
  | mv_decimal neg m e => RoundMVResult neg (decimal_num m e) (decimal_den e)
  end.

(** [parseFloat(string)] on a string argument. *)
Definition parseFloat (s : jsstring) : JsNumber :=
  match scan_literal (trimStart s) with
  | Some (x, _) => StringNumericValue x
  | None => js_NaN
  end.

(** * The grammar of StrDecimalLiteral *)

Definition digits (s : jsstring) : Prop := Forall (λ c, isDecimalDigit c = true) s.
Definition DecimalDigits (s : jsstring) : Prop := s ≠ [] ∧ digits s.
Definition opt (P : jsstring → Prop) (s : jsstring) : Prop := s = [] ∨ P s.

Inductive SignedInteger : jsstring → Prop :=
| SI_plain ds : DecimalDigits ds → SignedInteger ds
| SI_plus ds : DecimalDigits ds → SignedInteger (ch_plus :: ds)
| SI_minus ds : DecimalDigits ds → SignedInteger (ch_minus :: ds).

Inductive ExponentPart : jsstring → Prop :=
| EP c si : isExponentIndicator c = true → SignedInteger si → ExponentPart (c :: si).

Inductive StrUnsignedDecimalLiteral : jsstring → Prop :=
| SUDL_Infinity : StrUnsignedDecimalLiteral (lit "Infinity")
| SUDL_int_dot ip fp ep :
    DecimalDigits ip → digits fp → opt ExponentPart ep →
    StrUnsignedDecimalLiteral (ip ++ ch_dot :: fp ++ ep)
| SUDL_dot fp ep :
    DecimalDigits fp → opt ExponentPart ep →
    StrUnsignedDecimalLiteral (ch_dot :: fp ++ ep)
| SUDL_int ip ep :
    DecimalDigits ip → opt ExponentPart ep →
    StrUnsignedDecimalLiteral (ip ++ ep).

Inductive StrDecimalLiteral : jsstring → Prop :=
| SDL_plain u : StrUnsignedDecimalLiteral u → StrDecimalLiteral u
| SDL_plus u : StrUnsignedDecimalLiteral u → StrDecimalLiteral (ch_plus :: u)
| SDL_minus u : StrUnsignedDecimalLiteral u → StrDecimalLiteral (ch_minus :: u).

(** A prefix of [s] that is a literal. *)
Definition literal_prefix (s p : jsstring) : Prop :=
  p `prefix_of` s ∧ StrDecimalLiteral p.

(** * The mathematical value of a literal *)

(** Rationals are compared by [Qeq]. *)
#[export] Instance Q_equiv : Equiv Q := Qeq.

Definition of_N (n : N) : Q := inject_Z (Z.of_N n).

(** MV of DecimalDigits: the digits read in base ten. *)
Inductive MV_DecimalDigits : jsstring → N → Prop :=
| MV_digit d : isDecimalDigit d = true → MV_DecimalDigits [d] (d - 0x30)
| MV_digits ds n d :
    MV_DecimalDigits ds n → isDecimalDigit d = true →
    MV_DecimalDigits (ds ++ [d]) (10 * n + (d - 0x30)).

Inductive MV_SignedInteger : jsstring → Z → Prop :=
| MV_SI_plain ds n : MV_DecimalDigits ds n → MV_SignedInteger ds (Z.of_N n)
| MV_SI_plus ds n :
    MV_DecimalDigits ds n → MV_SignedInteger (ch_plus :: ds) (Z.of_N n)
| MV_SI_minus ds n :
    MV_DecimalDigits ds n → MV_SignedInteger (ch_minus :: ds) (- Z.of_N n).

Inductive MV_ExponentPart : jsstring → Z → Prop :=
| MV_EP c si e :
    isExponentIndicator c = true → MV_SignedInteger si e →
    MV_ExponentPart (c :: si) e.

(** An optional part that is absent counts for [zero]. *)
Definition MV_opt {A} (MV : jsstring → A → Prop) (zero : A)
    (s : jsstring) (v : A) : Prop :=
  (s = [] ∧ v = zero) ∨ MV s v.

(** MV of StrUnsignedDecimalLiteral, production by production; [None] is
    the value of Infinity.  [n] digits after the dot count for their value
    times [10 ^ -n]. *)
Inductive MV_Unsigned : jsstring → option Q → Prop :=
| MV_Infinity : MV_Unsigned (lit "Infinity") None
| MV_int_dot ip fp ep a b e :
    MV_DecimalDigits ip a → MV_opt MV_DecimalDigits 0 fp b →
    MV_opt MV_ExponentPart 0%Z ep e →
    MV_Unsigned (ip ++ ch_dot :: fp ++ ep)
      (Some ((of_N a + of_N b * 10 ^ (- Z.of_nat (length fp))) * 10 ^ e)%Q)
| MV_dot fp ep b e :
    MV_DecimalDigits fp b → MV_opt MV_ExponentPart 0%Z ep e →
    MV_Unsigned (ch_dot :: fp ++ ep)
      (Some (of_N b * 10 ^ (e - Z.of_nat (length fp)))%Q)
| MV_int ip ep a e :
    MV_DecimalDigits ip a → MV_opt MV_ExponentPart 0%Z ep e →
    MV_Unsigned (ip ++ ep) (Some (of_N a * 10 ^ e)%Q).

(** A literal has a sign and the value of its unsigned part. *)
Inductive MV_Literal : jsstring → bool → option Q → Prop :=
| MV_plain u v : MV_Unsigned u v → MV_Literal u false v
| MV_plus u v : MV_Unsigned u v → MV_Literal (ch_plus :: u) false v
| MV_minus u v : MV_Unsigned u v → MV_Literal (ch_minus :: u) true v.

(** What the scanner returns for an unsigned literal, as a value. *)
Definition unsigned_value (r : option (N * Z)) : option Q :=
  (λ me, of_N me.1 * 10 ^ me.2)%Q <$> r.

(** What was read has the sign [neg] and the magnitude [v]. *)
Definition denotes (x : MathValue) (neg : bool) (v : option Q) : Prop :=
  match x with
  | mv_Infinity n => n = neg ∧ v ≡ None
  | mv_decimal n m e => n = neg ∧ v ≡ unsigned_value (Some (m, e))
  end.

(** [p] is the longest prefix of [s] that is a literal. *)
Definition longest_literal (s p : jsstring) : Prop :=
  literal_prefix s p ∧ ∀ q, literal_prefix s q → (length q ≤ length p)%nat.

(** * The pieces of the scanner *)

Lemma strip_prefix_Some p s r : strip_prefix p s = Some r ↔ s = p ++ r.
Proof.
  revert s. induction p as [|a p IH]; intros s; simpl.
  { split; by intros [= ->]. }
  destruct s as [|b s]; [done|].
  destruct (N.eqb_spec a b) as [->|Hne]; [rewrite IH|]; split; congruence.
Qed.

Lemma strip_prefix_app p r : strip_prefix p (p ++ r) = Some r.
Proof. by apply strip_prefix_Some. Qed.

Lemma digits_take s : digits (take_while isDecimalDigit s).
Proof. apply take_while_Forall. Qed.

Lemma scan_fraction_spec s :
  let '(fp, s3) := scan_fraction s in
  digits fp ∧ ((fp = [] ∧ s3 = s) ∨ s = ch_dot :: fp ++ s3).
Proof.
  unfold scan_fraction. destruct s as [|c s']; [by split; [constructor|left]|].
  destruct (N.eqb_spec c ch_dot) as [->|?]; [|by split; [constructor|left]].
  split; [apply digits_take|right]. by rewrite take_drop_while.
Qed.

(** * The scanner computes the mathematical value *)

#[export] Instance Q_equivalence : Equivalence (≡@{Q}).
Proof. apply Q_Setoid. Qed.

Lemma digits_value_snoc ds d :
  digits_value (ds ++ [d]) = 10 * digits_value ds + (d - 0x30).
Proof. unfold digits_value. by rewrite foldl_app. Qed.

Lemma digits_value_app l k :
  digits_value (l ++ k)
  = digits_value l * 10 ^ N.of_nat (length k) + digits_value k.
Proof.
  induction k as [|d k IH] using rev_ind.
  - rewrite app_nil_r. simpl. unfold digits_value at 3. simpl. lia.
  - rewrite app_assoc, !digits_value_snoc, IH, length_app. simpl.
    rewrite Nat2N.inj_add, N.pow_add_r. simpl. lia.
Qed.

Lemma of_N_shift a b (n : nat) :
  (of_N (a * 10 ^ N.of_nat n + b) == of_N a * 10 ^ Z.of_nat n + of_N b)%Q.
Proof.
  unfold of_N.
  rewrite N2Z.inj_add, N2Z.inj_mul, N2Z.inj_pow, nat_N_Z.
  rewrite inject_Z_plus, inject_Z_mult, Zpower_Qpower by lia. reflexivity.
Qed.

(** Mantissa and exponent of the scanner against the sum of the integer
    part and the fraction. *)
Lemma decimal_split a b (n : nat) e :
  (of_N (a * 10 ^ N.of_nat n + b) * 10 ^ (e - Z.of_nat n)
   == (of_N a + of_N b * 10 ^ (- Z.of_nat n)) * 10 ^ e)%Q.
Proof.
  rewrite of_N_shift. unfold Z.sub.
  rewrite Qpower_plus, Qpower_opp by done.
  field. by apply Qpower_not_0.
Qed.

Lemma MV_DecimalDigits_spec ds n :
  MV_DecimalDigits ds n ↔ DecimalDigits ds ∧ digits_value ds = n.
Proof.
  split.
  - induction 1 as [d Hd|ds n d _ [[Hne Hds] <-] Hd].
    + by repeat constructor.
    + split; [split|apply digits_value_snoc].
      * by destruct ds.
      * apply Forall_app. by repeat constructor.
  - intros [[Hne Hds] <-]. induction ds as [|d ds IH] using rev_ind; [done|].
    apply Forall_app in Hds as [Hds Hd]. rewrite Forall_singleton in Hd.
    destruct ds as [|d' ds];
      [change (MV_DecimalDigits [d] (d - 0x30)); by apply MV_digit|].
    rewrite digits_value_snoc. by apply MV_digits; [apply IH|].
Qed.

Lemma MV_opt_digits fp b :
  MV_opt MV_DecimalDigits 0 fp b ↔ digits fp ∧ digits_value fp = b.
Proof.
  unfold MV_opt. rewrite MV_DecimalDigits_spec. unfold DecimalDigits. split.
  - intros [[-> ->]|[[_ ?] ?]]; [by split; [constructor|]|done].
  - intros [Hd <-]. destruct fp; [by left|by right].
Qed.

(** ** A value is the value of a literal of the grammar *)

Lemma MV_SignedInteger_erase si e : MV_SignedInteger si e → SignedInteger si.
Proof. intros [ds n H|ds n H|ds n H]; constructor; by eapply MV_DecimalDigits_spec. Qed.

Lemma MV_ExponentPart_erase ep e : MV_opt MV_ExponentPart 0%Z ep e → opt ExponentPart ep.
Proof.
  intros [[-> _]|[c si e' Hc Hsi]]; [by left|right].
  constructor; [done|by eapply MV_SignedInteger_erase].
Qed.

Lemma MV_Unsigned_erase u v : MV_Unsigned u v → StrUnsignedDecimalLiteral u.
Proof.
  intros [|ip fp ep a b e Hip Hfp Hep|fp ep b e Hfp Hep|ip ep a e Hip Hep];
    constructor;
    try (by eapply MV_ExponentPart_erase);
    try (by eapply MV_DecimalDigits_spec).
  by eapply MV_opt_digits.
Qed.

Lemma MV_Literal_erase p neg v : MV_Literal p neg v → StrDecimalLiteral p.
Proof. intros [u w H|u w H|u w H]; constructor; by eapply MV_Unsigned_erase. Qed.

(** ** What the scanner returns is the value of what it read *)

Lemma scan_sign_value s :
  ∃ sg, s = sg ++ (scan_sign s).2 ∧
    ((sg = [] ∨ sg = [ch_plus]) ∧ (scan_sign s).1 = false
     ∨ sg = [ch_minus] ∧ (scan_sign s).1 = true).
Proof.
  destruct s as [|c s]; simpl; [by exists []; auto|].
  destruct (N.eqb_spec c ch_plus) as [->|?]; [exists [ch_plus]; auto|].
  destruct (N.eqb_spec c ch_minus) as [->|?]; [exists [ch_minus]; auto|].
  exists []; auto.
Qed.

Lemma scan_exponent_MV s e rest :
  scan_exponent s = Some (e, rest) → ∃ ep, s = ep ++ rest ∧ MV_ExponentPart ep e.
Proof.
  unfold scan_exponent. destruct s as [|c s1]; [done|].
  destruct (isExponentIndicator c) eqn:Hc; [|done].
  destruct (scan_sign_value s1) as (sg & Hs1 & Hsg).
  destruct (scan_sign s1) as [neg s2]; simpl in *.
  pose proof (take_drop_while isDecimalDigit s2) as Hs2.
  pose proof (digits_take s2) as Hd.
  destruct (take_while isDecimalDigit s2) as [|d ds] eqn:Eds; [done|].
  intros [= <- <-].
  assert (MV_DecimalDigits (d :: ds) (digits_value (d :: ds))) as Hmv
    by (by apply MV_DecimalDigits_spec).
  exists (c :: sg ++ d :: ds). split.
  - rewrite Hs1. rewrite <- Hs2 at 1. simpl. by rewrite <- app_assoc.
  - constructor; [done|].
    destruct Hsg as [[[->| ->] ->]|[-> ->]]; by constructor.
Qed.

Lemma scan_opt_exponent_MV s :
  ∃ ep, s = ep ++ (scan_opt_exponent s).2
        ∧ MV_opt MV_ExponentPart 0%Z ep (scan_opt_exponent s).1.
Proof.
  unfold scan_opt_exponent. destruct (scan_exponent s) as [[e rest]|] eqn:E.
  - apply scan_exponent_MV in E as (ep & -> & H). exists ep. by split; [|right].
  - exists []. by split; [|left].
Qed.

Lemma scan_unsigned_MV s r rest :
  scan_unsigned s = Some (r, rest) →
  ∃ u v, s = u ++ rest ∧ MV_Unsigned u v ∧ v ≡ unsigned_value r.
Proof.
  unfold scan_unsigned.
  destruct (strip_prefix (lit "Infinity") s) as [r'|] eqn:Ei.
  { intros [= <- <-]. apply strip_prefix_Some in Ei.
    eexists _, None. split_and!; [done|constructor|done]. }
  pose proof (take_drop_while isDecimalDigit s) as Hs.
  pose proof (digits_take s) as Hip.
  pose proof (scan_fraction_spec (drop_while isDecimalDigit s)) as Hf.
  destruct (scan_fraction (drop_while isDecimalDigit s)) as [fp s3].
  destruct Hf as [Hfp Hf].
  destruct (scan_opt_exponent_MV s3) as (ep & Hs3 & Hep).
  set (ip := take_while isDecimalDigit s) in *.
  destruct (ip ++ fp) as [|d ds] eqn:Eds; [done|].
  assert (ip ++ fp ≠ []) as Hne by (by rewrite Eds).
  rewrite <- Eds. clear d ds Eds.
  destruct (scan_opt_exponent s3) as [e r']. simpl in Hs3, Hep. intros [= <- <-].
  assert (MV_opt MV_DecimalDigits 0 fp (digits_value fp)) as Hfpv
    by (by apply MV_opt_digits).
  destruct Hf as [[-> ->]|Hdot]; [|destruct (decide (ip = [])) as [Hip0|Hip0]].
  - rewrite app_nil_r in *.
    exists (ip ++ ep), (Some (of_N (digits_value ip) * 10 ^ e)%Q). split_and!.
    + by rewrite <- app_assoc, <- Hs3.
    + apply MV_int; [|done]. by apply MV_DecimalDigits_spec.
    + simpl. by rewrite Z.sub_0_r.
  - rewrite Hip0 in *. simpl in *.
    exists (ch_dot :: fp ++ ep), (unsigned_value (Some (digits_value fp, (e - Z.of_nat (length fp))%Z))).
    split_and!; [|apply MV_dot; [by apply MV_DecimalDigits_spec|done]|done].
    rewrite <- Hs, Hdot, Hs3. simpl. by rewrite <- app_assoc.
  - eexists (ip ++ ch_dot :: fp ++ ep), _. split_and!.
    + rewrite <- Hs at 1. rewrite Hdot, Hs3. by simplify_list_eq.
    + apply MV_int_dot; [by apply MV_DecimalDigits_spec|done..].
    + simpl. constructor. rewrite digits_value_app. symmetry. apply decimal_split.
Qed.

Lemma scan_literal_MV s x rest :
  scan_literal s = Some (x, rest) →
  ∃ p neg v, s = p ++ rest ∧ MV_Literal p neg v ∧ denotes x neg v.
Proof.
  unfold scan_literal.
  destruct (scan_sign_value s) as (sg & Hs & Hsg).
  destruct (scan_sign s) as [neg s1]; simpl in *.
  destruct (scan_unsigned s1) as [[r r']|] eqn:Eu; [|done].
  apply scan_unsigned_MV in Eu as (u & v & -> & Hu & Hv).
  intros Hx. exists (sg ++ u), neg, v.
  assert (r' = rest ∧ denotes x neg v) as [-> Hd].
  { destruct r as [[m e]|]; simplify_eq; by repeat split. }
  split_and!; [by rewrite Hs, app_assoc| |done].
  destruct Hsg as [[[->| ->] ->]|[-> ->]]; by constructor.
Qed.

(** ** The scanner reads a literal of the grammar *)

Lemma scan_opt_exponent_sound s :
  ∃ ep, s = ep ++ (scan_opt_exponent s).2 ∧ opt ExponentPart ep.
Proof.
  destruct (scan_opt_exponent_MV s) as (ep & Hs & H).
  exists ep. split; [done|by eapply MV_ExponentPart_erase].
Qed.

Lemma scan_literal_sound s x rest :
  scan_literal s = Some (x, rest) → ∃ p, s = p ++ rest ∧ StrDecimalLiteral p.
Proof.
  intros (p & neg & v & Hs & H & _)%scan_literal_MV.
  exists p. split; [done|by eapply MV_Literal_erase].
Qed.

(** * The scanner reads the longest literal *)

Lemma indicator_not_digit c : isExponentIndicator c = true → isDecimalDigit c = false.
Proof.
  unfold isExponentIndicator, isDecimalDigit, ch_e, ch_E.
  intros [->%N.eqb_eq| ->%N.eqb_eq]%orb_true_iff; reflexivity.
Qed.

Lemma indicator_not_dot c : isExponentIndicator c = true → c ≠ ch_dot.
Proof.
  unfold isExponentIndicator, ch_e, ch_E.
  by intros [->%N.eqb_eq| ->%N.eqb_eq]%orb_true_iff.
Qed.

Lemma digit_not_sign c :
  isDecimalDigit c = true → c ≠ ch_plus ∧ c ≠ ch_minus ∧ c ≠ ch_dot ∧ c ≠ 0x49.
Proof.
  unfold isDecimalDigit, ch_plus, ch_minus, ch_dot.
  intros [?%N.leb_le ?%N.leb_le]%andb_true_iff. lia.
Qed.

Lemma scan_opt_exponent_length s : (length (scan_opt_exponent s).2 ≤ length s)%nat.
Proof.
  destruct (scan_opt_exponent_sound s) as (ep & Hs & _).
  rewrite Hs at 2. rewrite length_app. lia.
Qed.

Lemma scan_sign_digit d s :
  isDecimalDigit d = true → scan_sign (d :: s) = (false, d :: s).
Proof.
  intros (?&?&_)%digit_not_sign. unfold scan_sign.
  by rewrite !(proj2 (N.eqb_neq _ _)).
Qed.

Lemma scan_digits_app ds r :
  DecimalDigits ds →
  ∃ d ds', take_while isDecimalDigit (ds ++ r) = d :: ds' ∧
    (length (drop_while isDecimalDigit (ds ++ r)) ≤ length r)%nat.
Proof.
  intros [Hne Hd]. rewrite take_while_app, drop_while_app by done.
  destruct ds as [|d ds]; [done|]. eexists _, _. split; [done|].
  apply drop_while_length.
Qed.

Lemma scan_exponent_complete ep r :
  ExponentPart ep →
  ∃ e rest, scan_exponent (ep ++ r) = Some (e, rest) ∧ (length rest ≤ length r)%nat.
Proof.
  intros [c si Hc Hsi]. simpl. rewrite Hc.
  assert (∃ neg ds, DecimalDigits ds ∧ scan_sign (si ++ r) = (neg, ds ++ r))
    as (neg & ds & Hds & ->).
  { destruct Hsi as [ds Hds|ds Hds|ds Hds]; [|by exists false, ds|by exists true, ds].
    exists false, ds. split; [done|]. destruct Hds as [Hne Hd].
    destruct Hd as [|d ds Hd _]; [done|]. by apply scan_sign_digit. }
  destruct (scan_digits_app ds r Hds) as (d & ds' & -> & Hlen). eauto.
Qed.

Lemma exp_stage ep r :
  opt ExponentPart ep →
  (length (scan_opt_exponent (drop_while isDecimalDigit (ep ++ r))).2 ≤ length r)%nat.
Proof.
  intros [->|Hep].
  - etrans; [apply scan_opt_exponent_length|apply drop_while_length].
  - destruct (scan_exponent_complete _ r Hep) as (e & rest & He & Hlen).
    destruct Hep as [c si Hc Hsi].
    rewrite <- app_comm_cons, drop_while_stop by (by apply indicator_not_digit).
    unfold scan_opt_exponent. by rewrite app_comm_cons, He.
Qed.

Lemma strip_Infinity_None c s :
  c ≠ 0x49 → strip_prefix (lit "Infinity") (c :: s) = None.
Proof.
  intros Hc. change (lit "Infinity") with (0x49 :: lit "nfinity").
  cbn [strip_prefix]. by destruct (N.eqb_spec 0x49 c).
Qed.

Lemma scan_unsigned_mantissa s :
  strip_prefix (lit "Infinity") s = None →
  take_while isDecimalDigit s ++ (scan_fraction (drop_while isDecimalDigit s)).1 ≠ [] →
  ∃ v, scan_unsigned s
       = Some (v, (scan_opt_exponent (scan_fraction (drop_while isDecimalDigit s)).2).2).
Proof.
  intros Hi Hne. unfold scan_unsigned. rewrite Hi.
  destruct (scan_fraction (drop_while isDecimalDigit s)) as [fp s3]. simpl in *.
  destruct (take_while isDecimalDigit s ++ fp); [done|].
  destruct (scan_opt_exponent s3). eauto.
Qed.

Lemma scan_fraction_dot s :
  scan_fraction (ch_dot :: s)
  = (take_while isDecimalDigit s, drop_while isDecimalDigit s).
Proof. done. Qed.

Lemma scan_fraction_other c s :
  c ≠ ch_dot → scan_fraction (c :: s) = ([], c :: s).
Proof. intros Hc. unfold scan_fraction. by destruct (N.eqb_spec c ch_dot). Qed.

Lemma scan_fraction_length s : (length (scan_fraction s).2 ≤ length s)%nat.
Proof.
  pose proof (scan_fraction_spec s) as H.
  destruct (scan_fraction s) as [fp s3]. destruct H as [_ [[_ ->]| ->]]; simpl.
  - done.
  - rewrite length_app. lia.
Qed.

(** After an integer part, the fraction and exponent stages leave no more
    than what follows the literal. *)
Lemma tail_stage ep r :
  opt ExponentPart ep →
  (length (scan_opt_exponent
     (scan_fraction (drop_while isDecimalDigit (ep ++ r))).2).2 ≤ length r)%nat.
Proof.
  intros [->|Hep].
  - etrans; [apply scan_opt_exponent_length|].
    etrans; [apply scan_fraction_length|apply drop_while_length].
  - pose proof (exp_stage ep r (or_intror Hep)) as H.
    destruct Hep as [c si Hc Hsi].
    rewrite <- app_comm_cons, drop_while_stop in * by (by apply indicator_not_digit).
    by rewrite scan_fraction_other by (by apply indicator_not_dot).
Qed.

Lemma strip_Infinity_digits ip s :
  DecimalDigits ip → strip_prefix (lit "Infinity") (ip ++ s) = None.
Proof.
  intros [Hne Hip]. destruct Hip as [|i ip Hi _]; [done|].
  apply strip_Infinity_None. by apply digit_not_sign in Hi as (_&_&_&?).
Qed.

Lemma app_nonempty {A} (l k : list A) : l ≠ [] → l ++ k ≠ [].
Proof. by destruct l. Qed.

Lemma scan_unsigned_longest u r :
  StrUnsignedDecimalLiteral u →
  ∃ v rest, scan_unsigned (u ++ r) = Some (v, rest) ∧ (length rest ≤ length r)%nat.
Proof.
  intros [|ip fp ep Hip Hfp Hep|fp ep Hfp Hep|ip ep Hip Hep].
  - exists None, r. unfold scan_unsigned. by rewrite strip_prefix_app.
  - replace ((ip ++ ch_dot :: fp ++ ep) ++ r)
      with (ip ++ ch_dot :: fp ++ ep ++ r) by (by simplify_list_eq).
    destruct (scan_unique isDecimalDigit ip ch_dot (fp ++ ep ++ r))
      as [TW DW]; [apply Hip|done|].
    destruct (scan_unsigned_mantissa (ip ++ ch_dot :: fp ++ ep ++ r)) as [v ->].
    { by apply strip_Infinity_digits. }
    { rewrite TW. apply app_nonempty, Hip. }
    eexists _, _. split; [done|].
    rewrite DW, scan_fraction_dot. cbn [snd].
    rewrite drop_while_app by done. by apply exp_stage.
  - replace ((ch_dot :: fp ++ ep) ++ r)
      with (ch_dot :: fp ++ ep ++ r) by (by simplify_list_eq).
    assert (drop_while isDecimalDigit (ch_dot :: fp ++ ep ++ r)
            = ch_dot :: fp ++ ep ++ r) as DW by done.
    destruct (scan_unsigned_mantissa (ch_dot :: fp ++ ep ++ r)) as [v ->].
    { by apply strip_Infinity_None. }
    { rewrite DW, scan_fraction_dot, take_while_stop by done. cbn [fst app].
      rewrite take_while_app by apply Hfp.
      apply app_nonempty, Hfp. }
    eexists _, _. split; [done|].
    rewrite DW, scan_fraction_dot. cbn [snd].
    rewrite drop_while_app by apply Hfp. by apply exp_stage.
  - rewrite <- app_assoc.
    destruct (scan_unsigned_mantissa (ip ++ ep ++ r)) as [v ->].
    { by apply strip_Infinity_digits. }
    { rewrite take_while_app by apply Hip. rewrite <- app_assoc.
      apply app_nonempty, Hip. }
    eexists _, _. split; [done|].
    rewrite drop_while_app by apply Hip. by apply tail_stage.
Qed.

Lemma scan_literal_longest p r :
  StrDecimalLiteral p →
  ∃ x rest, scan_literal (p ++ r) = Some (x, rest) ∧ (length rest ≤ length r)%nat.
Proof.
  intros Hp. unfold scan_literal.
  assert (∃ neg u, StrUnsignedDecimalLiteral u ∧ scan_sign (p ++ r) = (neg, u ++ r))
    as (neg & u & Hu & ->).
  { destruct Hp as [u Hu|u Hu|u Hu]; [|by exists false, u|by exists true, u].
    exists false, u. split; [done|].
    destruct Hu as [|ip fp ep [Hne Hip] _ _|fp ep _ _|ip ep [Hne Hip] _]; try done.
    all: destruct Hip as [|i ip Hi _]; [done|]; by apply scan_sign_digit. }
  destruct (scan_unsigned_longest u r Hu) as (v & rest & -> & Hlen).
  destruct v as [[m e]|]; eauto.
Qed.

(** ** A literal scanned alone is read to its end, with its value *)

Lemma scan_exponent_exact ep e :
  MV_ExponentPart ep e → scan_exponent ep = Some (e, []).
Proof.
  intros [c si e' Hc Hsi]. simpl. rewrite Hc.
  assert (∃ neg ds, scan_sign si = (neg, ds) ∧ DecimalDigits ds
            ∧ e' = let n := Z.of_N (digits_value ds) in if neg then (- n)%Z else n)
    as (neg & ds & -> & [Hne Hds] & ->).
  { destruct Hsi as [ds n [Hds <-]%MV_DecimalDigits_spec
                    |ds n [Hds <-]%MV_DecimalDigits_spec
                    |ds n [Hds <-]%MV_DecimalDigits_spec];
      [|by exists false, ds|by exists true, ds].
    exists false, ds. split; [|done]. destruct Hds as [Hne Hds].
    destruct Hds as [|d ds Hd _]; [done|]. by apply scan_sign_digit. }
  rewrite take_while_all, drop_while_all by done. by destruct ds.
Qed.

Lemma scan_opt_exponent_exact ep e :
  MV_opt MV_ExponentPart 0%Z ep e → scan_opt_exponent ep = (e, []).
Proof.
  unfold scan_opt_exponent. intros [[-> ->]|H]; [done|].
  by rewrite (scan_exponent_exact _ _ H).
Qed.

(** Digits end where an exponent part starts. *)
Lemma digits_before_exponent fp ep e :
  digits fp → MV_opt MV_ExponentPart 0%Z ep e →
  take_while isDecimalDigit (fp ++ ep) = fp
  ∧ drop_while isDecimalDigit (fp ++ ep) = ep.
Proof.
  intros Hfp [[-> _]|[c si e' Hc _]].
  - rewrite app_nil_r. by rewrite take_while_all, drop_while_all.
  - apply scan_unique; [done|by apply indicator_not_digit].
Qed.

Lemma scan_fraction_exponent ep e :
  MV_opt MV_ExponentPart 0%Z ep e → scan_fraction ep = ([], ep).
Proof.
  intros [[-> _]|[c si e' Hc _]]; [done|].
  by apply scan_fraction_other, indicator_not_dot.
Qed.

Lemma scan_unsigned_exact u v :
  MV_Unsigned u v → ∃ r, scan_unsigned u = Some (r, []) ∧ v ≡ unsigned_value r.
Proof.
  intros [|ip fp ep a b e [Hip <-]%MV_DecimalDigits_spec [Hfp <-]%MV_opt_digits Hep
          |fp ep b e [Hfp <-]%MV_DecimalDigits_spec Hep
          |ip ep a e [Hip <-]%MV_DecimalDigits_spec Hep];
    unfold scan_unsigned.
  - by exists None.
  - rewrite strip_Infinity_digits by done.
    destruct (scan_unique isDecimalDigit ip ch_dot (fp ++ ep)) as [-> ->];
      [apply Hip|done|].
    rewrite scan_fraction_dot.
    destruct (digits_before_exponent fp ep e) as [-> ->]; [done..|].
    rewrite (scan_opt_exponent_exact _ _ Hep).
    destruct (ip ++ fp) eqn:E; [by destruct Hip as [? _], ip|]. rewrite <- E.
    eexists. split; [done|]. simpl. constructor.
    rewrite digits_value_app. symmetry. apply decimal_split.
  - rewrite strip_Infinity_None by done.
    rewrite take_while_stop, drop_while_stop, scan_fraction_dot by done.
    destruct (digits_before_exponent fp ep e) as [-> ->]; [apply Hfp|done|].
    rewrite (scan_opt_exponent_exact _ _ Hep). simpl.
    destruct fp; [by destruct Hfp|]. by eexists.
  - rewrite strip_Infinity_digits by done.
    destruct (digits_before_exponent ip ep e) as [-> ->]; [apply Hip|done|].
    rewrite (scan_fraction_exponent _ _ Hep), (scan_opt_exponent_exact _ _ Hep).
    rewrite app_nil_r. destruct ip; [by destruct Hip|].
    eexists. split; [done|]. simpl. by rewrite Z.sub_0_r.
Qed.

Lemma scan_sign_unsigned u v : MV_Unsigned u v → scan_sign u = (false, u).
Proof.
  intros [|ip fp ep a b e [[Hne Hip] _]%MV_DecimalDigits_spec _ _|fp ep b e _ _
          |ip ep a e [[Hne Hip] _]%MV_DecimalDigits_spec _]; try done.
  all: destruct Hip as [|i ip Hi _]; [done|]; by apply scan_sign_digit.
Qed.

Lemma scan_literal_exact p neg v :
  MV_Literal p neg v → ∃ x, scan_literal p = Some (x, []) ∧ denotes x neg v.
Proof.
  intros Hp. unfold scan_literal.
  assert (∃ u, MV_Unsigned u v ∧ scan_sign p = (neg, u)) as (u & Hu & ->).
  { destruct Hp as [u v Hu|u v Hu|u v Hu]; exists u; (split; [done|]);
      [by eapply scan_sign_unsigned|done..]. }
  destruct (scan_unsigned_exact u v Hu) as (r & -> & Hv).
  destruct r as [[m e]|]; by eexists.
Qed.

#[export] Instance denotes_proper x neg : Proper ((≡) ==> iff) (denotes x neg).
Proof. intros v v' Hv. destruct x; simpl; by rewrite Hv. Qed.

Lemma denotes_functional x neg v neg' v' :
  denotes x neg v → denotes x neg' v' → neg = neg' ∧ v ≡ v'.
Proof.
  destruct x; simpl; intros [<- ->] [<- ->]; done.
Qed.

(** A literal has one sign and one value. *)
Lemma MV_Literal_functional p neg v neg' v' :
  MV_Literal p neg v → MV_Literal p neg' v' → neg = neg' ∧ v ≡ v'.
Proof.
  intros (x & E & H)%scan_literal_exact (x' & E' & H')%scan_literal_exact.
  rewrite E in E'. injection E' as <-. by eapply denotes_functional.
Qed.

(** Every literal of the grammar has a value. *)
Lemma MV_Literal_total p :
  StrDecimalLiteral p → ∃ neg v, MV_Literal p neg v.
Proof.
  intros Hp. destruct (scan_literal_longest p [] Hp) as (x & rest & E & Hlen).
  destruct (scan_literal_MV _ _ _ E) as (p' & neg & v & Hpp & Hmv & _).
  destruct rest; [|simpl in Hlen; lia]. rewrite !app_nil_r in Hpp. subst. eauto.
Qed.

(** * The scanner against the grammar *)

Lemma scan_literal_is_Some s :
  is_Some (scan_literal s) ↔ ∃ q, literal_prefix s q.
Proof.
  split.
  - intros [[x rest] E]. destruct (scan_literal_sound _ _ _ E) as (p & Hs & Hp).
    exists p. split; [by exists rest|done].
  - intros (q & [r Hq] & Hlit).
    destruct (scan_literal_longest q r Hlit) as (x & rest & E & _).
    rewrite Hq. eauto.
Qed.

(** No literal at the head of the text is longer than what the scanner
    read. *)
Lemma scan_literal_covers s x p rest q :
  scan_literal s = Some (x, rest) → s = p ++ rest → literal_prefix s q →
  (length q ≤ length p)%nat.
Proof.
  intros E Hs [[r Hq] Hlit].
  destruct (scan_literal_longest q r Hlit) as (x' & rest' & E' & Hlen).
  rewrite <- Hq, E in E'. injection E' as <- <-.
  apply (f_equal length) in Hs, Hq. rewrite length_app in Hs, Hq. lia.
Qed.

(** * The alphabet of the grammar *)

Lemma digits_ascii ds : digits ds → Forall is_ascii ds.
Proof.
  intros H. eapply Forall_impl; [done|].
  intros c [_ Hc%N.leb_le]%andb_true_iff. unfold is_ascii. lia.
Qed.

Lemma SignedInteger_ascii s : SignedInteger s → Forall is_ascii s.
Proof.
  destruct 1 as [ds [_ H]|ds [_ H]|ds [_ H]]; repeat constructor;
    try (by apply digits_ascii); by vm_compute.
Qed.

Lemma ExponentPart_ascii s : opt ExponentPart s → Forall is_ascii s.
Proof.
  intros [->|[c si Hc Hsi]]; [constructor|].
  constructor; [|by apply SignedInteger_ascii].
  apply orb_true_iff in Hc as [->%N.eqb_eq| ->%N.eqb_eq]; by vm_compute.
Qed.

Lemma StrUnsignedDecimalLiteral_ascii s :
  StrUnsignedDecimalLiteral s → Forall is_ascii s.
Proof.
  destruct 1 as [|ip fp ep [_ Hi] Hf He|fp ep [_ Hf] He|ip ep [_ Hi] He];
    rewrite ?Forall_app, ?Forall_cons, ?Forall_app;
    auto 10 using digits_ascii, ExponentPart_ascii.
  - by repeat (constructor; [by vm_compute|]).
  - split_and!; auto using digits_ascii, ExponentPart_ascii. by vm_compute.
  - split_and!; auto using digits_ascii, ExponentPart_ascii. by vm_compute.
Qed.

(** A literal is written in ASCII. *)
Lemma StrDecimalLiteral_ascii s : StrDecimalLiteral s → Forall is_ascii s.
Proof.
  destruct 1 as [u Hu|u Hu|u Hu]; repeat constructor;
    try (by apply StrUnsignedDecimalLiteral_ascii); by vm_compute.
Qed.

(** * The Number value of what was read *)

Lemma decimal_ratio m e :
  (ratio (decimal_num m e) (decimal_den e) == of_N m * 10 ^ e)%Q.
Proof. by apply (ratio_power 10). Qed.

Lemma decimal_num_nonneg m e : (0 ≤ decimal_num m e)%Z.
Proof. unfold decimal_num. apply Z.mul_nonneg_nonneg; [lia|]. apply Z.pow_nonneg. lia. Qed.

Lemma decimal_den_pos e : (0 < decimal_den e)%Z.
Proof. unfold decimal_den. apply Z.pow_pos_nonneg; lia. Qed.

Lemma isNaN_StringNumericValue x : isNaN (StringNumericValue x) = false.
Proof. destruct x; [done|apply isNaN_RoundMVResult]. Qed.

(** The Number value of a literal has its sign; it is an infinity for
    Infinity and for a magnitude from the overflow threshold on, and
    otherwise the double nearest to the magnitude. *)
Lemma StringNumericValue_spec x neg v :
  denotes x neg v →
  match StringNumericValue x with
  | js_NaN => False
  | js_Infinity s =>
      s = neg ∧ match v with Some r => (overflow_threshold <= r)%Q | None => True end
  | js_finite s m e =>
      s = neg ∧ match v with Some r => nearest_double r m e | None => False end
  end.
Proof.
  destruct x as [n|n m e]; simpl; intros [-> Hv].
  - by inversion Hv.
  - inversion Hv as [r r' Hr|]; subst.
    pose proof (RoundMVResult_spec neg _ _ (decimal_num_nonneg m e)
                  (decimal_den_pos e)) as Hs.
    destruct (RoundMVResult neg (decimal_num m e) (decimal_den e)); [done|..];
      by rewrite decimal_ratio, <- Hr in Hs.
Qed.

(** Every Number [parseFloat] returns is NaN, an infinity or a double in
    canonical form. *)
Lemma parseFloat_ok s : Number_ok (parseFloat s).
Proof.
  unfold parseFloat. destruct (scan_literal (trimStart s)) as [[[n|n m e] rest]|];
    [done| |done].
  apply RoundMVResult_ok; [apply decimal_num_nonneg|apply decimal_den_pos].
Qed.

Lemma isNaN_parseFloat s :
  isNaN (parseFloat s) = false ↔ is_Some (scan_literal (trimStart s)).
Proof.
  unfold parseFloat.
  destruct (scan_literal (trimStart s)) as [[x rest]|] eqn:E.
  - rewrite isNaN_StringNumericValue. by split; eauto.
  - split; [done|]. by intros [? ?].
Qed.

Lemma scan_literal_longest_literal s x rest :
  scan_literal s = Some (x, rest) →
  ∃ p neg v, longest_literal s p ∧ MV_Literal p neg v ∧ denotes x neg v.
Proof.
  intros E. destruct (scan_literal_MV _ _ _ E) as (p & neg & v & Hs & Hp & Hx).
  exists p, neg, v. split_and!; [split| |]; try done.
  - split; [by exists rest|by eapply MV_Literal_erase].
  - intros q Hq. by eapply scan_literal_covers.
Qed.

(** C16. The scanner agrees with the grammar and its mathematical value: when
    it succeeds it has split the text into the longest prefix that is a
    StrDecimalLiteral and a rest, that literal has a value, and the Number
    returned has the sign and the magnitude of every value the grammar
    gives the literal; it finds nothing only when no prefix is a literal. *)
Theorem scan_literal_spec s :
  match scan_literal s with
  | Some (x, rest) =>
      ∃ p, s = p ++ rest ∧ StrDecimalLiteral p
           ∧ (∀ q, literal_prefix s q → (length q ≤ length p)%nat)
           ∧ (∃ neg v, MV_Literal p neg v)
           ∧ (∀ neg v, MV_Literal p neg v → denotes x neg v)
  | None => ∀ q, ¬ literal_prefix s q
  end.
Proof.
  destruct (scan_literal s) as [[x rest]|] eqn:E.
  - destruct (scan_literal_MV _ _ _ E) as (p & neg & v & Hs & Hp & Hx).
    exists p. split_and!; [done|by eapply MV_Literal_erase| |by eauto|].
    + intros q Hq. by eapply scan_literal_covers.
    + intros neg' v' H'.
      destruct (MV_Literal_functional _ _ _ _ _ Hp H') as [<- <-]. done.
  - intros q Hq. assert (is_Some (scan_literal s)) as [? ?]; [|congruence].
    apply scan_literal_is_Some. eauto.
Qed.

(** [parseFloat] answers NaN exactly when, white space skipped, no prefix of
    the text is a decimal literal. *)
Theorem parseFloat_NaN s :
  isNaN (parseFloat s) = true ↔ ∀ q, ¬ literal_prefix (trimStart s) q.
Proof.
  rewrite <- not_false_iff_true, isNaN_parseFloat, scan_literal_is_Some.
  split; [intros H q Hq; apply H; eauto|intros H [q Hq]; by apply (H q)].
Qed.

(** C17. What [parseFloat] returns, case by case.  NaN: white space skipped,
    no prefix of the text is a decimal literal.  Otherwise the sign is that
    of the longest such prefix.  An infinity: that literal is Infinity, or
    its value is at least [2^1024 - 2^970].  A finite Number: the double
    nearest to the value of the literal, the one with the even significand
    when two doubles are as near. *)
Theorem parseFloat_spec s :
  match parseFloat s with
  | js_NaN => ∀ q, ¬ literal_prefix (trimStart s) q
  | js_Infinity neg =>
      ∃ p v, longest_literal (trimStart s) p ∧ MV_Literal p neg v
        ∧ match v with
          | Some r => (overflow_threshold <= r)%Q
          | None => True
          end
  | js_finite neg m e =>
      ∃ p r, longest_literal (trimStart s) p ∧ MV_Literal p neg (Some r)
        ∧ nearest_double r m e
  end.
Proof.
  unfold parseFloat.
  destruct (scan_literal (trimStart s)) as [[x rest]|] eqn:E.
  - destruct (scan_literal_longest_literal _ _ _ E) as (p & neg & v & Hp & Hv & Hx).
    pose proof (StringNumericValue_spec x neg v Hx) as Hs.
    destruct (StringNumericValue x) as [|n|n m e]; [done|..];
      destruct Hs as [-> Hs]; [by exists p, v|].
    destruct v as [r|]; [|done]. by exists p, r.
  - intros q Hq. assert (is_Some (scan_literal (trimStart s))) as [? ?];
      [|congruence].
    apply scan_literal_is_Some. eauto.
Qed.

(** * Examples *)

(** [12.5] is a double: [25 * 2^-1]. *)
Example parseFloat_12_50 :
  parseFloat (lit "12.50") = js_finite false (25 * 2 ^ 48) (-49).
Proof. vm_compute. reflexivity. Qed.

Example scan_12_50_value :
  ∃ x, scan_literal (lit "12.50") = Some (x, [])
       ∧ denotes x false (Some (25 # 2)%Q).
Proof. eexists. split; [reflexivity|]. split; [done|]. constructor. reflexivity. Qed.

Example scan_exp_value :
  ∃ x, scan_literal (lit "-1.5e+3x") = Some (x, lit "x")
       ∧ denotes x true (Some 1500%Q).
Proof. eexists. split; [reflexivity|]. split; [done|]. constructor. reflexivity. Qed.

Example parseFloat_abc : parseFloat (lit "abc") = js_NaN.
Proof. vm_compute. reflexivity. Qed.

Example parseFloat_12abc :
  parseFloat (lit "  12abc") = js_finite false (3 * 2 ^ 51) (-49).
Proof. vm_compute. reflexivity. Qed.

Example parseFloat_exp :
  parseFloat (lit "-1.5e+3x") = js_finite true (375 * 2 ^ 44) (-42).
Proof. vm_compute. reflexivity. Qed.

Example parseFloat_exp_stop :
  parseFloat (lit "7e+") = js_finite false (7 * 2 ^ 50) (-50).
Proof. vm_compute. reflexivity. Qed.

Example parseFloat_dot : parseFloat (lit ".") = js_NaN.
Proof. vm_compute. reflexivity. Qed.

Example parseFloat_inf : parseFloat (lit "-Infinityx") = js_Infinity true.
Proof. vm_compute. reflexivity. Qed.

Example parseFloat_blank : parseFloat (lit "   ") = js_NaN.
Proof. vm_compute. reflexivity. Qed.

(** A tenth is not a double: the Number is the double next to it. *)
Example parseFloat_tenth :
  parseFloat (lit "0.1") = js_finite false 7205759403792794 (-56).
Proof. vm_compute. reflexivity. Qed.

(** A literal beyond the doubles is an infinity, one below them a zero,
    and the zero keeps the sign of the literal. *)
Example parseFloat_overflow : parseFloat (lit "1e999") = js_Infinity false.
Proof. vm_compute. reflexivity. Qed.

Example parseFloat_underflow : parseFloat (lit "1e-400") = js_finite false 0 emin.
Proof. vm_compute. reflexivity. Qed.

Example parseFloat_minus_zero : parseFloat (lit "-0") = js_finite true 0 emin.
Proof. vm_compute. reflexivity. Qed.

(** The least double, and a decimal that rounds to it. *)
Example parseFloat_least : parseFloat (lit "5e-324") = js_finite false 1 emin.
Proof. vm_compute. reflexivity. Qed.

Example parseFloat_to_least : parseFloat (lit "3e-324") = js_finite false 1 emin.
Proof. vm_compute. reflexivity. Qed.
