(* ===== verification/Zod.v ===== *)
(** The part of the zod validation library that the form's schema uses:
    schemas as parse functions that return a status with a value and push
    issues on the parse context, the combinators [instanceof], [refine],
    [nullable], the string schema with its [trim] and [min] checks, the
    merging of an object's fields, [safeParse] and [flatten].  Status and
    issues are kept apart, as in the library, and the class [SchemaOk]
    states what every schema built here guarantees about them. *)
From S2P Require Import Prelude JsString.
From stdpp Require Import strings gmap.

(** A cell that holds [null], [undefined] or a reference to an instance of
    the class [C]. *)
Inductive JsRef (C : Type) :=
| js_null
| js_undefined
| js_object (o : C).
Arguments js_null {C}.
Arguments js_undefined {C}.
Arguments js_object {C} o.

#[export] Instance JsRef_eq_dec {C} `{EqDecision C} : EqDecision (JsRef C).
Proof. solve_decision. Defined.

(** Truthiness of such a cell: [null] and [undefined] are falsy. *)
Definition truthy {C} (v : JsRef C) : bool :=
  match v with js_object _ => true | _ => false end.

(** The issue codes the schema can raise. *)
Inductive ZodIssueCode := custom | too_small | invalid_type.

(** An issue: its code, the path of the value it is about, its message. *)
Record ZodIssue := makeIssue {
  code : ZodIssueCode;
  path : list string;
  message : string;
}.

#[export] Instance ZodIssueCode_eq_dec : EqDecision ZodIssueCode.
Proof. solve_decision. Defined.

#[export] Instance ZodIssue_eq_dec : EqDecision ZodIssue.
Proof. solve_decision. Defined.

(** The three shapes a synchronous parse returns. *)
Inductive SyncParseReturnType (O : Type) :=
| OK (value : O)
| DIRTY (value : O)
| INVALID.
Arguments OK {O} value.
Arguments DIRTY {O} value.
Arguments INVALID {O}.

(** A parse returns its status and value and the issues it pushed on the
    context, oldest first. *)
Definition Parse (O : Type) : Type := SyncParseReturnType O * list ZodIssue.

(** A schema that reads an [I] at a path and outputs an [O]. *)
Definition ZodType (I O : Type) : Type := I → list string → Parse O.

Definition isValid {O} (r : SyncParseReturnType O) : bool :=
  match r with OK _ => true | _ => false end.

Definition isAborted {O} (r : SyncParseReturnType O) : bool :=
  match r with INVALID => true | _ => false end.

(** [status.dirty()]: a valid status becomes dirty, an aborted one stays. *)
Definition dirty {O} (r : SyncParseReturnType O) : SyncParseReturnType O :=
  match r with OK v | DIRTY v => DIRTY v | INVALID => INVALID end.

(** What a refinement reports when it rejects: the issue's message and
    whether it aborts the parse. *)
Record RefinementIssue := { ri_message : string; ri_fatal : bool }.

(** [z.instanceof(C, { message })]: a value that is no instance of [C]
    raises a fatal custom issue. *)
Definition instanceof {C} (msg : string) : ZodType (JsRef C) C :=
  λ data p,
    match data with
    | js_object o => (OK o, [])
    | _ => (INVALID, [makeIssue custom p msg])
    end.

(** A schema followed by a refinement of its output: nothing runs after an
    aborted parse; a rejected value adds one issue, which aborts when fatal
    and makes the result dirty otherwise. *)
Definition refinement {I O} (check : O → option RefinementIssue)
    (schema : ZodType I O) : ZodType I O :=
  λ data p,
    match schema data p with
    | (INVALID, iss) => (INVALID, iss)
    | ((OK v | DIRTY v) as inner, iss) =>
        match check v with
        | None => (inner, iss)
        | Some ri =>
            (if ri_fatal ri then INVALID else DIRTY v,
             iss ++ [makeIssue custom p (ri_message ri)])
        end
    end.

(** [schema.refine(check, message)]. *)
Definition refine {I O} (check : O → bool) (msg : string)
    (schema : ZodType I O) : ZodType I O :=
  refinement
    (λ val, if check val then None
            else Some {| ri_message := msg; ri_fatal := false |})
    schema.

(** [schema.nullable()]: [null] is accepted as it is, anything else goes to
    the inner schema. *)
Definition nullable {C O} (schema : ZodType (JsRef C) O)
    : ZodType (JsRef C) (option O) :=
  λ data p,
    match data with
    | js_null => (OK None, [])
    | _ =>
        match schema data p with
        | (OK v, iss) => (OK (Some v), iss)
        | (DIRTY v, iss) => (DIRTY (Some v), iss)
        | (INVALID, iss) => (INVALID, iss)
        end
    end.

(** The checks of a string schema, in the order they were chained. *)
Inductive ZodStringCheck :=
| check_trim
| check_min (value : nat) (msg : string).

(** A string schema is its list of checks; [z.string()] has none. *)
Abbreviation ZodStringDef := (list ZodStringCheck) (only parsing).
Definition z_string : ZodStringDef := [].
Definition str_trim (def : ZodStringDef) : ZodStringDef := def ++ [check_trim].
Definition str_min (n : nat) (msg : string) (def : ZodStringDef) : ZodStringDef :=
  def ++ [check_min n msg].

(** One round of the loop over the checks: [trim] replaces the data, [min]
    compares the length of the current data and raises [too_small]. *)
Definition run_check (p : list string) (acc : Parse jsstring)
    (check : ZodStringCheck) : Parse jsstring :=
  match acc with
  | ((OK data | DIRTY data) as st, iss) =>
      match check with
      | check_trim => (if isValid st then OK (trim data) else DIRTY (trim data), iss)
      | check_min n msg =>
          if bool_decide (length data < n)%nat
          then (DIRTY data, iss ++ [makeIssue too_small p msg])
          else (st, iss)
      end
  | (INVALID, iss) => (INVALID, iss)
  end.

(** Parsing a string with a string schema: the checks run in order. *)
Definition ZodString (def : ZodStringDef) : ZodType jsstring jsstring :=
  λ data p, foldl (run_check p) (OK data, []) def.

(** An object schema parses every field at [path ++ [key]] and then merges
    the results: aborted if a field aborted, dirty if one is dirty; the
    issues of all the fields are kept in the order of the shape. *)
Definition field {I O} (key : string) (schema : ZodType I O) (value : I)
    (p : list string) : Parse O :=
  schema value (p ++ [key]).

Definition mergeField {A B} (acc : Parse (A → B)) (v : Parse A) : Parse B :=
  (match acc.1 with
   | INVALID => INVALID
   | OK f =>
       match v.1 with
       | INVALID => INVALID
       | OK a => OK (f a)
       | DIRTY a => DIRTY (f a)
       end
   | DIRTY f =>
       match v.1 with
       | INVALID => INVALID
       | OK a | DIRTY a => DIRTY (f a)
       end
   end, acc.2 ++ v.2).

(** The error of a failed parse: the issues of the context. *)
Abbreviation ZodError := (list ZodIssue) (only parsing).

(** What [safeParse] returns. *)
Inductive SafeParseReturnType (O : Type) :=
| SafeParseSuccess (data : O)
| SafeParseError (error : ZodError).
Arguments SafeParseSuccess {O} data.
Arguments SafeParseError {O} error.

Definition success {O} (r : SafeParseReturnType O) : bool :=
  match r with SafeParseSuccess _ => true | SafeParseError _ => false end.

(** [schema.safeParse(data)]: parse at the empty path with a fresh context;
    success when the status is valid, the collected issues otherwise. *)
Definition safeParse {I O} (schema : ZodType I O) (data : I)
    : SafeParseReturnType O :=
  match schema data [] with
  | (OK v, _) => SafeParseSuccess v
  | (_, iss) => SafeParseError iss
  end.

(** [error.flatten()]: messages of issues with an empty path go to
    [formErrors], the others to [fieldErrors] under the first element of
    their path, each list in the order of the issues. *)
Record FlattenedError := {
  formErrors : list string;
  fieldErrors : gmap string (list string);
}.

Definition flatten_step (acc : FlattenedError) (sub : ZodIssue) : FlattenedError :=
  match path sub with
  | key :: _ =>
      {| formErrors := formErrors acc;
         fieldErrors :=
           <[key := default [] (fieldErrors acc !! key) ++ [message sub]]>
             (fieldErrors acc) |}
  | [] =>
      {| formErrors := formErrors acc ++ [message sub];
         fieldErrors := fieldErrors acc |}
  end.

Definition flatten (error : ZodError) : FlattenedError :=
  foldl flatten_step {| formErrors := []; fieldErrors := ∅ |} error.

(** * What every schema built from these combinators guarantees *)

(** A parse at path [p] is well formed when it is valid exactly if it pushed
    no issue, and every issue it pushed is about a value at or below [p]. *)
Definition parse_ok {O} (p : list string) (r : Parse O) : Prop :=
  (isValid r.1 = true ↔ r.2 = []) ∧ Forall (λ i, p `prefix_of` path i) r.2.

Class SchemaOk {I O} (s : ZodType I O) : Prop :=
  schema_ok : ∀ d p, parse_ok p (s d p).

(** The messages [flatten] files under the key [k]. *)
Definition at_key (k : string) (i : ZodIssue) : Prop := head (path i) = Some k.

#[export] Instance at_key_dec k i : Decision (at_key k i).
Proof. unfold at_key. apply _. Defined.

Definition messages_at (k : string) (e : list ZodIssue) : list string :=
  message <$> filter (at_key k) e.

Section schema_lemmas.
Context {I O : Type}.
Implicit Types (schema : ZodType I O) (p : list string) (iss : list ZodIssue).

Lemma parse_ok_snoc p (r r' : SyncParseReturnType O) iss i :
  isValid r' = false → p `prefix_of` path i →
  parse_ok p ((r, iss) : Parse O) → parse_ok p ((r', iss ++ [i]) : Parse O).
Proof.
  intros Hr Hi [_ Hp]. split; simpl.
  - rewrite Hr. split; [done|]. by intros [_ [=]]%app_nil.
  - apply Forall_app; split; [done|by constructor].
Qed.

Lemma parse_ok_weaken p q (r : Parse O) :
  p `prefix_of` q → parse_ok q r → parse_ok p r.
Proof.
  intros Hpq [H1 H2]. split; [done|].
  eapply Forall_impl; [done|]. intros i Hi. by etrans.
Qed.

(** Nothing runs after an aborted parse. *)
Lemma refinement_aborted check schema d p iss :
  schema d p = (INVALID, iss) → refinement check schema d p = (INVALID, iss).
Proof. unfold refinement. by intros ->. Qed.

(** An accepted value leaves the inner result as it is. *)
Lemma refine_accept check msg schema d p r iss v :
  schema d p = (r, iss) → r = OK v ∨ r = DIRTY v → check v = true →
  refine check msg schema d p = (r, iss).
Proof.
  unfold refine, refinement. intros -> [-> | ->] Hc; by rewrite Hc.
Qed.

(** A rejected value makes the result dirty and adds the message last. *)
Lemma refine_reject check msg schema d p r iss v :
  schema d p = (r, iss) → r = OK v ∨ r = DIRTY v → check v = false →
  refine check msg schema d p = (DIRTY v, iss ++ [makeIssue custom p msg]).
Proof.
  unfold refine, refinement. intros -> [-> | ->] Hc; by rewrite Hc.
Qed.

#[export] Instance refinement_ok check schema :
  SchemaOk schema → SchemaOk (refinement check schema).
Proof.
  intros Hs d p. unfold refinement. specialize (Hs d p).
  destruct (schema d p) as [[v|v|] iss]; [| |done].
  all: destruct (check v) as [ri|]; [|done].
  all: eapply parse_ok_snoc; [by destruct (ri_fatal ri)|done|done].
Qed.

#[export] Instance refine_ok check msg schema :
  SchemaOk schema → SchemaOk (refine check msg schema).
Proof. unfold refine. apply _. Qed.

Lemma field_ok key schema `{!SchemaOk schema} v p :
  parse_ok (p ++ [key]) (field key schema v p).
Proof. unfold field. apply schema_ok. Qed.

Lemma safeParse_success schema d v :
  safeParse schema d = SafeParseSuccess v ↔ (schema d []).1 = OK v.
Proof.
  unfold safeParse. destruct (schema d []) as [[w|w|] iss]; simpl;
    split; congruence.
Qed.

Lemma safeParse_error schema d e :
  safeParse schema d = SafeParseError e ↔
  isValid (schema d []).1 = false ∧ e = (schema d []).2.
Proof.
  unfold safeParse. destruct (schema d []) as [[w|w|] iss]; simpl;
    intuition congruence.
Qed.

(** A failed parse of a well-formed schema reports at least one issue. *)
Lemma safeParse_error_nonempty schema `{!SchemaOk schema} d e :
  safeParse schema d = SafeParseError e → e ≠ [].
Proof.
  intros [Hv ->]%safeParse_error Hnil.
  destruct (schema_ok d []) as [Hiff _].
  apply Hiff in Hnil. congruence.
Qed.

End schema_lemmas.

#[export] Instance instanceof_ok {C} msg : SchemaOk (@instanceof C msg).
Proof.
  intros [| |o] p; (split; simpl; [done || (split; done)|]);
    repeat constructor; done.
Qed.

#[export] Instance nullable_ok {C O} (schema : ZodType (JsRef C) O) :
  SchemaOk schema → SchemaOk (nullable schema).
Proof.
  intros Hs d p. unfold nullable.
  destruct d as [| |o]; [by split| |].
  - specialize (Hs js_undefined p).
    by destruct (schema js_undefined p) as [[v|v|] iss].
  - specialize (Hs (js_object o) p).
    by destruct (schema (js_object o) p) as [[v|v|] iss].
Qed.

Lemma run_check_ok p acc check :
  parse_ok p acc → parse_ok p (run_check p acc check).
Proof.
  intros H. destruct acc as [[v|v|] iss], check as [|n msg]; simpl; try done.
  all: case_bool_decide; [|done].
  all: by eapply parse_ok_snoc.
Qed.

#[export] Instance ZodString_ok def : SchemaOk (ZodString def).
Proof.
  intros d p. unfold ZodString.
  assert (parse_ok p ((OK d, []) : Parse jsstring)) as H by (by split).
  revert H. generalize ((OK d, []) : Parse jsstring).
  induction def as [|c def IH]; intros acc H; simpl; [done|].
  by apply IH, run_check_ok.
Qed.

Lemma mergeField_valid {A B} (acc : Parse (A → B)) (v : Parse A) :
  isValid (mergeField acc v).1 = isValid acc.1 && isValid v.1.
Proof. by destruct acc as [[f|f|] i1], v as [[a|a|] i2]. Qed.

Lemma mergeField_ok {A B} p (acc : Parse (A → B)) (v : Parse A) :
  parse_ok p acc → parse_ok p v → parse_ok p (mergeField acc v).
Proof.
  intros [Ha1 Ha2] [Hv1 Hv2]. split.
  - rewrite mergeField_valid, andb_true_iff, Ha1, Hv1. simpl.
    by rewrite app_nil.
  - by apply Forall_app.
Qed.

(** * [flatten] *)

Lemma flatten_snoc e i : flatten (e ++ [i]) = flatten_step (flatten e) i.
Proof. unfold flatten. by rewrite foldl_app. Qed.

Lemma messages_at_app k e1 e2 :
  messages_at k (e1 ++ e2) = messages_at k e1 ++ messages_at k e2.
Proof. unfold messages_at. by rewrite filter_app, fmap_app. Qed.

Lemma messages_at_snoc k e i :
  messages_at k (e ++ [i])
  = messages_at k e ++ (if decide (at_key k i) then [message i] else []).
Proof.
  rewrite messages_at_app. f_equal. unfold messages_at.
  rewrite filter_cons, filter_nil. by case_decide.
Qed.

(** Issues raised below the key [k] are all filed under [k] ... *)
Lemma messages_at_hit k e :
  Forall (λ i, [k] `prefix_of` path i) e → messages_at k e = message <$> e.
Proof.
  intros H. unfold messages_at. f_equal. apply filter_all.
  eapply Forall_impl; [done|]. intros i [q Hq]. unfold at_key. by rewrite Hq.
Qed.

(** ... and under no other key. *)
Lemma messages_at_miss k k' e :
  k ≠ k' → Forall (λ i, [k'] `prefix_of` path i) e → messages_at k e = [].
Proof.
  intros Hne H. unfold messages_at. rewrite filter_none; [done|].
  eapply Forall_impl; [done|]. intros i [q Hq] Hk.
  unfold at_key in Hk. rewrite Hq in Hk. naive_solver.
Qed.

(** The field errors under [k] are the messages of the issues whose path
    starts with [k], in order; a key with no such issue is absent. *)
Lemma flatten_lookup e k :
  fieldErrors (flatten e) !! k = nonempty (messages_at k e).
Proof.
  unfold nonempty. induction e as [|i e IH] using rev_ind; [done|].
  rewrite flatten_snoc, messages_at_snoc. unfold flatten_step.
  destruct (decide (at_key k i)) as [Hk|Hk]; unfold at_key in Hk;
    destruct (path i) as [|key q]; simplify_eq/=.
  - rewrite lookup_insert_eq, IH.
    destruct (decide (messages_at k e = [])) as [->|_];
      by rewrite decide_False by (by intros [_ [=]]%app_nil).
  - by rewrite IH, app_nil_r.
  - rewrite lookup_insert_ne, IH, app_nil_r by congruence. done.
Qed.

Lemma flatten_formErrors e :
  formErrors (flatten e) = message <$> filter (λ i, path i = []) e.
Proof.
  induction e as [|i e IH] using rev_ind; [done|].
  rewrite flatten_snoc, filter_app, fmap_app, <- IH. unfold flatten_step.
  rewrite filter_cons, filter_nil.
  destruct (path i); simpl; [done|]. by rewrite app_nil_r.
Qed.

(** No key of the field errors holds an empty list. *)
Lemma flatten_nonempty e k ms :
  fieldErrors (flatten e) !! k = Some ms → ms ≠ [].
Proof. rewrite flatten_lookup. by intros [_ ?]%nonempty_Some. Qed.

Lemma field_paths {I O} key (schema : ZodType I O) `{!SchemaOk schema} v :
  Forall (λ i, [key] `prefix_of` path i) (field key schema v []).2.
Proof. apply (field_ok key schema v []). Qed.

(** The issues of a field of a top-level object are filed under its key and
    under no other. *)
Lemma messages_at_field {I O} k key (schema : ZodType I O)
    `{!SchemaOk schema} v :
  messages_at k (field key schema v []).2
  = if decide (k = key) then message <$> (field key schema v []).2 else [].
Proof.
  case_decide as Hk.
  - subst. apply messages_at_hit, field_paths, _.
  - eapply messages_at_miss; [done|]. apply field_paths, _.
Qed.

(** A field parsed below [p] is a well-formed parse at [p], and so is the
    empty record the merge starts from. *)
Lemma field_below {I O} key (schema : ZodType I O) `{!SchemaOk schema} v p :
  parse_ok p (field key schema v p).
Proof.
  eapply parse_ok_weaken; [|by apply field_ok]. by apply prefix_app_r.
Qed.

Lemma parse_ok_start {O} p (v : O) : parse_ok p (OK v, []).
Proof. by split. Qed.

#[export] Hint Resolve field_below mergeField_ok parse_ok_start : scan.
#[export] Hint Extern 1 (SchemaOk _) => apply _ : scan.
