(* ===== verification/SpotSchema.v ===== *)
(** The validation schema of the form, [spotSchema] with its constants
    (src/src/pages/New/index.jsx, lines 10-27), and what it accepts and
    rejects, field by field and as a whole. *)
From S2P Require Import Prelude JsString Number Double ParseFloat Zod.
From stdpp Require Import strings gmap.

#[local] Open Scope chain_scope.

(** A browser [File] as the program sees it: the two fields it reads,
    [size] (line 17) and [type] (line 19), and the identity of the object
    ([id]), which is what [Object.is] compares when [useMemo] looks at its
    dependency (line 41) and which distinguishes two picks of the same
    file.  A [File] is immutable, so an object is determined by its
    identity: two values of this record stand for the same object exactly
    when they are equal, and two values that share an [id] and differ in a
    field stand for no two objects of a browser.  The size is the number of
    bytes, an [unsigned long long]; it is kept as a natural number, the
    program reads it as a Number, and what is proved of it holds for every
    size, those a browser cannot give included. *)
Module File.
Record t := mk {
  id : N;
  size : N;
  type : jsstring;
}.
End File.

#[export] Instance File_eq_dec : EqDecision File.t.
Proof. solve_decision. Defined.

(** [5 * 1024 * 1024], two products of Numbers. *)
Definition MAX_FILE_SIZE : N := js_mul (js_mul 5 1024) 1024.

Definition ACCEPTED_IMAGE_TYPES : list jsstring :=
  [lit "image/jpeg"; lit "image/jpg"; lit "image/png"; lit "image/webp"].

(** The object handed to the schema: the four cells of the form. *)
Module Input.
Record t := mk {
  thumbnail : JsRef File.t;
  company : jsstring;
  techs : jsstring;
  price : jsstring;
}.
End Input.

(** The object a successful parse returns. *)
Module Output.
Record t := mk {
  thumbnail : option File.t;
  company : jsstring;
  techs : jsstring;
  price : jsstring;
}.
End Output.

(** The messages of the schema. *)
Definition msg_thumbnail_required : string := "A imagem do spot é obrigatória.".
Definition msg_thumbnail_size : string := "O tamanho máximo da imagem é 5MB.".
Definition msg_thumbnail_type : string :=
  "Apenas os formatos .jpg, .jpeg, .png e .webp são aceitos.".
Definition msg_company : string := "O nome da empresa é obrigatório.".
Definition msg_techs : string := "Informe ao menos uma tecnologia.".
Definition msg_price : string := "O valor da diária deve ser um número válido.".

(** The two refinements of the thumbnail and the one of the price. *)
Definition size_ok (file : File.t) : bool :=
  js_le (to_double (File.size file)) MAX_FILE_SIZE.

Definition type_ok (file : File.t) : bool :=
  includes ACCEPTED_IMAGE_TYPES (File.type file).

Definition price_ok (val : jsstring) : bool :=
  strict_eq val [] || negb (isNaN (parseFloat val)).

Definition thumbnail_schema : ZodType (JsRef File.t) (option File.t) :=
  instanceof msg_thumbnail_required
  |> refine size_ok msg_thumbnail_size
  |> refine type_ok msg_thumbnail_type
  |> nullable.

Definition company_schema : ZodType jsstring jsstring :=
  ZodString (z_string |> str_trim |> str_min 1 msg_company).

Definition techs_schema : ZodType jsstring jsstring :=
  ZodString (z_string |> str_trim |> str_min 1 msg_techs).

Definition price_schema : ZodType jsstring jsstring :=
  ZodString z_string |> refine price_ok msg_price.

(** [z.object({ thumbnail, company, techs, price })]. *)
Definition spotSchema : ZodType Input.t Output.t :=
  λ data p,
    mergeField (mergeField (mergeField (mergeField (OK Output.mk, [])
      (field "thumbnail" thumbnail_schema (Input.thumbnail data) p))
      (field "company" company_schema (Input.company data) p))
      (field "techs" techs_schema (Input.techs data) p))
      (field "price" price_schema (Input.price data) p).

(** * What the schema accepts, stated without the library *)

(** The thumbnail cells the schema lets through. *)
Definition thumbnail_accepted (t : JsRef File.t) : bool :=
  match t with
  | js_null => true
  | js_undefined => false
  | js_object f => size_ok f && type_ok f
  end.

(** The drafts the schema lets through. *)
Definition accepted (d : Input.t) : bool :=
  thumbnail_accepted (Input.thumbnail d)
  && negb (bool_decide (blank (Input.company d)))
  && negb (bool_decide (blank (Input.techs d)))
  && price_ok (Input.price d).

(** The value of a parse that did not abort: company and techs trimmed. *)
Definition normalise (d : Input.t) : Output.t :=
  Output.mk
    (match Input.thumbnail d with js_object f => Some f | _ => None end)
    (trim (Input.company d)) (trim (Input.techs d)) (Input.price d).

(** The messages each field earns. *)
Definition thumbnail_messages (t : JsRef File.t) : list string :=
  match t with
  | js_null => []
  | js_undefined => [msg_thumbnail_required]
  | js_object f =>
      (if size_ok f then [] else [msg_thumbnail_size]) ++
      (if type_ok f then [] else [msg_thumbnail_type])
  end.

Definition required_messages (msg : string) (s : jsstring) : list string :=
  if bool_decide (blank s) then [msg] else [].

Definition price_messages (s : jsstring) : list string :=
  if price_ok s then [] else [msg_price].

(** The keys of the shape, in its order. *)
Definition field_names : list string := ["thumbnail"; "company"; "techs"; "price"].

Definition expected_messages (d : Input.t) (k : string) : list string :=
  if decide (k = "thumbnail") then thumbnail_messages (Input.thumbnail d)
  else if decide (k = "company") then required_messages msg_company (Input.company d)
  else if decide (k = "techs") then required_messages msg_techs (Input.techs d)
  else if decide (k = "price") then price_messages (Input.price d)
  else [].

(** The object [validation.error.flatten().fieldErrors] of a draft (the
    empty object when the draft is accepted). *)
Definition spot_errors (d : Input.t) : gmap string (list string) :=
  fieldErrors (flatten (spotSchema d []).2).

(** Sample files and drafts. *)
Definition jpeg_1MB : File.t :=
  File.mk 1 (1024 * 1024) (lit "image/jpeg").
Definition huge_gif : File.t :=
  File.mk 2 (6 * 1024 * 1024) (lit "image/gif").

Definition draft_ok : Input.t :=
  Input.mk (js_object jpeg_1MB) (lit "Acme") (lit "React, Node") [].
Definition draft_bad : Input.t :=
  Input.mk js_undefined [] [] (lit "xyz").
Definition draft_null : Input.t :=
  Input.mk js_null (lit " Acme ") (lit "React") (lit "12.50").
Definition draft_untouched : Input.t :=
  Input.mk js_null [] [] (lit "xyz").

Example spotSchema_draft_ok :
  safeParse spotSchema draft_ok
  = SafeParseSuccess (Output.mk (Some jpeg_1MB) (lit "Acme") (lit "React, Node") []).
Proof. vm_compute. reflexivity. Qed.

Example spotSchema_draft_bad :
  fieldErrors (flatten (match safeParse spotSchema draft_bad with
                        | SafeParseError e => e | _ => [] end))
  = {[ "thumbnail" := [msg_thumbnail_required]; "company" := [msg_company];
       "techs" := [msg_techs]; "price" := [msg_price] ]}.
Proof. vm_compute. reflexivity. Qed.

Example spotSchema_draft_null :
  safeParse spotSchema draft_null
  = SafeParseSuccess (Output.mk None (lit "Acme") (lit "React") (lit "12.50")).
Proof. vm_compute. reflexivity. Qed.

(** A form whose picture was never touched: no entry for the thumbnail. *)
Example spot_errors_untouched :
  spot_errors draft_untouched
  = {[ "company" := [msg_company]; "techs" := [msg_techs];
       "price" := [msg_price] ]}.
Proof. vm_compute. reflexivity. Qed.

Example thumbnail_schema_huge_gif :
  thumbnail_schema (js_object huge_gif) ["thumbnail"]
  = (DIRTY (Some huge_gif),
     [makeIssue custom ["thumbnail"] msg_thumbnail_size;
      makeIssue custom ["thumbnail"] msg_thumbnail_type]).
Proof. vm_compute. reflexivity. Qed.

(** * The fields one by one *)

Lemma thumbnail_schema_null p : thumbnail_schema js_null p = (OK None, []).
Proof. reflexivity. Qed.

Lemma thumbnail_schema_undefined p :
  thumbnail_schema js_undefined p
  = (INVALID, [makeIssue custom p msg_thumbnail_required]).
Proof. reflexivity. Qed.

Lemma thumbnail_schema_file f p :
  thumbnail_schema (js_object f) p
  = (if size_ok f && type_ok f then OK (Some f) else DIRTY (Some f),
     (if size_ok f then [] else [makeIssue custom p msg_thumbnail_size]) ++
     (if type_ok f then [] else [makeIssue custom p msg_thumbnail_type])).
Proof.
  unfold thumbnail_schema, nullable, refine, refinement, instanceof.
  simpl. by destruct (size_ok f); simpl; destruct (type_ok f).
Qed.

Lemma required_string_schema msg s p :
  ZodString (z_string |> str_trim |> str_min 1 msg) s p
  = if decide (blank s) then (DIRTY [], [makeIssue too_small p msg])
    else (OK (trim s), []).
Proof.
  unfold ZodString, str_min, str_trim, z_string. simpl.
  case_bool_decide as Hlen; case_decide as Hb; try done.
  - apply trim_nil in Hb as ->. done.
  - destruct (trim s) eqn:E; [by apply trim_nil in E|simpl in Hlen; lia].
  - apply trim_nil in Hb. rewrite Hb in Hlen. simpl in Hlen. lia.
Qed.

Lemma price_schema_spec s p :
  price_schema s p
  = if price_ok s then (OK s, []) else (DIRTY s, [makeIssue custom p msg_price]).
Proof. unfold price_schema, refine, refinement, ZodString. simpl. by destruct (price_ok s). Qed.

Lemma spotSchema_issues d p :
  (spotSchema d p).2
  = (field "thumbnail" thumbnail_schema (Input.thumbnail d) p).2
    ++ (field "company" company_schema (Input.company d) p).2
    ++ (field "techs" techs_schema (Input.techs d) p).2
    ++ (field "price" price_schema (Input.price d) p).2.
Proof. unfold spotSchema, mergeField. simpl. by rewrite <- !app_assoc. Qed.

Ltac split_fields :=
  unfold spotSchema, field, company_schema, techs_schema;
  rewrite !required_string_schema, price_schema_spec;
  repeat case_decide;
  repeat match goal with
  | H : blank _ |- _ => rewrite (trim_blank _ H) in *; rewrite (bool_decide_eq_true_2 _ H)
  | H : ¬ blank _ |- _ => rewrite (bool_decide_eq_false_2 _ H)
  end.

Lemma spotSchema_status d p :
  (spotSchema d p).1
  = if accepted d then OK (normalise d)
    else match Input.thumbnail d with
         | js_undefined => INVALID
         | _ => DIRTY (normalise d)
         end.
Proof.
  unfold accepted, normalise. destruct d as [t c te pr]; simpl.
  split_fields.
  all: destruct t as [| |f]; rewrite ?thumbnail_schema_file; simpl;
    destruct (price_ok pr); try done.
  all: by destruct (size_ok f), (type_ok f).
Qed.

Lemma thumbnail_field_messages t p :
  message <$> (field "thumbnail" thumbnail_schema t p).2 = thumbnail_messages t.
Proof.
  unfold field. destruct t as [| |f]; [done..|].
  rewrite thumbnail_schema_file. simpl.
  by destruct (size_ok f), (type_ok f).
Qed.

Lemma company_field_messages s p :
  message <$> (field "company" company_schema s p).2
  = required_messages msg_company s.
Proof.
  unfold field, company_schema, required_messages.
  rewrite required_string_schema. case_decide as H.
  - by rewrite bool_decide_eq_true_2.
  - by rewrite bool_decide_eq_false_2.
Qed.

Lemma techs_field_messages s p :
  message <$> (field "techs" techs_schema s p).2
  = required_messages msg_techs s.
Proof.
  unfold field, techs_schema, required_messages.
  rewrite required_string_schema. case_decide as H.
  - by rewrite bool_decide_eq_true_2.
  - by rewrite bool_decide_eq_false_2.
Qed.

Lemma price_field_messages s p :
  message <$> (field "price" price_schema s p).2 = price_messages s.
Proof.
  unfold field, price_messages. rewrite price_schema_spec.
  by destruct (price_ok s).
Qed.

Lemma messages_at_thumbnail k t :
  messages_at k (field "thumbnail" thumbnail_schema t []).2
  = if decide (k = "thumbnail") then thumbnail_messages t else [].
Proof.
  by rewrite (messages_at_field k "thumbnail" thumbnail_schema),
    thumbnail_field_messages.
Qed.

Lemma messages_at_company k s :
  messages_at k (field "company" company_schema s []).2
  = if decide (k = "company") then required_messages msg_company s else [].
Proof.
  by rewrite (messages_at_field k "company" company_schema),
    company_field_messages.
Qed.

Lemma messages_at_techs k s :
  messages_at k (field "techs" techs_schema s []).2
  = if decide (k = "techs") then required_messages msg_techs s else [].
Proof.
  by rewrite (messages_at_field k "techs" techs_schema), techs_field_messages.
Qed.

Lemma messages_at_price k s :
  messages_at k (field "price" price_schema s []).2
  = if decide (k = "price") then price_messages s else [].
Proof.
  by rewrite (messages_at_field k "price" price_schema), price_field_messages.
Qed.

Lemma spot_messages_at d k :
  messages_at k (spotSchema d []).2 = expected_messages d k.
Proof.
  unfold expected_messages.
  rewrite spotSchema_issues, !messages_at_app.
  rewrite messages_at_thumbnail, messages_at_company, messages_at_techs,
    messages_at_price.
  repeat case_decide; simplify_eq; by rewrite ?app_nil_r.
Qed.

Lemma spot_errors_lookup d k :
  spot_errors d !! k = nonempty (expected_messages d k).
Proof. unfold spot_errors. by rewrite flatten_lookup, spot_messages_at. Qed.

Lemma expected_messages_other d k :
  k ∉ field_names → expected_messages d k = [].
Proof.
  intros Hk. unfold expected_messages.
  repeat case_decide; try done; subst; destruct Hk; set_solver.
Qed.

(** * The draft as a whole *)

Lemma thumbnail_messages_nil t : thumbnail_messages t = [] ↔ thumbnail_accepted t = true.
Proof.
  destruct t as [| |f]; simpl; [done..|].
  by destruct (size_ok f), (type_ok f).
Qed.

Lemma required_messages_nil msg s : required_messages msg s = [] ↔ ¬ blank s.
Proof.
  unfold required_messages. case_bool_decide; split; done.
Qed.

Lemma price_messages_nil s : price_messages s = [] ↔ price_ok s = true.
Proof. unfold price_messages. by destruct (price_ok s). Qed.

Lemma accepted_spec d :
  accepted d = true ↔
  thumbnail_accepted (Input.thumbnail d) = true ∧ ¬ blank (Input.company d)
  ∧ ¬ blank (Input.techs d) ∧ price_ok (Input.price d) = true.
Proof.
  unfold accepted. rewrite !andb_true_iff, !negb_true_iff, !bool_decide_eq_false.
  tauto.
Qed.

Lemma expected_messages_nil d :
  (∀ k, expected_messages d k = []) ↔ accepted d = true.
Proof.
  rewrite accepted_spec, <- thumbnail_messages_nil,
    <- (required_messages_nil msg_company), <- (required_messages_nil msg_techs),
    <- price_messages_nil.
  split.
  - intros H. split_and!.
    + apply (H "thumbnail").
    + apply (H "company").
    + apply (H "techs").
    + apply (H "price").
  - intros (?&?&?&?) k. unfold expected_messages. by repeat case_decide.
Qed.

Lemma spot_errors_accepted d : accepted d = true → spot_errors d = ∅.
Proof.
  intros H. apply map_empty. intros k.
  rewrite spot_errors_lookup, nonempty_None.
  by apply expected_messages_nil.
Qed.

Lemma spot_errors_accepted_inv d : spot_errors d = ∅ → accepted d = true.
Proof.
  intros H. apply expected_messages_nil. intros k.
  by rewrite <- nonempty_None, <- spot_errors_lookup, H.
Qed.

(** * The schema is well formed *)

#[export] Instance thumbnail_schema_ok : SchemaOk thumbnail_schema.
Proof. unfold thumbnail_schema. apply _. Qed.

#[export] Instance company_schema_ok : SchemaOk company_schema.
Proof. unfold company_schema. apply _. Qed.

#[export] Instance techs_schema_ok : SchemaOk techs_schema.
Proof. unfold techs_schema. apply _. Qed.

#[export] Instance price_schema_ok : SchemaOk price_schema.
Proof. unfold price_schema. apply _. Qed.

#[export] Instance spotSchema_ok : SchemaOk spotSchema.
Proof.
  intros d p. unfold spotSchema. auto 10 with scan.
Qed.

(** * The contract of the validator *)

(** C1. The schema implements the contract: an accepted draft parses to its
    normalised form; a draft that is not accepted fails, and the field
    errors hold under each key the messages that key earns, a key that
    earns none being absent. *)
Theorem safeParse_spotSchema d :
  match safeParse spotSchema d with
  | SafeParseSuccess v => accepted d = true ∧ v = normalise d
  | SafeParseError e =>
      accepted d = false
      ∧ ∀ k, fieldErrors (flatten e) !! k = nonempty (expected_messages d k)
  end.
Proof.
  pose proof (spotSchema_status d []) as Hs.
  pose proof (spot_errors_lookup d) as He. unfold spot_errors in He.
  unfold safeParse.
  destruct (spotSchema d []) as [[v|v|] iss], (accepted d);
    simplify_eq/=; try done.
  all: by destruct (Input.thumbnail d).
Qed.

(** C2. The field errors of a draft have an entry exactly for the keys of the
    shape that earn a message, and the entry holds those messages. *)
Theorem spot_errors_spec d k ms :
  spot_errors d !! k = Some ms
  ↔ k ∈ field_names ∧ ms = expected_messages d k ∧ ms ≠ [].
Proof.
  rewrite spot_errors_lookup, nonempty_Some. split; [|by intros (_ & -> & ?)].
  intros [<- Hne]. split; [|done].
  destruct (decide (k ∈ field_names)) as [|Hk]; [done|].
  by rewrite expected_messages_other in Hne.
Qed.

(** C3. The field errors are the empty object exactly for accepted drafts. *)
Theorem spot_errors_empty d : spot_errors d = ∅ ↔ accepted d = true.
Proof.
  split; [apply spot_errors_accepted_inv|apply spot_errors_accepted].
Qed.

Lemma spotSchema_paths d p :
  Forall (λ i, ∃ k, k ∈ field_names ∧ (p ++ [k]) `prefix_of` path i)
    (spotSchema d p).2.
Proof.
  rewrite spotSchema_issues, !Forall_app. split_and!.
  all: eapply Forall_impl; [apply field_ok; apply _|].
  all: intros i Hi; eexists; split; [|exact Hi]; set_solver.
Qed.

(** Reading [fieldErrors] alone loses nothing: the schema raises no issue
    about the form as a whole. *)
Theorem no_form_errors d : formErrors (flatten (spotSchema d []).2) = [].
Proof.
  rewrite flatten_formErrors, filter_none; [done|].
  eapply Forall_impl; [apply (spotSchema_paths d [])|].
  by intros i (k & _ & [q ->]) Hp.
Qed.

(** * The size limit *)

Lemma MAX_FILE_SIZE_value : MAX_FILE_SIZE = 5242880%N.
Proof. vm_compute. reflexivity. Qed.

Lemma size_ok_le f : size_ok f = true ↔ (File.size f ≤ MAX_FILE_SIZE)%N.
Proof.
  unfold size_ok. rewrite to_double_le by (by rewrite MAX_FILE_SIZE_value).
  apply N.leb_le.
Qed.

(** C35. The limit is computed without rounding, and reading the size of a file
    as a Number never changes the verdict: a file passes exactly when it has
    at most 5,242,880 bytes, whatever its size. *)
Theorem size_ok_exact f :
  MAX_FILE_SIZE = (5 * 1024 * 1024)%N
  ∧ (size_ok f = true ↔ (File.size f ≤ 5242880)%N).
Proof. split; [apply MAX_FILE_SIZE_value|]. by rewrite size_ok_le. Qed.

Example size_ok_boundary :
  size_ok (File.mk 3 5242880 []) = true
  ∧ size_ok (File.mk 3 5242881 []) = false
  ∧ size_ok (File.mk 3 unsigned_long_long_max []) = false.
Proof. vm_compute. done. Qed.

(** C13. A file that is too large and of a type that is not accepted earns both
    messages, the one about the size first. *)
Theorem thumbnail_both_failures d f :
  Input.thumbnail d = js_object f → size_ok f = false → type_ok f = false →
  spot_errors d !! "thumbnail" = Some [msg_thumbnail_size; msg_thumbnail_type].
Proof.
  intros Ht Hs Hty. rewrite spot_errors_lookup. unfold expected_messages.
  cbn [decide]. rewrite decide_True by done. rewrite Ht. simpl.
  by rewrite Hs, Hty.
Qed.

Lemma thumbnail_both_failures_witness :
  spot_errors (Input.mk (js_object huge_gif) [] [] []) !! "thumbnail"
  = Some [msg_thumbnail_size; msg_thumbnail_type].
Proof.
  apply (thumbnail_both_failures (Input.mk (js_object huge_gif) [] [] []) huge_gif);
    reflexivity.
Defined.

(** C15. The price is accepted when it is empty or starts, after leading white
    space, with a decimal literal; what follows the literal is not looked
    at. *)
Theorem price_ok_spec s :
  price_ok s = true ↔ s = [] ∨ ∃ q, literal_prefix (trimStart s) q.
Proof.
  unfold price_ok. rewrite orb_true_iff, strict_eq_true, negb_true_iff.
  by rewrite isNaN_parseFloat, scan_literal_is_Some.
Qed.

(** Prices that pass: an infinite one, a negative one, a number followed by
    anything; and prices that do not. *)
Example price_ok_samples :
  Forall (λ t, price_ok (lit t) = true)
    ["Infinity"; "-Infinity"; "-12.5"; "1e999"; "12abc"; "  7 apples"; ".5"]
  ∧ Forall (λ t, price_ok (lit t) = false) ["abc"; " "; "."; "e5"; "$12"; "+-1"].
Proof.
  split; repeat first [apply Forall_nil_2|apply Forall_cons_2; [by vm_compute|]].
Qed.
