(* ===== verification/ZodRaw.v ===== *)
(** The schema on values of any type.  [Zod.v] and [SpotSchema.v] give every
    schema the type of the value it is handed; the library itself starts
    every parse by looking at the type of the data and raises [invalid_type]
    when it is not the expected one.  This file has that layer: values of
    any type ([JsValue]), the type test of [z.string()] and [z.object()],
    the parsing of an object field by field from its shape, and the schema
    of src/src/pages/New/index.jsx (lines 14-27) built from them.  The
    theorems show that on the object the page builds (line 47) the two
    schemas agree, so that no [invalid_type] issue is ever raised there, and
    what the untyped schema answers on other data. *)
From S2P Require Import Prelude JsString Number Double ParseFloat Zod SpotSchema.
From stdpp Require Import strings gmap.

#[local] Open Scope chain_scope.

(** The values the schema can meet: primitives, a [File], a plain object
    with its own properties in insertion order. *)
#[warnings="-register-all"]
Inductive JsValue :=
| v_undefined
| v_null
| v_boolean (b : bool)
| v_number (x : JsNumber)
| v_string (s : jsstring)
| v_file (f : File.t)
| v_object (props : list (string * JsValue)).

Definition is_undefined (v : JsValue) : bool :=
  match v with v_undefined => true | _ => false end.

(** The types [getParsedType] tells apart. *)
Inductive ZodParsedType :=
| t_undefined | t_null | t_boolean | t_nan | t_number | t_string | t_object.

#[export] Instance ZodParsedType_eq_dec : EqDecision ZodParsedType.
Proof. solve_decision. Defined.

(** [getParsedType(data)]: by [typeof]; a number that is NaN has a type of
    its own, [null] too, and a [File] is an object like any other. *)
Definition getParsedType (data : JsValue) : ZodParsedType :=
  match data with
  | v_undefined => t_undefined
  | v_null => t_null
  | v_boolean _ => t_boolean
  | v_number x => if isNaN x then t_nan else t_number
  | v_string _ => t_string
  | v_file _ | v_object _ => t_object
  end.

Definition parsedType_name (t : ZodParsedType) : string :=
  match t with
  | t_undefined => "undefined"
  | t_null => "null"
  | t_boolean => "boolean"
  | t_nan => "nan"
  | t_number => "number"
  | t_string => "string"
  | t_object => "object"
  end.

(** The message of the default error map (of zod 3) for [invalid_type]. *)
Definition invalid_type_message (expected received : ZodParsedType) : string :=
  if decide (received = t_undefined) then "Required"
  else "Expected " +:+ parsedType_name expected +:+ ", received "
       +:+ parsedType_name received.

Definition invalid_type_issue (expected : ZodParsedType) (data : JsValue)
    (p : list string) : ZodIssue :=
  makeIssue invalid_type p (invalid_type_message expected (getParsedType data)).

(** A schema on values of any type. *)
Abbreviation ZodRawType := (ZodType JsValue JsValue) (only parsing).

(** The result of a typed parse as a value. *)
Definition lift {A} (f : A → JsValue) (r : Parse A) : Parse JsValue :=
  (match r.1 with OK v => OK (f v) | DIRTY v => DIRTY (f v) | INVALID => INVALID end,
   r.2).

(** [z.string()] with its checks: data that is no string aborts with
    [invalid_type], a string goes through the checks. *)
Definition raw_string (def : list ZodStringCheck) : ZodRawType :=
  λ data p,
    match data with
    | v_string s => lift v_string (ZodString def s p)
    | _ => (INVALID, [invalid_type_issue t_string data p])
    end.

(** [z.instanceof(File, { message })]: any value is looked at, only a [File]
    passes. *)
Definition raw_instanceof_File (msg : string) : ZodRawType :=
  λ data p,
    match data with
    | v_file f => (OK data, [])
    | _ => (INVALID, [makeIssue custom p msg])
    end.

(** [schema.nullable()]. *)
Definition raw_nullable (schema : ZodRawType) : ZodRawType :=
  λ data p,
    match data with
    | v_null => (OK v_null, [])
    | _ => schema data p
    end.

(** The callbacks of the refinements read a [File] or a string; the schema
    they refine lets nothing else reach them. *)
Definition on_file (check : File.t → bool) (val : JsValue) : bool :=
  match val with v_file f => check f | _ => false end.

Definition on_string (check : jsstring → bool) (val : JsValue) : bool :=
  match val with v_string s => check s | _ => false end.

(** [data[key]] and [key in data] for the keys of a shape: an own property
    of a plain object; a [File] has none of these names. *)
Definition own (key : string) (props : list (string * JsValue)) : option JsValue :=
  (λ r, r.2.2) <$> list_find (λ kv, kv.1 = key) props.

Definition property (key : string) (data : JsValue) : JsValue :=
  match data with
  | v_object props => default v_undefined (own key props)
  | _ => v_undefined
  end.

Definition has_property (key : string) (data : JsValue) : bool :=
  match data with
  | v_object props => bool_decide (is_Some (own key props))
  | _ => false
  end.

(** One pair of the object's loop: the key, the parse of [data[key]] at
    [path ++ [key]], and [key in data]. *)
Record Pair := {
  pair_key : string;
  pair_value : Parse JsValue;
  alwaysSet : bool;
}.

(** [ParseStatus.mergeObjectSync]: aborted as soon as a value is; dirty
    when one is; a key is set in the final object when its value is not
    [undefined] or the key was in the data. *)
Definition merge_pair (acc : SyncParseReturnType (list (string * JsValue)))
    (pair : Pair) : SyncParseReturnType (list (string * JsValue)) :=
  let set v o :=
    if negb (is_undefined v) || alwaysSet pair
    then o ++ [(pair_key pair, v)] else o in
  match acc, (pair_value pair).1 with
  | OK o, OK v => OK (set v o)
  | OK o, DIRTY v | DIRTY o, (OK v | DIRTY v) => DIRTY (set v o)
  | _, _ => INVALID
  end.

Definition mergeObjectSync (pairs : list Pair) : Parse JsValue :=
  lift v_object (foldl merge_pair (OK []) pairs, pairs ≫= λ pair, (pair_value pair).2).

(** [z.object(shape)]: data that is no object aborts with [invalid_type];
    otherwise every key of the shape is parsed, in the order of the shape,
    and the results are merged.  Keys of the data that the shape does not
    have are dropped. *)
Definition raw_object (shape : list (string * ZodRawType)) : ZodRawType :=
  λ data p,
    match getParsedType data with
    | t_object =>
        mergeObjectSync
          ((λ '(key, schema),
             {| pair_key := key;
                pair_value := schema (property key data) (p ++ [key]);
                alwaysSet := has_property key data |}) <$> shape)
    | _ => (INVALID, [invalid_type_issue t_object data p])
    end.

(** The schema of the form, as the source builds it. *)
Definition raw_thumbnail_schema : ZodRawType :=
  raw_instanceof_File msg_thumbnail_required
  |> refine (on_file size_ok) msg_thumbnail_size
  |> refine (on_file type_ok) msg_thumbnail_type
  |> raw_nullable.

Definition raw_price_schema : ZodRawType :=
  raw_string z_string |> refine (on_string price_ok) msg_price.

Definition raw_spotSchema : ZodRawType :=
  raw_object
    [("thumbnail", raw_thumbnail_schema);
     ("company", raw_string (z_string |> str_trim |> str_min 1 msg_company));
     ("techs", raw_string (z_string |> str_trim |> str_min 1 msg_techs));
     ("price", raw_price_schema)].

(** The values of the typed model. *)
Definition of_ref (t : JsRef File.t) : JsValue :=
  match t with
  | js_null => v_null
  | js_undefined => v_undefined
  | js_object f => v_file f
  end.

Definition of_option (t : option File.t) : JsValue :=
  match t with None => v_null | Some f => v_file f end.

(** [{ thumbnail, company, techs, price }]. *)
Definition of_Input (d : Input.t) : JsValue :=
  v_object
    [("thumbnail", of_ref (Input.thumbnail d));
     ("company", v_string (Input.company d));
     ("techs", v_string (Input.techs d));
     ("price", v_string (Input.price d))].

Definition of_Output (o : Output.t) : JsValue :=
  v_object
    [("thumbnail", of_option (Output.thumbnail o));
     ("company", v_string (Output.company o));
     ("techs", v_string (Output.techs o));
     ("price", v_string (Output.price o))].

(** The data the schema takes without an [invalid_type] issue: an object
    whose company, techs and price are strings. *)
Definition is_string_value (v : JsValue) : bool :=
  match v with v_string _ => true | _ => false end.

Definition well_typed (data : JsValue) : bool :=
  bool_decide (getParsedType data = t_object)
  && is_string_value (property "company" data)
  && is_string_value (property "techs" data)
  && is_string_value (property "price" data).

Definition type_issues (r : Parse JsValue) : list ZodIssue :=
  filter (λ i, code i = invalid_type) r.2.

Section lift_lemmas.
Context {I O : Type} (f : O → JsValue).
Implicit Types (schema : ZodType I O) (raw : ZodType JsValue JsValue).

(** A refinement of the untyped schema whose callback reads the value as
    the typed one does is the refinement of the typed schema. *)
Lemma refine_lift check check' msg schema raw d d' p :
  (∀ v, check' (f v) = check v) →
  raw d' p = lift f (schema d p) →
  refine check' msg raw d' p = lift f (refine check msg schema d p).
Proof.
  intros Hc Hr. unfold refine, refinement. rewrite Hr. unfold lift.
  destruct (schema d p) as [[v|v|] iss]; simpl; [| |done];
    rewrite Hc; by destruct (check v).
Qed.

Lemma lift_issues (r : Parse O) : (lift f r).2 = r.2.
Proof. done. Qed.

Lemma lift_valid (r : Parse O) : isValid (lift f r).1 = isValid r.1.
Proof. by destruct r as [[v|v|] iss]. Qed.
End lift_lemmas.

Lemma raw_thumbnail_typed t p :
  raw_thumbnail_schema (of_ref t) p = lift of_option (thumbnail_schema t p).
Proof.
  destruct t as [| |f]; [done..|]. rewrite thumbnail_schema_file.
  unfold raw_thumbnail_schema, raw_nullable, refine, refinement. simpl.
  by destruct (size_ok f); simpl; destruct (type_ok f).
Qed.

Lemma raw_string_typed def s p :
  raw_string def (v_string s) p = lift v_string (ZodString def s p).
Proof. done. Qed.

Lemma raw_price_typed s p :
  raw_price_schema (v_string s) p = lift v_string (price_schema s p).
Proof. by apply (refine_lift v_string). Qed.

Lemma raw_spotSchema_lift d p :
  raw_spotSchema (of_Input d) p = lift of_Output (spotSchema d p).
Proof.
  destruct d as [t c te pr].
  unfold raw_spotSchema, raw_object, spotSchema, field, mergeObjectSync,
    company_schema, techs_schema. simpl.
  change (property "thumbnail" _) with (of_ref t).
  change (property "company" _) with (v_string c).
  change (property "techs" _) with (v_string te).
  change (property "price" _) with (v_string pr).
  rewrite raw_thumbnail_typed, ?raw_string_typed, ?raw_price_typed.
  unfold lift, mergeField, merge_pair. simpl.
  destruct (thumbnail_schema _ _) as [[v1|v1|] i1],
    (ZodString _ c _) as [[v2|v2|] i2],
    (ZodString _ te _) as [[v3|v3|] i3],
    (price_schema _ _) as [[v4|v4|] i4]; simpl;
    rewrite ?orb_true_r, ?app_nil_r, <- ?app_assoc; done.
Qed.

(** * Which data raises [invalid_type] *)

Definition typed_issue (i : ZodIssue) : Prop := code i ≠ invalid_type.

Lemma type_issues_nil r : type_issues r = [] ↔ Forall typed_issue r.2.
Proof. apply filter_nil_Forall. Qed.

Lemma refine_codes {I O} check msg (schema : ZodType I O) d p :
  Forall typed_issue (refine check msg schema d p).2
  ↔ Forall typed_issue (schema d p).2.
Proof.
  unfold refine, refinement.
  destruct (schema d p) as [[v|v|] iss]; [| |done];
    (destruct (check v); [done|]); simpl;
    rewrite Forall_app, Forall_singleton; (split; [by intros [? _]|done]).
Qed.

Lemma run_check_codes p acc check :
  Forall typed_issue acc.2 → Forall typed_issue (run_check p acc check).2.
Proof.
  destruct acc as [[v|v|] iss], check as [|n msg]; simpl; try done.
  all: case_bool_decide; [|done].
  all: intros Hacc; apply Forall_app; split; [done|by constructor].
Qed.

Lemma ZodString_codes def s p : Forall typed_issue (ZodString def s p).2.
Proof.
  unfold ZodString.
  assert (Forall typed_issue ((OK s, []) : Parse jsstring).2) as H by done.
  revert H. generalize ((OK s, []) : Parse jsstring).
  induction def as [|c def IH]; intros acc H; simpl; [done|].
  by apply IH, run_check_codes.
Qed.

Lemma raw_string_codes def data p :
  Forall typed_issue (raw_string def data p).2 ↔ is_string_value data = true.
Proof.
  destruct data; simpl; rewrite ?Forall_singleton;
    try (split; [by intros []|done]).
  split; [done|]. intros _. apply ZodString_codes.
Qed.

Lemma raw_thumbnail_codes data p :
  Forall typed_issue (raw_thumbnail_schema data p).2.
Proof.
  unfold raw_thumbnail_schema, raw_nullable.
  destruct data; try done; rewrite !refine_codes; by repeat constructor.
Qed.

Lemma raw_price_codes data p :
  Forall typed_issue (raw_price_schema data p).2 ↔ is_string_value data = true.
Proof. unfold raw_price_schema. by rewrite refine_codes, raw_string_codes. Qed.

Lemma mergeObjectSync_issues pairs :
  (mergeObjectSync pairs).2 = pairs ≫= λ pair, (pair_value pair).2.
Proof. done. Qed.

(** The untyped schema raises no [invalid_type] issue exactly on the objects
    whose company, techs and price are strings. *)
Theorem type_issues_spec data p :
  type_issues (raw_spotSchema data p) = [] ↔ well_typed data = true.
Proof.
  rewrite type_issues_nil. unfold well_typed, raw_spotSchema, raw_object.
  rewrite !andb_true_iff, bool_decide_eq_true.
  destruct (getParsedType data) eqn:Ht; simpl;
    try (rewrite Forall_singleton; split; [by intros []|by intros [[[? _] _] _]]).
  rewrite !Forall_app, !raw_string_codes, raw_price_codes.
  pose proof (raw_thumbnail_codes (property "thumbnail" data) (p ++ ["thumbnail"])).
  rewrite Forall_nil. tauto.
Qed.

(** C36. On the object the page hands to the schema, the schema of the
    library, which starts from a value of any type, answers what the typed
    schema answers (status, value and issues, at any path) and raises no
    [invalid_type] issue. *)
Theorem raw_spotSchema_typed d p :
  raw_spotSchema (of_Input d) p = lift of_Output (spotSchema d p)
  ∧ type_issues (raw_spotSchema (of_Input d) p) = [].
Proof. split; [apply raw_spotSchema_lift|by apply type_issues_spec]. Qed.

(** [safeParse] of the two schemas. *)
Lemma raw_safeParse_typed d :
  safeParse raw_spotSchema (of_Input d)
  = match safeParse spotSchema d with
    | SafeParseSuccess o => SafeParseSuccess (of_Output o)
    | SafeParseError e => SafeParseError e
    end.
Proof.
  unfold safeParse. rewrite raw_spotSchema_lift.
  by destruct (spotSchema d []) as [[v|v|] iss].
Qed.

(** Data the page never builds. *)
Example raw_spotSchema_empty_object :
  raw_spotSchema (v_object []) []
  = (INVALID,
     [makeIssue custom ["thumbnail"] msg_thumbnail_required;
      makeIssue invalid_type ["company"] "Required";
      makeIssue invalid_type ["techs"] "Required";
      makeIssue invalid_type ["price"] "Required"]).
Proof. vm_compute. reflexivity. Qed.

Example raw_spotSchema_number :
  raw_spotSchema (v_number (RoundMVResult false 3 1)) []
  = (INVALID, [makeIssue invalid_type [] "Expected object, received number"]).
Proof. vm_compute. reflexivity. Qed.

Example raw_spotSchema_strips :
  (raw_spotSchema
     (v_object [("extra", v_boolean true); ("price", v_string []);
                ("techs", v_string (lit "React")); ("company", v_string (lit "Acme"));
                ("thumbnail", v_null)]) []).1
  = OK (of_Output (Output.mk None (lit "Acme") (lit "React") [])).
Proof. vm_compute. reflexivity. Qed.
