(* ===== verification/Browser.v ===== *)
(** The objects of the browser that the submit handler touches: [FormData]
    with its [append], whose values are files or scalar-value strings, the
    [localStorage] area with [getItem], and the shape of the request handed
    to the HTTP client. *)
From S2P Require Import Prelude JsString Double ParseFloat Zod SpotSchema.
From stdpp Require Import strings gmap.

#[local] Open Scope N_scope.

(** Surrogate code units. *)
Definition isLeadSurrogate (c : N) : bool := (0xD800 <=? c) && (c <=? 0xDBFF).
Definition isTrailSurrogate (c : N) : bool := (0xDC00 <=? c) && (c <=? 0xDFFF).

(** Conversion of a string to a scalar-value string, which [append] applies
    to its string arguments: a surrogate that is not part of a pair becomes
    U+FFFD. *)
Fixpoint toUSVString (s : jsstring) : jsstring :=
  match s with
  | [] => []
  | c :: s' =>
      if isLeadSurrogate c then
        match s' with
        | d :: s'' =>
            if isTrailSurrogate d then c :: d :: toUSVString s''
            else 0xFFFD :: toUSVString s'
        | [] => [0xFFFD]
        end
      else if isTrailSurrogate c then 0xFFFD :: toUSVString s'
      else c :: toUSVString s'
  end.

(** A string in which every surrogate is half of a pair. *)
Fixpoint well_formed (s : jsstring) : bool :=
  match s with
  | [] => true
  | c :: s' =>
      if isLeadSurrogate c then
        match s' with
        | d :: s'' => isTrailSurrogate d && well_formed s''
        | [] => false
        end
      else negb (isTrailSurrogate c) && well_formed s'
  end.

(** What the conversion may do to one code unit: keep it, or put U+FFFD in
    the place of a surrogate. *)
Definition replaced (c c' : N) : Prop :=
  c' = c ∨ ((isLeadSurrogate c || isTrailSurrogate c) = true ∧ c' = 0xFFFD).

(** The value of an entry of a [FormData]: a string or a file. *)
Inductive FormDataEntryValue :=
| entry_string (s : jsstring)
| entry_file (f : File.t).

(** A [FormData] is its entry list, in insertion order; [new FormData()] is
    empty. *)
Abbreviation FormData := (list (string * FormDataEntryValue)) (only parsing).

(** What [append] may be given here: a string or the thumbnail cell. *)
Inductive AppendArg :=
| arg_string (s : jsstring)
| arg_ref (v : JsRef File.t).

(** The entry value of an argument: a file stays a file; [null] and
    [undefined] are converted to the strings of their names; strings are
    converted to scalar-value strings. *)
Definition entry_value (a : AppendArg) : FormDataEntryValue :=
  match a with
  | arg_string s => entry_string (toUSVString s)
  | arg_ref (js_object f) => entry_file f
  | arg_ref js_null => entry_string (lit "null")
  | arg_ref js_undefined => entry_string (lit "undefined")
  end.

(** [data.append(name, value)]. *)
Definition append (name : string) (value : AppendArg) (data : FormData) : FormData :=
  data ++ [(name, entry_value value)].

(** [data.getAll(name)]: the values of the entries with that name. *)
Definition getAll (name : string) (data : FormData) : list FormDataEntryValue :=
  snd <$> filter (λ e, e.1 = name) data.

(** The [localStorage] area and [getItem], which answers [null] for a key
    that is not there. *)
Abbreviation Storage := (gmap string jsstring) (only parsing).

Definition getItem (key : string) (area : Storage) : option jsstring :=
  area !! key.

(** The request the handler hands to the HTTP client: [api.post(url, data,
    { headers })]. *)
Record Request := {
  url : string;
  body : list (string * FormDataEntryValue);
  headers : list (string * option jsstring);
}.

Lemma toUSVString_plain c s :
  isLeadSurrogate c = false → isTrailSurrogate c = false →
  toUSVString (c :: s) = c :: toUSVString s.
Proof. simpl. by intros -> ->. Qed.

Lemma toUSVString_replaced s :
  toUSVString (0xFFFD :: s) = 0xFFFD :: toUSVString s.
Proof. by apply toUSVString_plain. Qed.

Lemma toUSVString_pair c d s :
  isLeadSurrogate c = true → isTrailSurrogate d = true →
  toUSVString (c :: d :: s) = c :: d :: toUSVString s.
Proof. simpl. by intros -> ->. Qed.

(** A well-formed string goes through [append] unchanged. *)
Lemma toUSVString_fixed s : well_formed s = true → toUSVString s = s.
Proof.
  induction s as [s IH] using (induction_ltof1 _ length). unfold ltof in IH.
  destruct s as [|c s]; [done|]. simpl.
  destruct (isLeadSurrogate c).
  - destruct s as [|d s]; [done|].
    destruct (isTrailSurrogate d); [|done]. simpl. intros H.
    by rewrite IH by (simpl; lia || done).
  - destruct (isTrailSurrogate c); [done|]. simpl. intros H.
    by rewrite IH by (simpl; lia || done).
Qed.

(** The three ways the conversion treats the first unit of a string. *)
Lemma toUSVString_cases c s :
  (∃ d s', s = d :: s' ∧ isLeadSurrogate c = true ∧ isTrailSurrogate d = true
           ∧ toUSVString (c :: s) = c :: d :: toUSVString s')
  ∨ (isLeadSurrogate c = false ∧ isTrailSurrogate c = false
     ∧ toUSVString (c :: s) = c :: toUSVString s)
  ∨ ((isLeadSurrogate c || isTrailSurrogate c) = true
     ∧ toUSVString (c :: s) = 0xFFFD :: toUSVString s).
Proof.
  simpl. destruct (isLeadSurrogate c) eqn:E1.
  - destruct s as [|d s']; [by right; right|].
    destruct (isTrailSurrogate d) eqn:E2; [|by right; right].
    left. by exists d, s'.
  - destruct (isTrailSurrogate c); [by right; right|by right; left].
Qed.

Lemma well_formed_plain c s :
  isLeadSurrogate c = false → isTrailSurrogate c = false →
  well_formed (c :: s) = well_formed s.
Proof. simpl. by intros -> ->. Qed.

Lemma well_formed_pair c d s :
  isLeadSurrogate c = true → isTrailSurrogate d = true →
  well_formed (c :: d :: s) = well_formed s.
Proof. simpl. by intros -> ->. Qed.

(** What [append] stores is always well formed. *)
Lemma toUSVString_scalar s : well_formed (toUSVString s) = true.
Proof.
  induction s as [s IH] using (induction_ltof1 _ length). unfold ltof in IH.
  destruct s as [|c s]; [done|].
  destruct (toUSVString_cases c s)
    as [(d & s' & -> & E1 & E2 & ->)|[(E1 & E2 & ->)|[_ ->]]].
  - rewrite well_formed_pair by done. apply IH. simpl. lia.
  - rewrite well_formed_plain by done. apply IH. simpl. lia.
  - rewrite well_formed_plain by done. apply IH. simpl. lia.
Qed.

(** Converting twice is converting once. *)
Lemma toUSVString_idemp s : toUSVString (toUSVString s) = toUSVString s.
Proof. apply toUSVString_fixed, toUSVString_scalar. Qed.

(** C29. The strings that go through [append] unchanged are exactly the
    well-formed ones: what the server reads back is what was typed if and
    only if no surrogate stands alone in it. *)
Theorem toUSVString_well_formed s : toUSVString s = s ↔ well_formed s = true.
Proof.
  split; [|apply toUSVString_fixed].
  intros <-. apply toUSVString_scalar.
Qed.

(** Unit by unit, the conversion keeps a code unit or puts U+FFFD in the
    place of a surrogate. *)
Lemma toUSVString_units s : Forall2 replaced s (toUSVString s).
Proof.
  induction s as [s IH] using (induction_ltof1 _ length). unfold ltof in IH.
  destruct s as [|c s]; [constructor|].
  destruct (toUSVString_cases c s)
    as [(d & s' & -> & E1 & E2 & ->)|[(E1 & E2 & ->)|[E ->]]].
  - repeat (constructor; [by left|]). apply IH. simpl. lia.
  - constructor; [by left|]. apply IH. simpl. lia.
  - constructor; [by right|]. apply IH. simpl. lia.
Qed.

(** White space is never a surrogate, and the replacement character is not
    white space. *)
Lemma white_space_plain c :
  isStrWhiteSpaceChar c = true →
  (isLeadSurrogate c || isTrailSurrogate c) = false.
Proof.
  unfold isStrWhiteSpaceChar. rewrite bool_decide_eq_true.
  revert c. apply Forall_forall. by repeat constructor.
Qed.

Lemma replaced_white c c' :
  replaced c c' → isStrWhiteSpaceChar c' = isStrWhiteSpaceChar c.
Proof.
  intros [->|[Hc ->]]; [done|].
  destruct (isStrWhiteSpaceChar c) eqn:E; [|done].
  apply white_space_plain in E. congruence.
Qed.

(** The conversion keeps blank strings blank and no others. *)
Lemma toUSVString_blank s : blank (toUSVString s) ↔ blank s.
Proof.
  unfold blank.
  induction (toUSVString_units s) as [|c c' s s' Hc _ IH]; [done|].
  by rewrite !Forall_cons, IH, (replaced_white _ _ Hc).
Qed.

Lemma toUSVString_length s : length (toUSVString s) = length s.
Proof. symmetry. apply (Forall2_length _ _ _ (toUSVString_units s)). Qed.

(** * What the conversion leaves to the price check *)

Lemma ascii_plain c : is_ascii c → (isLeadSurrogate c || isTrailSurrogate c) = false.
Proof.
  unfold is_ascii, isLeadSurrogate, isTrailSurrogate. intros H.
  apply orb_false_iff; split; apply andb_false_iff; left; apply N.leb_gt; lia.
Qed.

Lemma replaced_ascii c c' : replaced c c' → is_ascii c' → c = c'.
Proof. intros [->|[_ ->]] H; [done|]. by vm_compute in H. Qed.

Lemma replaced_ascii_l c c' : replaced c c' → is_ascii c → c' = c.
Proof. intros [->|[Hs ->]] H; [done|]. by rewrite ascii_plain in Hs. Qed.

(** The conversion keeps the prefixes that are ASCII, and adds none. *)
Lemma replaced_ascii_prefix s s' q :
  Forall2 replaced s s' → Forall is_ascii q →
  q `prefix_of` s' ↔ q `prefix_of` s.
Proof.
  intros Hu. revert q. induction Hu as [|c c' s s' Hc _ IH]; intros q Hq; [done|].
  destruct Hq as [|d q Hd Hq]; [split; intros _; apply prefix_nil|].
  split; intros H; pose proof (prefix_cons_inv_1 _ _ _ _ H) as ->;
    apply prefix_cons_inv_2 in H.
  - rewrite <- (replaced_ascii _ _ Hc Hd). by apply prefix_cons, IH.
  - rewrite (replaced_ascii_l _ _ Hc Hd). by apply prefix_cons, IH.
Qed.

Lemma literal_prefix_toUSVString s q :
  literal_prefix (toUSVString s) q ↔ literal_prefix s q.
Proof.
  unfold literal_prefix. split; intros [Hp Hq]; (split; [|done]);
    by apply (replaced_ascii_prefix s (toUSVString s));
      [apply toUSVString_units|apply StrDecimalLiteral_ascii|].
Qed.

Lemma surrogate_not_white c :
  (isLeadSurrogate c || isTrailSurrogate c) = true → isStrWhiteSpaceChar c = false.
Proof.
  intros Hs. destruct (isStrWhiteSpaceChar c) eqn:Hw; [|done].
  apply white_space_plain in Hw. congruence.
Qed.

(** Leading white space is the same before and after the conversion. *)
Lemma trimStart_toUSVString s : trimStart (toUSVString s) = toUSVString (trimStart s).
Proof.
  unfold trimStart. induction s as [|c s IH]; [done|].
  destruct (toUSVString_cases c s)
    as [(d & s' & -> & E1 & E2 & E)|[(E1 & E2 & E)|[Es E]]].
  - assert (isStrWhiteSpaceChar c = false) as Hc
      by (apply surrogate_not_white; by rewrite E1).
    by rewrite (drop_while_stop _ c (d :: s')), E, drop_while_stop.
  - rewrite E. simpl. destruct (isStrWhiteSpaceChar c) eqn:Hw; [done|].
    by rewrite E.
  - rewrite (drop_while_stop _ c s), E by (by apply surrogate_not_white).
    by rewrite drop_while_stop.
Qed.

(** [parseFloat] reads a number in the converted text exactly when it
    reads one in the text, and the price check gives the same verdict on
    both: what the server receives as the price is a price the form
    accepts. *)
Lemma isNaN_parseFloat_toUSVString s :
  isNaN (parseFloat (toUSVString s)) = isNaN (parseFloat s).
Proof.
  apply eq_true_iff_eq. rewrite !parseFloat_NaN, trimStart_toUSVString.
  by setoid_rewrite literal_prefix_toUSVString.
Qed.

Lemma price_ok_toUSVString s : price_ok (toUSVString s) = price_ok s.
Proof.
  unfold price_ok. rewrite isNaN_parseFloat_toUSVString. f_equal.
  unfold strict_eq. apply bool_decide_ext.
  by rewrite <- !length_zero_iff_nil, toUSVString_length.
Qed.

Lemma append_length name value data :
  length (append name value data) = S (length data).
Proof. unfold append. rewrite length_app. simpl. lia. Qed.

Lemma getAll_append name name' value data :
  getAll name (append name' value data)
  = getAll name data ++ (if decide (name' = name) then [entry_value value] else []).
Proof.
  unfold getAll, append. rewrite filter_app, fmap_app. f_equal.
  rewrite filter_cons, filter_nil. simpl. by repeat case_decide.
Qed.
