(* ===== verification/Effects.v ===== *)
(** Handlers as programs: a handler is a finite tree whose nodes are the
    commands it issues to its environment (a state setter, a storage read,
    a request, a navigation) and whose branches are indexed by the answers;
    a leaf is the value it returns or the exception that leaves it.  The
    tree keeps the order of the commands and the point at which the handler
    waits for an answer; the event loop gives the commands their meaning.
    [await] turns the settlement of a promise into a value or an exception,
    [try_catch] is the statement of that name.  Programs form a monad, with
    stdpp's notation, up to the pointwise equivalence [prog_equiv]. *)
From S2P Require Import Prelude.

Section prog.
Context {E : Type → Type} {Err : Type}.

Inductive Prog (R : Type) : Type :=
| Ret (r : R)
| Throw (err : Err)
| Vis {X : Type} (e : E X) (k : X → Prog R).
Arguments Ret {R} r.
Arguments Throw {R} err.
Arguments Vis {R X} e k.

(** A sequence: an exception of the first part leaves the whole. *)
Fixpoint prog_bind {R S} (f : R → Prog S) (m : Prog R) : Prog S :=
  match m with
  | Ret r => f r
  | Throw err => Throw err
  | Vis e k => Vis e (λ x, prog_bind f (k x))
  end.

(** Issue one command and return its answer. *)
Definition trigger {X} (e : E X) : Prog X := Vis e Ret.

(** What a settled promise gives the program that waited for it: its value
    when it was fulfilled, an exception with its reason when it was
    rejected. *)
Definition settled {X} (s : X + Err) : Prog X :=
  match s with
  | inl x => Ret x
  | inr err => Throw err
  end.

(** [await e]: issue the command, whose answer is a settlement. *)
Definition await {X} (e : E (X + Err)) : Prog X := Vis e settled.

(** [try { m } catch (err) { h err }]. *)
Fixpoint try_catch {R} (m : Prog R) (h : Err → Prog R) : Prog R :=
  match m with
  | Ret r => Ret r
  | Throw err => h err
  | Vis e k => Vis e (λ x, try_catch (k x) h)
  end.

(** Equality of programs up to the extensional equality of continuations. *)
Inductive prog_equiv {R} : Prog R → Prog R → Prop :=
| equiv_Ret r : prog_equiv (Ret r) (Ret r)
| equiv_Throw err : prog_equiv (Throw err) (Throw err)
| equiv_Vis {X} (e : E X) k1 k2 :
    (∀ x, prog_equiv (k1 x) (k2 x)) → prog_equiv (Vis e k1) (Vis e k2).

End prog.

Arguments Prog E Err R : clear implicits.
Arguments Ret {E Err R} r.
Arguments Throw {E Err R} err.
Arguments Vis {E Err R X} e k.

#[export] Instance prog_ret {E Err} : MRet (Prog E Err) := λ R, @Ret E Err R.
#[export] Instance prog_mbind {E Err} : MBind (Prog E Err) :=
  λ R S, @prog_bind E Err R S.
#[export] Instance prog_equiv_inst {E Err R} : Equiv (Prog E Err R) := prog_equiv.

(** A command packed with the type of its answer, and an environment as the
    handler sees it: what each command is answered with. *)
Definition Call (E : Type → Type) : Type := { X : Type & E X }.
Definition call {E X} (e : E X) : Call E := existT X e.
Definition Answers (E : Type → Type) : Type := ∀ X, E X → X.

(** The commands a program issues in an environment, in the order it issues
    them, and how it ends: with a value or with an exception. *)
Fixpoint commands {E Err R} (answer : Answers E) (m : Prog E Err R) : list (Call E) :=
  match m with
  | Ret _ | Throw _ => []
  | Vis e k => call e :: commands answer (k (answer _ e))
  end.

Fixpoint result {E Err R} (answer : Answers E) (m : Prog E Err R) : R + Err :=
  match m with
  | Ret r => inl r
  | Throw err => inr err
  | Vis e k => result answer (k (answer _ e))
  end.

(** A handler gives a command its meaning in a state [S]: the state after
    it and its answer. *)
Definition Handler (E : Type → Type) (S : Type) : Type :=
  ∀ X, E X → S → S * X.

(** A program run under a handler: the last state and how the program
    ended. *)
Fixpoint interp {E Err S R} (h : Handler E S) (m : Prog E Err R) (s : S)
    : S * (R + Err) :=
  match m with
  | Ret r => (s, inl r)
  | Throw err => (s, inr err)
  | Vis e k => let '(s', x) := h _ e s in interp h (k x) s'
  end.

(** The commands the program issues on that run. *)
Fixpoint issued {E Err S R} (h : Handler E S) (m : Prog E Err R) (s : S)
    : list (Call E) :=
  match m with
  | Ret _ | Throw _ => []
  | Vis e k => call e :: let '(s', x) := h _ e s in issued h (k x) s'
  end.

(** The handler that gives each command an effect on the state and the
    answer of an environment. *)
Definition answering {E S} (effect : Call E → S → S) (answer : Answers E)
    : Handler E S :=
  λ X e s, (effect (call e) s, answer X e).

Section prog_laws.
Context {E : Type → Type} {Err : Type}.
Implicit Types (err : Err).

#[export] Instance prog_equiv_refl {R} : Reflexive (≡@{Prog E Err R}).
Proof. intros m. induction m; constructor; auto. Qed.

#[export] Instance prog_equiv_sym {R} : Symmetric (≡@{Prog E Err R}).
Proof. intros m1 m2 H. induction H; constructor; auto. Qed.

Lemma prog_equiv_Vis_inv {R X} (e : E X) (k1 : X → Prog E Err R) m :
  Vis e k1 ≡ m → ∃ k2, m = Vis e k2 ∧ ∀ x, k1 x ≡ k2 x.
Proof.
  intros H.
  refine (match H in prog_equiv m1 m2
          return match m1 with
                 | Vis e' k' => ∃ k2, m2 = Vis e' k2 ∧ ∀ x, k' x ≡ k2 x
                 | _ => True
                 end
          with
          | equiv_Vis e' k' k2 Hk => ex_intro _ k2 (conj eq_refl Hk)
          | _ => I
          end).
Qed.

#[export] Instance prog_equiv_trans {R} : Transitive (≡@{Prog E Err R}).
Proof.
  intros m1 m2 m3 H. revert m3.
  induction H as [r|err|X e k1 k2 _ IH]; intros m3 H3; [done..|].
  apply prog_equiv_Vis_inv in H3 as (k3 & -> & Hk).
  constructor. intros x. by apply IH.
Qed.

#[export] Instance prog_equivalence {R} : Equivalence (≡@{Prog E Err R}).
Proof. split; apply _. Qed.

#[export] Instance prog_bind_proper {R S} :
  Proper (pointwise_relation R (≡) ==> (≡) ==> (≡@{Prog E Err S})) mbind.
Proof.
  intros f g Hfg m1 m2 Hm.
  induction Hm as [r|err|X e k1 k2 _ IH]; simpl; [apply Hfg|done|].
  constructor. apply IH.
Qed.

#[export] Instance try_catch_proper {R} :
  Proper ((≡) ==> pointwise_relation Err (≡) ==> (≡@{Prog E Err R})) try_catch.
Proof.
  intros m1 m2 Hm h1 h2 Hh.
  induction Hm as [r|err|X e k1 k2 _ IH]; simpl; [done|apply Hh|].
  constructor. apply IH.
Qed.

Lemma prog_bind_ret_l {R S} (r : R) (f : R → Prog E Err S) : mret r ≫= f = f r.
Proof. done. Qed.

Lemma prog_bind_ret_r {R} (m : Prog E Err R) : m ≫= mret ≡ m.
Proof. induction m; [done..|]. constructor. auto. Qed.

Lemma prog_bind_assoc {R S T} (m : Prog E Err R) (f : R → Prog E Err S)
    (g : S → Prog E Err T) :
  (m ≫= f) ≫= g ≡ m ≫= (λ r, f r ≫= g).
Proof. induction m as [r|err|X e k IH]; [done..|]. constructor. apply IH. Qed.

Lemma prog_bind_trigger {X S} (e : E X) (f : X → Prog E Err S) :
  trigger e ≫= f = Vis e f.
Proof. done. Qed.

(** What follows an [await] runs with the value of a fulfilled promise and
    not at all after a rejected one. *)
Lemma settled_bind {X S} (s : X + Err) (f : X → Prog E Err S) :
  settled s ≫= f = match s with inl x => f x | inr err => Throw err end.
Proof. by destruct s. Qed.

(** A handler that throws again what it caught might as well not be
    there. *)
Lemma try_catch_rethrow {R} (m : Prog E Err R) : try_catch m Throw ≡ m.
Proof. induction m; [done..|]. constructor. auto. Qed.

(** A [try] around a sequence that starts with an [await]: the rest runs
    under the same [catch] after a fulfilment, the [catch] at once after a
    rejection. *)
Lemma try_catch_await {X R} (e : E (X + Err)) (f : X → Prog E Err R) h :
  try_catch (await e ≫= f) h
  ≡ Vis e (λ s, match s with inl x => try_catch (f x) h | inr err => h err end).
Proof. constructor. by intros [x|err]. Qed.

(** Equivalent programs issue the same commands and end in the same way. *)
#[export] Instance commands_proper {R} answer :
  Proper ((≡) ==> (=)) (@commands E Err R answer).
Proof.
  intros m1 m2 H. induction H as [r|err|X e k1 k2 _ IH]; simpl; by f_equal.
Qed.

#[export] Instance result_proper {R} answer :
  Proper ((≡) ==> (=)) (@result E Err R answer).
Proof. intros m1 m2 H. induction H as [r|err|X e k1 k2 _ IH]; [done..|apply IH]. Qed.

(** A sequence issues the commands of its first part, then, unless that
    part threw, those of the second, started with what the first
    returned. *)
Lemma commands_bind {R S} answer (m : Prog E Err R) (f : R → Prog E Err S) :
  commands answer (m ≫= f)
  = commands answer m ++ match result answer m with
                         | inl r => commands answer (f r)
                         | inr _ => []
                         end.
Proof. induction m as [r|err|X e k IH]; simpl; [done..|]. f_equal. apply IH. Qed.

Lemma result_bind {R S} answer (m : Prog E Err R) (f : R → Prog E Err S) :
  result answer (m ≫= f)
  = match result answer m with
    | inl r => result answer (f r)
    | inr err => inr err
    end.
Proof. induction m as [r|err|X e k IH]; simpl; [done..|]. apply IH. Qed.

(** ** Interpretation *)

Section interp_laws.
Context {S : Type} (h : Handler E S).

#[export] Instance interp_proper {R} :
  Proper ((≡) ==> (=) ==> (=)) (@interp E Err S R h).
Proof.
  intros m1 m2 H s ? <-. revert s.
  induction H as [r|err|X e k1 k2 _ IH]; intros s; simpl; [done..|].
  destruct (h X e s) as [s' x]. apply IH.
Qed.

#[export] Instance issued_proper {R} :
  Proper ((≡) ==> (=) ==> (=)) (@issued E Err S R h).
Proof.
  intros m1 m2 H s ? <-. revert s.
  induction H as [r|err|X e k1 k2 _ IH]; intros s; simpl; [done..|].
  f_equal. destruct (h X e s) as [s' x]. apply IH.
Qed.

(** A sequence runs its second part in the state the first part left, with
    what it returned, and not at all when the first part threw. *)
Lemma interp_bind {R T} (m : Prog E Err R) (f : R → Prog E Err T) s :
  interp h (m ≫= f) s
  = match interp h m s with
    | (s', inl r) => interp h (f r) s'
    | (s', inr err) => (s', inr err)
    end.
Proof.
  revert s. induction m as [r|err|X e k IH]; intros s; simpl; [done..|].
  destruct (h X e s) as [s' x]. apply IH.
Qed.

Lemma issued_bind {R T} (m : Prog E Err R) (f : R → Prog E Err T) s :
  issued h (m ≫= f) s
  = issued h m s ++ match interp h m s with
                    | (s', inl r) => issued h (f r) s'
                    | (_, inr _) => []
                    end.
Proof.
  revert s. induction m as [r|err|X e k IH]; intros s; simpl; [done..|].
  f_equal. destruct (h X e s) as [s' x]. apply IH.
Qed.

(** A [catch] runs in the state the body left when it threw. *)
Lemma interp_try_catch {R} (m : Prog E Err R) hc s :
  interp h (try_catch m hc) s
  = match interp h m s with
    | (s', inl r) => (s', inl r)
    | (s', inr err) => interp h (hc err) s'
    end.
Proof.
  revert s. induction m as [r|err|X e k IH]; intros s; simpl; [done..|].
  destruct (h X e s) as [s' x]. apply IH.
Qed.

End interp_laws.

(** Under a handler that answers as an environment does, the program issues
    the commands it issues in that environment, ends as it ends there, and
    the state has gone through the effects of those commands in order. *)
Lemma interp_answering {S R} (effect : Call E → S → S) answer
    (m : Prog E Err R) s :
  interp (answering effect answer) m s
  = (foldl (flip effect) s (commands answer m), result answer m)
  ∧ issued (answering effect answer) m s = commands answer m.
Proof.
  revert s. induction m as [r|err|X e k IH]; intros s; simpl; [done..|].
  destruct (IH (answer X e) (effect (call e) s)) as [-> ->]. done.
Qed.

End prog_laws.
