(* ===== verification/NewPage.v ===== *)
(** The component [New] (src/src/pages/New/index.jsx, lines 30-73): its five
    state cells with their setters, the change handlers of the four inputs,
    and the submit handler as a program over the commands it issues. *)
From S2P Require Import Prelude JsString ParseFloat Zod SpotSchema Browser Effects.
From stdpp Require Import strings gmap.

#[local] Open Scope chain_scope.

(** The state cells, one per [useState]. *)
Record State := {
  thumbnail : JsRef File.t;
  company : jsstring;
  techs : jsstring;
  price : jsstring;
  errors : gmap string (list string);
}.

(** The initial values given to [useState]. *)
Definition initial : State :=
  {| thumbnail := js_null; company := []; techs := []; price := [];
     errors := ∅ |}.

Definition setThumbnail (v : JsRef File.t) (st : State) : State :=
  {| thumbnail := v; company := company st; techs := techs st;
     price := price st; errors := errors st |}.

Definition setCompany (v : jsstring) (st : State) : State :=
  {| thumbnail := thumbnail st; company := v; techs := techs st;
     price := price st; errors := errors st |}.

Definition setTechs (v : jsstring) (st : State) : State :=
  {| thumbnail := thumbnail st; company := company st; techs := v;
     price := price st; errors := errors st |}.

Definition setPrice (v : jsstring) (st : State) : State :=
  {| thumbnail := thumbnail st; company := company st; techs := techs st;
     price := v; errors := errors st |}.

Definition setErrors (v : gmap string (list string)) (st : State) : State :=
  {| thumbnail := thumbnail st; company := company st; techs := techs st;
     price := price st; errors := v |}.

(** [files[0]] of a file list: [undefined] when the list is empty. *)
Definition files_0 (files : list File.t) : JsRef File.t :=
  match files with
  | f :: _ => js_object f
  | [] => js_undefined
  end.

(** The [onChange] handlers of the file input and of the text inputs. *)
Definition onChange_thumbnail (files : list File.t) (st : State) : State :=
  setThumbnail (files_0 files) st.

Definition onChange_company (value : jsstring) (st : State) : State :=
  setCompany value st.

Definition onChange_techs (value : jsstring) (st : State) : State :=
  setTechs value st.

Definition onChange_price (value : jsstring) (st : State) : State :=
  setPrice value st.

(** What the HTTP client resolves a request with, and the reason it rejects
    one with, as an opaque description. *)
Record Response := { http_status : N }.

Abbreviation JsError := string (only parsing).

(** The commands of the submit handler, each with the type of its answer.
    The answer of [api.post] is the settlement of the promise it returns:
    a response, or the reason of a rejection. *)
Inductive Cmd : Type → Type :=
| preventDefault : Cmd unit
| do_setErrors (v : gmap string (list string)) : Cmd unit
| localStorage_getItem (key : string) : Cmd (option jsstring)
| api_post (req : Request) : Cmd (Response + JsError)
| navigate (to : string) : Cmd unit.

(** An async function of the page: a program over these commands that ends
    with a value or with an exception. *)
Abbreviation Async := (Prog Cmd JsError) (only parsing).

(** The object literal [{ thumbnail, company, techs, price }]. *)
Definition formData (st : State) : Input.t :=
  Input.mk (thumbnail st) (company st) (techs st) (price st).

(** The [FormData] the handler fills, in the order of its four [append]s. *)
Definition payload (st : State) : list (string * FormDataEntryValue) :=
  []
  |> append "thumbnail" (arg_ref (thumbnail st))
  |> append "company" (arg_string (company st))
  |> append "techs" (arg_string (techs st))
  |> append "price" (arg_string (price st)).

(** [handleSubmit], with the state the handler closed over.  The promise of
    [api.post] is awaited outside any [try]: what follows runs when the
    request succeeds, and a rejection leaves the handler as an exception. *)
Definition handleSubmit (st : State) : Async unit :=
  trigger preventDefault;;
  let validation := safeParse spotSchema (formData st) in
  match validation with
  | SafeParseError error =>
      let fieldErrors := fieldErrors (flatten error) in
      trigger (do_setErrors fieldErrors)
  | SafeParseSuccess _ =>
      trigger (do_setErrors ∅);;
      user_id ← trigger (localStorage_getItem "user");
      let data := payload st in
      await (api_post {| url := "/spots"; body := data;
                         headers := [("user_id", user_id)] |});;
      trigger (navigate "/dashboard")
  end.

(** A filled form whose company was typed with spaces around it. *)
Definition spaced : State :=
  {| thumbnail := js_object jpeg_1MB; company := lit " Acme ";
     techs := lit "React, Node"; price := lit "12.50"; errors := ∅ |}.

(** The two shapes of the handler, by the outcome of the validation. *)
Lemma handleSubmit_rejected st :
  accepted (formData st) = false →
  handleSubmit st
  = Vis preventDefault (λ _,
      Vis (do_setErrors (spot_errors (formData st))) Ret).
Proof.
  intros H. unfold handleSubmit, safeParse, spot_errors.
  pose proof (spotSchema_status (formData st) []) as Hs. rewrite H in Hs.
  destruct (spotSchema (formData st) []) as [[v|v|] iss]; simpl in *; try done.
  destruct (thumbnail st); done.
Qed.

Lemma handleSubmit_accepted st :
  accepted (formData st) = true →
  handleSubmit st
  = Vis preventDefault (λ _,
      Vis (do_setErrors ∅) (λ _,
        Vis (localStorage_getItem "user") (λ user_id,
          Vis (api_post {| url := "/spots"; body := payload st;
                           headers := [("user_id", user_id)] |}) (λ s,
            settled s;; trigger (navigate "/dashboard"))))).
Proof.
  intros H. unfold handleSubmit, safeParse.
  pose proof (spotSchema_status (formData st) []) as Hs. rewrite H in Hs.
  by destruct (spotSchema (formData st) []) as [[v|v|] iss]; simplify_eq/=.
Qed.

(** C37. In any environment the handler issues its commands in one of two
    orders.  It prevents the default action first and stores the outcome of
    the validation second; a rejected draft ends there.  An accepted draft
    reads the user from the storage and posts once, with the user it read in
    the header; it navigates last when the environment fulfils the promise
    of the request, and issues nothing more when it rejects it. *)
Theorem handleSubmit_commands (answer : Answers Cmd) st :
  commands answer (handleSubmit st)
  = call preventDefault ::
    if accepted (formData st)
    then
      let req := {| url := "/spots"; body := payload st;
                    headers := [("user_id", answer _ (localStorage_getItem "user"))] |} in
      [call (do_setErrors ∅); call (localStorage_getItem "user");
       call (api_post req)]
      ++ match answer _ (api_post req) with
         | inl _ => [call (navigate "/dashboard")]
         | inr _ => []
         end
    else [call (do_setErrors (spot_errors (formData st)))].
Proof.
  destruct (accepted (formData st)) eqn:Ha.
  - rewrite handleSubmit_accepted by done. simpl.
    by destruct (answer _ (api_post _)).
  - by rewrite handleSubmit_rejected.
Qed.

(** How the handler ends: with an exception exactly when the draft was
    accepted and the environment rejects the promise of the request, and
    the exception is then the reason of the rejection. *)
Lemma handleSubmit_result (answer : Answers Cmd) st :
  result answer (handleSubmit st)
  = if accepted (formData st)
    then match answer _ (api_post
                 {| url := "/spots"; body := payload st;
                    headers := [("user_id", answer _ (localStorage_getItem "user"))] |})
         with
         | inl _ => inl ()
         | inr err => inr err
         end
    else inl ().
Proof.
  destruct (accepted (formData st)) eqn:Ha.
  - rewrite handleSubmit_accepted by done. simpl.
    destruct (answer _ (api_post _)); simpl; [|done].
    by destruct (answer unit (navigate "/dashboard")).
  - rewrite handleSubmit_rejected by done. simpl.
    by destruct (answer unit (do_setErrors _)).
Qed.

(** C27. What is posted is what was typed, not what the validator returned: the
    text parts are the cells as they are, while the validated draft holds
    the company and the techs trimmed. *)
Theorem payload_raw st :
  accepted (formData st) = true →
  safeParse spotSchema (formData st) = SafeParseSuccess (normalise (formData st))
  ∧ Output.company (normalise (formData st)) = trim (company st)
  ∧ getAll "company" (payload st) = [entry_string (toUSVString (company st))]
  ∧ getAll "techs" (payload st) = [entry_string (toUSVString (techs st))].
Proof.
  intros Ha. split_and!; try done.
  pose proof (spotSchema_status (formData st) []) as Hs. rewrite Ha in Hs.
  unfold safeParse. by destruct (spotSchema (formData st) []) as [[]]; simplify_eq/=.
Qed.

Lemma payload_raw_witness :
  safeParse spotSchema (formData spaced)
  = SafeParseSuccess (normalise (formData spaced))
  ∧ Output.company (normalise (formData spaced)) = trim (company spaced)
  ∧ getAll "company" (payload spaced)
    = [entry_string (toUSVString (company spaced))]
  ∧ getAll "techs" (payload spaced)
    = [entry_string (toUSVString (techs spaced))].
Proof. apply (payload_raw spaced). vm_compute. reflexivity. Defined.
