(* ===== verification/Render.v ===== *)
(** What the component renders (src/src/pages/New/index.jsx, lines 39-41 and
    84-130): the memoised preview URL of the thumbnail, with the object URLs
    the browser holds for it, and the element tree of the form as a function
    of the state. *)
From S2P Require Import Prelude JsString Zod SpotSchema NewPage.
From stdpp Require Import strings gmap.

(** The handlers the tree refers to. *)
Inductive Handler :=
| on_submit
| on_pick
| on_company
| on_techs
| on_price.

(** The value of an attribute: a literal of the program, a string of the
    state, a handler, or an imported asset. *)
Inductive AttrValue :=
| av_lit (s : string)
| av_str (s : jsstring)
| av_handler (h : Handler)
| av_asset (name : string).

#[export] Instance Handler_eq_dec : EqDecision Handler.
Proof. solve_decision. Defined.

#[export] Instance AttrValue_eq_dec : EqDecision AttrValue.
Proof. solve_decision. Defined.

(** An element tree: text (a literal or a message), or an element with its
    tag, attributes and children. *)
#[warnings="-register-all"]
Inductive VNode :=
| vtext (s : string)
| velem (tag : string) (attrs : list (string * AttrValue)) (children : list VNode).

(** [Object.is] on two thumbnail cells, as [useMemo] applies it to its
    dependency: [null] and [undefined] are the same as themselves only, and
    two files are the same when they are the same object, that is, equal
    with their identity ([File.id], see [File.t] in [SpotSchema]). *)
Definition Object_is (a b : JsRef File.t) : bool :=
  match a, b with
  | js_null, js_null => true
  | js_undefined, js_undefined => true
  | js_object f, js_object g => bool_decide (f = g)
  | _, _ => false
  end.

(** The files of one document: no two objects share an identity. *)
Definition heap_ok (files : list File.t) : Prop :=
  ∀ f g, f ∈ files → g ∈ files → File.id f = File.id g → f = g.

(** The cell of [useMemo]: the dependency and the value of the last
    computation, or nothing before the first render. *)
Abbreviation Memo := (option (JsRef File.t * option jsstring)) (only parsing).

(** The object URLs the document holds, oldest first, each with its file. *)
Abbreviation UrlStore := (list (jsstring * File.t)) (only parsing).

Section render.
(** The URL the browser mints as the [n]-th of the document; two different
    mints never give the same URL. *)
Context (mint : nat → jsstring) `{!Inj (=) (=) mint}.

(** [URL.createObjectURL(file)]. *)
Definition createObjectURL (f : File.t) (store : UrlStore) : jsstring * UrlStore :=
  let u := mint (length store) in (u, store ++ [(u, f)]).

(** The function given to [useMemo]:
    [thumbnail ? URL.createObjectURL(thumbnail) : null]. *)
Definition compute_preview (thumbnail : JsRef File.t) (store : UrlStore)
    : option jsstring * UrlStore :=
  match thumbnail with
  | js_object f =>
      let '(u, store') := createObjectURL f store in (Some u, store')
  | _ => (None, store)
  end.

(** [useMemo(..., [thumbnail])]: recompute when there is no previous value
    or the dependency changed. *)
Definition useMemo_preview (thumbnail : JsRef File.t) (memo : Memo)
    (store : UrlStore) : option jsstring * Memo * UrlStore :=
  match memo with
  | Some (dep, v) =>
      if Object_is dep thumbnail then (v, memo, store)
      else
        let '(v', store') := compute_preview thumbnail store in
        (v', Some (thumbnail, v'), store')
  | None =>
      let '(v', store') := compute_preview thumbnail store in
      (v', Some (thumbnail, v'), store')
  end.

(** The template literal [`url(${preview})`]. *)
Definition css_url (preview : option jsstring) : jsstring :=
  lit "url(" ++ default (lit "null") preview ++ lit ")".

(** [errors.key && <span className="error-message">{errors.key[0]}</span>]:
    nothing when the key is absent; the span holds the first message, or
    nothing when the array is empty. *)
Definition error_span (e : option (list string)) : list VNode :=
  match e with
  | None => []
  | Some ms =>
      [velem "span" [("className", av_lit "error-message")]
         (match ms with m :: _ => [vtext m] | [] => [] end)]
  end.

(** The imported picture of a camera, an asset named by its file. *)
Definition camera : AttrValue := av_asset "camera.svg".

(** A text input bound to a cell. *)
Definition text_input (id placeholder : string) (value : jsstring)
    (h : Handler) : VNode :=
  velem "input"
    [("type", av_lit "text"); ("id", av_lit id);
     ("placeholder", av_lit placeholder); ("value", av_str value);
     ("onChange", av_handler h)] [].

Definition label_for (id text : string) : VNode :=
  velem "label" [("htmlFor", av_lit id)] [vtext text].

(** The tree the component returns. *)
Definition view (st : State) (preview : option jsstring) : VNode :=
  velem "form" [("onSubmit", av_handler on_submit)]
    ([velem "label"
        [("id", av_lit "thumbnail");
         ("style.backgroundImage", av_str (css_url preview));
         ("className",
          av_lit (if truthy (thumbnail st) then "has-thumbnail" else ""))]
        [velem "input" [("type", av_lit "file");
                        ("onChange", av_handler on_pick)] [];
         velem "img" [("src", camera);
                      ("alt", av_lit "Select img")] []]]
     ++ error_span (errors st !! "thumbnail")
     ++ [label_for "company" "*EMPRESA";
         text_input "company" "Sua empresa incrível" (company st) on_company]
     ++ error_span (errors st !! "company")
     ++ [label_for "techs" "*TECNOLOGIAS (separadas por vírgula)";
         text_input "techs" "Quais tecnologias usam?" (techs st) on_techs]
     ++ error_span (errors st !! "techs")
     ++ [label_for "price" "*VALOR DA DIÁRIA (em branco para GRATUITO) ";
         text_input "price" "Valor cobrado por dia" (price st) on_price]
     ++ error_span (errors st !! "price")
     ++ [velem "button" [("type", av_lit "submit"); ("className", av_lit "btn")]
           [vtext "Cadastrar"]]).

(** One render of the component. *)
Definition render (st : State) (memo : Memo) (store : UrlStore)
    : VNode * Memo * UrlStore :=
  let '(preview, memo', store') := useMemo_preview (thumbnail st) memo store in
  (view st preview, memo', store').

(** The object URLs of a document are numbered in the order of their
    creation. *)
Definition store_ok (store : UrlStore) : Prop :=
  ∀ i u f, store !! i = Some (u, f) → u = mint i.

End render.

(** A way of minting URLs: the scheme followed by [n] strokes. *)
Definition blob (n : nat) : jsstring := lit "blob:" ++ replicate n 0x7C%N.

(** ** What a reader of the tree sees *)

(** The handlers an element tree refers to, in document order. *)
Definition attr_handlers (attrs : list (string * AttrValue)) : list Handler :=
  omap (λ a, match a.2 with av_handler h => Some h | _ => None end) attrs.

Fixpoint handlers (n : VNode) : list Handler :=
  match n with
  | vtext _ => []
  | velem _ attrs children => attr_handlers attrs ++ concat (handlers <$> children)
  end.

(** The values the text inputs display, in document order. *)
Definition attr_values (attrs : list (string * AttrValue)) : list jsstring :=
  omap (λ a, match a with
             | (name, av_str v) => if decide (name = "value") then Some v else None
             | _ => None
             end) attrs.

Fixpoint values (n : VNode) : list jsstring :=
  match n with
  | vtext _ => []
  | velem _ attrs children => attr_values attrs ++ concat (values <$> children)
  end.

(** The messages shown in the elements of class [error-message], in document
    order. *)
Definition texts (children : list VNode) : list string :=
  omap (λ c, match c with vtext m => Some m | _ => None end) children.

Definition is_error_span (attrs : list (string * AttrValue)) : bool :=
  bool_decide (("className", av_lit "error-message") ∈ attrs).

Fixpoint error_texts (n : VNode) : list string :=
  match n with
  | vtext _ => []
  | velem _ attrs children =>
      if is_error_span attrs then texts children
      else concat (error_texts <$> children)
  end.

(** The preview [v] is right for the cell [thumbnail]: nothing for a falsy
    cell, an object URL the document holds for that very file otherwise. *)
Definition preview_ok (thumbnail : JsRef File.t) (v : option jsstring)
    (store : UrlStore) : Prop :=
  match thumbnail with
  | js_object f => ∃ u, v = Some u ∧ (u, f) ∈ store
  | _ => v = None
  end.

Definition memo_ok (memo : Memo) (store : UrlStore) : Prop :=
  match memo with
  | Some (dep, v) => preview_ok dep v store
  | None => True
  end.

#[export] Instance blob_inj : Inj (=) (=) blob.
Proof.
  intros n m H. unfold blob in H. apply app_inv_head in H.
  apply (f_equal length) in H. by rewrite !length_replicate in H.
Qed.

Section render_lemmas.
Context (mint : nat → jsstring) `{!Inj (=) (=) mint}.
Implicit Types (st : State) (store : list (jsstring * File.t)).

Lemma Object_is_true a b : Object_is a b = true ↔ a = b.
Proof.
  destruct a, b; simpl; try (split; congruence).
  rewrite bool_decide_eq_true. split; congruence.
Qed.

Lemma Object_is_refl a : Object_is a a = true.
Proof. by apply Object_is_true. Qed.

(** On the files of a document [Object.is] is the comparison of
    identities: comparing the records is comparing the references. *)
Lemma Object_is_identity files f g :
  heap_ok files → f ∈ files → g ∈ files →
  Object_is (js_object f) (js_object g) = bool_decide (File.id f = File.id g).
Proof.
  intros H Hf Hg. simpl. apply bool_decide_ext.
  split; [by intros ->|by apply H].
Qed.

Lemma preview_ok_mono t v store store' :
  store `prefix_of` store' → preview_ok t v store → preview_ok t v store'.
Proof.
  intros [k ->]. destruct t; simpl; try done.
  intros (u & -> & Hu). exists u. split; [done|]. set_solver.
Qed.

Lemma memo_ok_mono memo store store' :
  store `prefix_of` store' → memo_ok memo store → memo_ok memo store'.
Proof. destruct memo as [[dep v]|]; simpl; eauto using preview_ok_mono. Qed.

Lemma compute_preview_spec t store :
  preview_ok t (compute_preview mint t store).1 (compute_preview mint t store).2
  ∧ store `prefix_of` (compute_preview mint t store).2.
Proof.
  destruct t as [| |f]; simpl; [done..|]. split.
  - eexists. split; [done|]. set_solver.
  - by apply prefix_app_r.
Qed.

Lemma store_ok_create f store :
  store_ok mint store → store_ok mint (createObjectURL mint f store).2.
Proof.
  intros H i u g. simpl.
  intros [[_ Hi]|[-> [= <- <-]]]%lookup_snoc_Some; eauto.
Qed.

Lemma store_ok_compute t store :
  store_ok mint store → store_ok mint (compute_preview mint t store).2.
Proof.
  intros H. destruct t as [| |f]; [done..|]. apply (store_ok_create f _ H).
Qed.

Lemma store_ok_nil : store_ok mint [].
Proof. by intros i u f. Qed.

(** The memoised preview is right for the current cell, the cell of the memo
    stays right, and no URL of the document is dropped. *)
Lemma useMemo_preview_ok t memo store :
  memo_ok memo store →
  let '(v, memo', store') := useMemo_preview mint t memo store in
  preview_ok t v store' ∧ memo' = Some (t, v) ∧ store `prefix_of` store'.
Proof.
  intros Hm. unfold useMemo_preview.
  pose proof (compute_preview_spec t store) as [Hc Hp].
  destruct memo as [[dep v]|].
  - destruct (Object_is dep t) eqn:E.
    + apply Object_is_true in E as ->. done.
    + by destruct (compute_preview mint t store).
  - by destruct (compute_preview mint t store).
Qed.

Lemma useMemo_store_ok t memo store :
  store_ok mint store → store_ok mint (useMemo_preview mint t memo store).2.
Proof.
  intros H. unfold useMemo_preview.
  pose proof (store_ok_compute t store H).
  destruct memo as [[dep v]|]; [destruct (Object_is dep t)|];
    by destruct (compute_preview mint t store).
Qed.

(** A cell that did not change costs nothing: the URL of the last render is
    used again and the document holds no new one. *)
Lemma useMemo_preview_hit t v store :
  useMemo_preview mint t (Some (t, v)) store = (v, Some (t, v), store).
Proof. unfold useMemo_preview. by rewrite Object_is_refl. Qed.

(** A new file costs one URL, and the URL of the file before it stays in the
    document. *)
Lemma useMemo_preview_miss f dep v store :
  dep ≠ js_object f →
  useMemo_preview mint (js_object f) (Some (dep, v)) store
  = (Some (mint (length store)),
     Some (js_object f, Some (mint (length store))),
     store ++ [(mint (length store), f)]).
Proof.
  intros Hne. unfold useMemo_preview.
  destruct (Object_is dep (js_object f)) eqn:E; [|done].
  by apply Object_is_true in E.
Qed.

(** C24. One render: the tree is the view of the state with a preview that
    is right for the thumbnail cell (nothing for a falsy cell, an object
    URL the document holds for that very file otherwise), the memo cell
    records the cell and that preview, and no URL of the document is
    dropped. *)
Theorem render_spec st memo store :
  memo_ok memo store →
  let '(t, memo', store') := render mint st memo store in
  ∃ preview,
    t = view st preview ∧ preview_ok (thumbnail st) preview store'
    ∧ memo' = Some (thumbnail st, preview) ∧ store `prefix_of` store'.
Proof.
  intros Hm. unfold render.
  pose proof (useMemo_preview_ok (thumbnail st) memo store Hm) as Hs.
  destruct (useMemo_preview mint (thumbnail st) memo store) as [[v m'] u'].
  destruct Hs as (Hv & -> & Hp). by exists v.
Qed.

(** Rendering twice in a row is rendering once. *)
Theorem render_idempotent st memo store :
  let '(_, memo', store') := render mint st memo store in
  render mint st memo' store' = render mint st memo store.
Proof.
  unfold render, useMemo_preview.
  destruct memo as [[dep v]|].
  - destruct (Object_is dep (thumbnail st)) eqn:E; [by rewrite E|].
    destruct (compute_preview mint (thumbnail st) store) as [v' store'].
    by rewrite Object_is_refl.
  - destruct (compute_preview mint (thumbnail st) store) as [v' store'].
    by rewrite Object_is_refl.
Qed.

(** No two object URLs of a document are the same. *)
Lemma store_ok_NoDup store : store_ok mint store → NoDup store.*1.
Proof.
  intros H. apply NoDup_alt. intros i j u Hi Hj.
  rewrite list_lookup_fmap in Hi, Hj.
  destruct (store !! i) as [[u1 f1]|] eqn:Ei; [|done].
  destruct (store !! j) as [[u2 f2]|] eqn:Ej; [|done].
  simplify_eq/=. apply H in Ei, Ej. apply (inj mint). congruence.
Qed.

End render_lemmas.

Section view_lemmas.
Implicit Types (st : State) (e : option (list string)).

Lemma handlers_error_span e : concat (handlers <$> error_span e) = [].
Proof. by destruct e as [[|m ms]|]. Qed.

Lemma values_error_span e : concat (values <$> error_span e) = [].
Proof. by destruct e as [[|m ms]|]. Qed.

Lemma error_texts_error_span e :
  concat (error_texts <$> error_span e) = option_list (e ≫= head).
Proof. by destruct e as [[|m ms]|]. Qed.

(** The tree binds the five handlers of the component, each once. *)
Lemma view_handlers st preview :
  handlers (view st preview)
  = [on_submit; on_pick; on_company; on_techs; on_price].
Proof.
  unfold view. cbn [handlers].
  rewrite !fmap_app, !concat_app, !handlers_error_span. reflexivity.
Qed.

(** The text inputs are controlled: they display the three cells. *)
Lemma view_values st preview :
  values (view st preview) = [company st; techs st; price st].
Proof.
  unfold view. cbn [values].
  rewrite !fmap_app, !concat_app, !values_error_span. reflexivity.
Qed.

(** Under each field the tree shows the first message of that field, and
    nothing else is shown as an error. *)
Lemma view_error_texts st preview :
  error_texts (view st preview)
  = omap (λ k, errors st !! k ≫= head) field_names.
Proof.
  unfold view. cbn [error_texts].
  replace (is_error_span [("onSubmit", av_handler on_submit)]) with false
    by done.
  rewrite !fmap_app, !concat_app, !error_texts_error_span.
  unfold field_names. cbn [omap list_omap].
  destruct (truthy (thumbnail st)), (errors st !! "thumbnail" ≫= head),
    (errors st !! "company" ≫= head), (errors st !! "techs" ≫= head),
    (errors st !! "price" ≫= head); reflexivity.
Qed.

(** C26. What a reader of the tree finds in it, whatever the state: the five
    handlers of the component, each bound once; the three text cells as the
    values of the inputs; and as error texts, in field order, the first
    message of each key of the errors cell, nothing for a key that holds an
    empty array. *)
Theorem view_reads st preview :
  handlers (view st preview)
  = [on_submit; on_pick; on_company; on_techs; on_price]
  ∧ values (view st preview) = [company st; techs st; price st]
  ∧ error_texts (view st preview)
    = omap (λ k, errors st !! k ≫= head) field_names.
Proof.
  split_and!; [apply view_handlers|apply view_values|apply view_error_texts].
Qed.

End view_lemmas.

(** * A sample render *)

Lemma render_spec_witness :
  let '(t, memo', store') :=
    render blob (setThumbnail (js_object jpeg_1MB) initial)
      (Some (js_null, None)) [] in
  ∃ preview,
    t = view (setThumbnail (js_object jpeg_1MB) initial) preview
    ∧ preview_ok (js_object jpeg_1MB) preview store'
    ∧ memo' = Some (js_object jpeg_1MB, preview) ∧ [] `prefix_of` store'.
Proof.
  apply (render_spec blob (setThumbnail (js_object jpeg_1MB) initial)
           (Some (js_null, None)) []).
  reflexivity.
Defined.
