(* ===== verification/EventLoop.v ===== *)
(** The page at run time: the component's state, the browser's storage, the
    router's location, the requests that were issued, the handlers that
    wait for an answer and the rejections nothing handled.  [dispatch] is
    what the tree binds to the events of the user (src/src/pages/New/
    index.jsx, lines 85, 92, 103, 112 and 124); [exec] and [step] are the
    browser's part: a handler runs to its end or to its [await], and the
    settlement of its request resumes it, with the response or with an
    exception.  The theorems are the invariants of the reachable worlds. *)
From S2P Require Import Prelude JsString ParseFloat Zod SpotSchema Browser Effects NewPage.
From stdpp Require Import strings gmap.

(** A handler suspended at [await]: its request and what it does once the
    promise of the request is settled. *)
Record Pending := {
  p_request : Request;
  p_resume : Response + JsError → Async unit;
}.

Record World := {
  component : State;
  storage : gmap string jsstring;
  location : string;
  prevented : nat;
  requests : list Request;
  pending : list Pending;
  rejections : list string;
}.

(** The world in which the page is first shown at [here]. *)
Definition start (here : string) (area : gmap string jsstring) : World :=
  {| component := initial; storage := area; location := here; prevented := 0;
     requests := []; pending := []; rejections := [] |}.

Definition with_component (f : State → State) (w : World) : World :=
  {| component := f (component w); storage := storage w;
     location := location w; prevented := prevented w;
     requests := requests w; pending := pending w;
     rejections := rejections w |}.

Definition with_storage (area : gmap string jsstring) (w : World) : World :=
  {| component := component w; storage := area; location := location w;
     prevented := prevented w; requests := requests w; pending := pending w;
     rejections := rejections w |}.

Definition with_location (to : string) (w : World) : World :=
  {| component := component w; storage := storage w; location := to;
     prevented := prevented w; requests := requests w; pending := pending w;
     rejections := rejections w |}.

Definition with_prevented (w : World) : World :=
  {| component := component w; storage := storage w;
     location := location w; prevented := S (prevented w);
     requests := requests w; pending := pending w;
     rejections := rejections w |}.

Definition with_await (req : Request) (k : Response + JsError → Async unit)
    (w : World) : World :=
  {| component := component w; storage := storage w;
     location := location w; prevented := prevented w;
     requests := requests w ++ [req];
     pending := pending w ++ [{| p_request := req; p_resume := k |}];
     rejections := rejections w |}.

Definition with_pending (ps : list Pending) (w : World) : World :=
  {| component := component w; storage := storage w;
     location := location w; prevented := prevented w;
     requests := requests w; pending := ps; rejections := rejections w |}.

Definition with_rejection (err : string) (w : World) : World :=
  {| component := component w; storage := storage w;
     location := location w; prevented := prevented w;
     requests := requests w; pending := pending w;
     rejections := rejections w ++ [err] |}.

(** Run a handler until it returns, waits for the network, or is left by
    an exception, which nothing handles then. *)
Fixpoint exec (m : Async unit) (w : World) : World :=
  match m with
  | Ret _ => w
  | Throw err => with_rejection err w
  | Vis e k =>
      match e in Cmd X return (X → Async unit) → World with
      | preventDefault => λ k, exec (k ()) (with_prevented w)
      | do_setErrors v => λ k, exec (k ()) (with_component (setErrors v) w)
      | localStorage_getItem key => λ k, exec (k (getItem key (storage w))) w
      | api_post req => λ k, with_await req k w
      | navigate to => λ k, exec (k ()) (with_location to w)
      end k
  end.

(** What happens to the page. *)
Inductive Event :=
| ev_pick (files : list File.t)
| ev_company (value : jsstring)
| ev_techs (value : jsstring)
| ev_price (value : jsstring)
| ev_submit
| ev_storage (key : string) (value : option jsstring)
| ev_fulfil (i : nat) (r : Response)
| ev_reject (i : nat) (err : string).

(** What the tree binds to the events of the user: [onChange] of the four
    inputs and [onSubmit] of the form, the latter with the state of the
    last render; [None] for an event that is not the user's. *)
Definition dispatch (ev : Event) (w : World) : option World :=
  match ev with
  | ev_pick files => Some (with_component (onChange_thumbnail files) w)
  | ev_company v => Some (with_component (onChange_company v) w)
  | ev_techs v => Some (with_component (onChange_techs v) w)
  | ev_price v => Some (with_component (onChange_price v) w)
  | ev_submit => Some (exec (handleSubmit (component w)) w)
  | _ => None
  end.

(** The settlement of the request at place [i] among those that wait: its
    handler leaves the list and goes on with the settlement; [None] when
    nothing waits there. *)
Definition resume (i : nat) (s : Response + JsError) (w : World) : option World :=
  p ← pending w !! i;
  Some (exec (p_resume p s) (with_pending (delete i (pending w)) w)).

(** One step: an event of the user, a change of the storage made
    elsewhere, or a settlement. *)
Definition step (ev : Event) (w : World) : option World :=
  match ev with
  | ev_storage key value =>
      Some (with_storage (partial_alter (λ _, value) key (storage w)) w)
  | ev_fulfil i r => resume i (inl r) w
  | ev_reject i err => resume i (inr err) w
  | _ => dispatch ev w
  end.

(** A sequence of steps, oldest first. *)
Fixpoint run (evs : list Event) (w : World) : option World :=
  match evs with
  | [] => Some w
  | ev :: evs' => w' ← step ev w; run evs' w'
  end.

(** The worlds the page can be in. *)
Inductive reachable (here : string) (area : gmap string jsstring) : World → Prop :=
| reach_start : reachable here area (start here area)
| reach_step w ev w' :
    reachable here area w → step ev w = Some w' → reachable here area w'.

(** The request a submit of the state [st] issues when the storage answers
    [user_id], and what the handler does once it is answered. *)
Definition request_of (st : State) (user_id : option jsstring) : Request :=
  {| url := "/spots"; body := payload st; headers := [("user_id", user_id)] |}.

Definition after_post : Response + JsError → Async unit :=
  λ s, settled s;; trigger (navigate "/dashboard").

(** A request this page can have issued. *)
Definition spot_request (req : Request) : Prop :=
  ∃ st user_id, accepted (formData st) = true ∧ req = request_of st user_id.

(** The error object is one that [flatten] can have produced for the form. *)
Definition errors_ok (e : gmap string (list string)) : Prop :=
  ∀ k ms, e !! k = Some ms →
    k ∈ ["thumbnail"; "company"; "techs"; "price"] ∧ ms ≠ [].

(** The invariant of the reachable worlds. *)
Record world_ok (here : string) (w : World) : Prop := {
  ok_requests : Forall spot_request (requests w);
  ok_pending :
    Forall (λ p, spot_request (p_request p) ∧ p_resume p = after_post)
      (pending w);
  ok_errors : errors_ok (errors (component w));
  ok_location : location w = here ∨ location w = "/dashboard";
  ok_count : length (pending w) ≤ length (requests w);
  ok_prevented : length (requests w) ≤ prevented w;
}.

(** What the parts of a request may hold. *)
Definition thumbnail_part (v : FormDataEntryValue) : Prop :=
  v = entry_string (lit "null")
  ∨ ∃ f, v = entry_file f ∧ (File.size f ≤ MAX_FILE_SIZE)%N
         ∧ File.type f ∈ ACCEPTED_IMAGE_TYPES.

(** The shape of a request of this page: the fixed path, the one header,
    and the four parts in the order of the [append]s, the texts well
    formed, those the schema requires not blank, and the price one the
    price check accepts. *)
Definition well_shaped (req : Request) : Prop :=
  url req = "/spots"
  ∧ (∃ user_id, headers req = [("user_id", user_id)])
  ∧ ∃ v c t pr,
      body req = [("thumbnail", v); ("company", entry_string c);
                  ("techs", entry_string t); ("price", entry_string pr)]
      ∧ thumbnail_part v
      ∧ well_formed c = true ∧ well_formed t = true ∧ well_formed pr = true
      ∧ ¬ blank c ∧ ¬ blank t ∧ price_ok pr = true.

(** Events that settle a pending request, and how many a history has. *)
Definition is_fulfil (ev : Event) : bool :=
  match ev with ev_fulfil _ _ => true | _ => false end.

Definition is_settle (ev : Event) : bool :=
  match ev with ev_fulfil _ _ | ev_reject _ _ => true | _ => false end.

Definition settle_count (evs : list Event) : nat :=
  length (filter (λ ev, is_settle ev = true) evs).

Definition is_submit (ev : Event) : bool :=
  match ev with ev_submit => true | _ => false end.

(** The reasons of the rejections of a history, oldest first. *)
Definition reasons (evs : list Event) : list string :=
  omap (λ ev, match ev with ev_reject _ err => Some err | _ => None end) evs.

(** What a submit issues in a world: the request of the draft with the
    user the storage holds, when the draft is accepted. *)
Definition submitted (w : World) : list Request :=
  if accepted (formData (component w))
  then [request_of (component w) (getItem "user" (storage w))]
  else [].

(** The requests a history issues from a world: those of its submits, each
    taken in the world the submit finds. *)
Fixpoint issues (evs : list Event) (w : World) : list Request :=
  match evs with
  | [] => []
  | ev :: evs' =>
      (if is_submit ev then submitted w else [])
      ++ from_option (issues evs') [] (step ev w)
  end.

(** A sample session: the user picks a picture, fills the form, submits,
    and the request is answered. *)
Definition sample_area : gmap string jsstring := {[ "user" := lit "42" ]}.

Definition sample_edits : list Event :=
  [ev_pick [jpeg_1MB]; ev_company (lit "Acme"); ev_techs (lit "React, Node")].

Definition sample_history : list Event :=
  sample_edits ++ [ev_submit; ev_fulfil 0 {| http_status := 200 |}].

(** A history with a rejected submit, an accepted one and a failure. *)
Definition failed_history : list Event :=
  ev_submit :: sample_edits ++ [ev_submit; ev_reject 0 "Network Error"].

(** The world after a history from the start at [/new], the start itself
    when the history names a request that is not pending. *)
Definition after (evs : list Event) : World :=
  default (start "/new" sample_area) (run evs (start "/new" sample_area)).

(** Two states with the same four input cells. *)
Definition same_cells (a b : State) : Prop :=
  thumbnail a = thumbnail b ∧ company a = company b
  ∧ techs a = techs b ∧ price a = price b.

(** The events by which the user edits a cell. *)
Definition is_edit (ev : Event) : bool :=
  match ev with
  | ev_pick _ | ev_company _ | ev_techs _ | ev_price _ => true
  | _ => false
  end.

(** What the page promises, one rule for each thing that can happen to it:
    an edit writes its cell; a submit of a draft that is not accepted
    stores the field errors; a submit of an accepted draft empties them,
    issues the request and waits; the storage changes; a request that
    waits is fulfilled, and the page leaves for the dashboard; a request
    that waits is rejected, and the reason is left unhandled. *)
Inductive transition (w : World) : Event → World → Prop :=
| t_pick files :
    transition w (ev_pick files)
      (with_component (setThumbnail (files_0 files)) w)
| t_company v : transition w (ev_company v) (with_component (setCompany v) w)
| t_techs v : transition w (ev_techs v) (with_component (setTechs v) w)
| t_price v : transition w (ev_price v) (with_component (setPrice v) w)
| t_invalid :
    accepted (formData (component w)) = false →
    transition w ev_submit
      (with_component (setErrors (spot_errors (formData (component w))))
         (with_prevented w))
| t_valid :
    accepted (formData (component w)) = true →
    transition w ev_submit
      (with_await (request_of (component w) (getItem "user" (storage w)))
         after_post (with_component (setErrors ∅) (with_prevented w)))
| t_storage key value :
    transition w (ev_storage key value)
      (with_storage (partial_alter (λ _, value) key (storage w)) w)
| t_fulfil i r p :
    pending w !! i = Some p →
    transition w (ev_fulfil i r)
      (with_location "/dashboard" (with_pending (delete i (pending w)) w))
| t_reject i err p :
    pending w !! i = Some p →
    transition w (ev_reject i err)
      (with_rejection err (with_pending (delete i (pending w)) w)).

(** * What a handler touches *)

Lemma exec_cells m w : same_cells (component (exec m w)) (component w).
Proof.
  revert w. induction m as [| |X e k IH]; intros w; [done..|].
  destruct e; simpl; first [exact (IH _ _)|done].
Qed.

(** What a suspended submit does once its request is settled: it navigates
    after a fulfilment, and after a rejection it ends with the reason as an
    exception, which nothing handles. *)
Lemma exec_after_post s w :
  exec (after_post s) w
  = match s with
    | inl _ => with_location "/dashboard" w
    | inr err => with_rejection err w
    end.
Proof. by destruct s. Qed.

(** * One submit *)

Lemma exec_rejected st w :
  accepted (formData st) = false →
  exec (handleSubmit st) w
  = with_component (setErrors (spot_errors (formData st))) (with_prevented w).
Proof. intros H. by rewrite handleSubmit_rejected. Qed.

Lemma exec_accepted st w :
  accepted (formData st) = true →
  exec (handleSubmit st) w
  = with_await (request_of st (getItem "user" (storage w))) after_post
      (with_component (setErrors ∅) (with_prevented w)).
Proof. intros H. by rewrite handleSubmit_accepted. Qed.

Lemma spot_errors_ok d : errors_ok (spot_errors d).
Proof.
  intros k ms. rewrite spot_errors_lookup.
  intros [Hk Hne]%nonempty_Some. split; [|done].
  destruct (decide (k ∈ field_names)) as [|Hn]; [done|].
  by rewrite expected_messages_other in Hk; subst.
Qed.

Lemma errors_ok_empty : errors_ok ∅.
Proof. intros k ms. by rewrite lookup_empty. Qed.

Lemma exec_handleSubmit_ok here w :
  world_ok here w → world_ok here (exec (handleSubmit (component w)) w).
Proof.
  intros [Hr Hp He Hl Hc Hv].
  destruct (accepted (formData (component w))) eqn:Ha.
  - rewrite exec_accepted by done. split; simpl.
    + apply Forall_app; split; [done|]. repeat constructor. by eexists _, _.
    + apply Forall_app; split; [done|]. repeat constructor. by eexists _, _.
    + apply errors_ok_empty.
    + done.
    + rewrite !length_app. simpl. lia.
    + rewrite length_app. simpl. lia.
  - rewrite exec_rejected by done. split; simpl; try done; [|lia].
    apply spot_errors_ok.
Qed.

Lemma take_pending_ok here w i p :
  world_ok here w → pending w !! i = Some p →
  world_ok here (with_pending (delete i (pending w)) w)
  ∧ p_resume p = after_post.
Proof.
  intros [Hr Hp He Hl Hc Hv] Hi.
  pose proof (Forall_lookup_1 _ _ _ _ Hp Hi) as [_ Hk].
  split; [|done]. split; simpl; [done|by apply Forall_delete|done..| |done].
  rewrite length_delete by done. lia.
Qed.

Lemma start_ok here area : world_ok here (start here area).
Proof. split; simpl; auto using errors_ok_empty. Qed.

(** A settlement in a world that satisfies the invariant resumes the rest
    of a submit. *)
Lemma resume_after_post here i s p w :
  world_ok here w → pending w !! i = Some p →
  resume i s w
  = Some (exec (after_post s) (with_pending (delete i (pending w)) w)).
Proof.
  intros Hw Hi. unfold resume. rewrite Hi. simpl.
  by destruct (take_pending_ok _ _ _ _ Hw Hi) as [_ ->].
Qed.

Lemma resume_Some i s w w' : resume i s w = Some w' → is_Some (pending w !! i).
Proof. unfold resume. by destruct (pending w !! i). Qed.

(** The event loop implements the rules: in a world that satisfies the
    invariant, an event takes the page where its rule says and nowhere
    else. *)
Lemma step_transition here ev w w' :
  world_ok here w → step ev w = Some w' ↔ transition w ev w'.
Proof.
  intros Hw. split.
  - intros Hs. destruct ev; unfold step, dispatch in Hs; simplify_eq;
      try (by constructor);
      try (destruct (resume_Some _ _ _ _ Hs) as [p Hi];
           rewrite (resume_after_post here _ _ p) in Hs by done;
           simplify_eq; by econstructor).
    destruct (accepted (formData (component w))) eqn:Ha.
    + rewrite exec_accepted by done. by constructor.
    + rewrite exec_rejected by done. by constructor.
  - intros Ht. destruct Ht; unfold step, dispatch; try done.
    + by rewrite exec_rejected.
    + by rewrite exec_accepted.
    + by rewrite (resume_after_post here _ _ p).
    + by rewrite (resume_after_post here _ _ p).
Qed.

Lemma step_ok here ev w w' :
  world_ok here w → step ev w = Some w' → world_ok here w'.
Proof.
  intros Hw Hs. apply (step_transition here) in Hs; [|done].
  destruct Hs as [| | | |Ha|Ha| |i r p Hi|i err p Hi].
  1-4,7: by destruct Hw.
  - rewrite <- exec_rejected by done. by apply exec_handleSubmit_ok.
  - rewrite <- exec_accepted by done. by apply exec_handleSubmit_ok.
  - destruct (take_pending_ok _ _ _ _ Hw Hi) as [[] _].
    split; simpl; try done. by right.
  - destruct (take_pending_ok _ _ _ _ Hw Hi) as [[] _]. by split.
Qed.

Lemma run_app evs1 evs2 w : run (evs1 ++ evs2) w = run evs1 w ≫= run evs2.
Proof.
  revert w. induction evs1 as [|ev evs1 IH]; intros w; simpl; [done|].
  destruct (step ev w) as [w'|]; simpl; [apply IH|done].
Qed.

Lemma run_ok here evs w w' :
  world_ok here w → run evs w = Some w' → world_ok here w'.
Proof.
  revert w. induction evs as [|ev evs IH]; intros w Hw Hr; simplify_option_eq;
    eauto using step_ok.
Qed.

(** C4. Every world the page can be in satisfies the invariant: the requests
    issued came from accepted drafts, what waits for an answer will
    navigate and nothing else, the error object is one of the validator's,
    the location is the page or the dashboard, and no request was issued
    without the default submission being prevented. *)
Theorem reachable_ok here area w : reachable here area w → world_ok here w.
Proof.
  induction 1 as [|w ev w' _ IH Hs]; [apply start_ok|by eapply step_ok].
Qed.

(** C19. The event loop refines the rules of the page: after any history, an
    event takes the page to a world exactly when its rule does.  So an
    edit writes one cell, a submit validates and then stores the errors or
    posts and waits, a fulfilment navigates, and a rejection is left
    unhandled; and nothing else ever happens. *)
Theorem run_transition here area evs w ev w' :
  run evs (start here area) = Some w →
  step ev w = Some w' ↔ transition w ev w'.
Proof. intros Hr. eapply step_transition, run_ok, Hr. apply start_ok. Qed.

Lemma type_ok_elem f : type_ok f = true ↔ File.type f ∈ ACCEPTED_IMAGE_TYPES.
Proof. unfold type_ok. apply includes_true. Qed.

Lemma thumbnail_accepted_part t :
  thumbnail_accepted t = true → thumbnail_part (entry_value (arg_ref t)).
Proof.
  destruct t as [| |f]; simpl; [by left|done|].
  intros [?%size_ok_le ?%type_ok_elem]%andb_true_iff. right. by exists f.
Qed.

Lemma spot_request_shaped req : spot_request req → well_shaped req.
Proof.
  intros (st & user_id & (Ht & Hc & Hte & Hp)%accepted_spec & ->).
  split_and!; [done|by eexists|].
  eexists _, _, _, _. split_and!; [reflexivity|..];
    rewrite ?toUSVString_blank, ?price_ok_toUSVString;
    auto using thumbnail_accepted_part, toUSVString_scalar.
Qed.

(** C5. A rejected draft: the default is prevented, the error cell receives the
    field errors of the draft, and nothing else happens; no request is
    issued. *)
Theorem submit_rejected w :
  accepted (formData (component w)) = false →
  step ev_submit w
  = Some (with_component (setErrors (spot_errors (formData (component w))))
            (with_prevented w)).
Proof. intros H. unfold step, dispatch. by rewrite exec_rejected. Qed.

(** C6. An accepted draft: the default is prevented, the error cell is emptied,
    one request is issued with what the storage holds under [user] at that
    moment, and the handler waits; the location is not changed yet. *)
Theorem submit_accepted w :
  accepted (formData (component w)) = true →
  step ev_submit w
  = Some (with_await (request_of (component w) (getItem "user" (storage w)))
            after_post
            (with_component (setErrors ∅) (with_prevented w))).
Proof. intros H. unfold step, dispatch. by rewrite exec_accepted. Qed.

Lemma submit_errors w w' :
  step ev_submit w = Some w' →
  errors (component w') = spot_errors (formData (component w)).
Proof.
  unfold step, dispatch. destruct (accepted (formData (component w))) eqn:Ha.
  - rewrite exec_accepted by done. intros [= <-]. simpl.
    symmetry. by apply spot_errors_accepted.
  - rewrite exec_rejected by done. by intros [= <-].
Qed.

(** C31. The way to the dashboard: an accepted draft is submitted and its request
    is fulfilled; one request was issued, nothing is left waiting that was
    not, and the location is the dashboard. *)
Theorem submit_fulfil_navigates w r :
  accepted (formData (component w)) = true →
  ∃ w', run [ev_submit; ev_fulfil (length (pending w)) r] w = Some w'
    ∧ location w' = "/dashboard"
    ∧ requests w'
      = requests w ++ [request_of (component w) (getItem "user" (storage w))]
    ∧ pending w' = pending w.
Proof.
  intros Ha. eexists. unfold run, step, dispatch, resume.
  rewrite exec_accepted by done.
  cbn [mbind option_bind pending with_await].
  rewrite lookup_app_r, Nat.sub_diag by done.
  cbn [lookup list_lookup mbind option_bind].
  split; [reflexivity|]. simpl. split_and!; [done..|].
  by rewrite delete_middle, app_nil_r.
Qed.

(** C10. Nothing guards a submit while requests are in flight: submitting an
    accepted draft [n] times in a row issues the same request [n] times,
    and all of them wait. *)
Theorem submit_unguarded n w :
  accepted (formData (component w)) = true →
  ∃ w', run (replicate n ev_submit) w = Some w' ∧
    requests w' = requests w ++
      replicate n (request_of (component w) (getItem "user" (storage w))) ∧
    length (pending w') = length (pending w) + n.
Proof.
  intros Ha. revert w Ha. induction n as [|n IH]; intros w Ha.
  { exists w. simpl. by rewrite app_nil_r, Nat.add_0_r. }
  cbn [run replicate]. unfold step at 1. unfold dispatch at 1.
  rewrite exec_accepted by done.
  cbn [mbind option_bind].
  edestruct IH as (w' & -> & Hr & Hp); [|exists w'; split; [done|]]; [done|].
  rewrite Hr, Hp. simpl. rewrite <- app_assoc, length_app. simpl.
  split; [done|lia].
Qed.

(** Validation has no memory: submitting a rejected draft again stores the
    same errors and, like the first time, issues nothing. *)
Theorem resubmit_rejected w w1 :
  accepted (formData (component w)) = false →
  step ev_submit w = Some w1 →
  ∃ w2, step ev_submit w1 = Some w2
    ∧ component w2 = component w1 ∧ requests w2 = requests w
    ∧ pending w2 = pending w ∧ location w2 = location w.
Proof.
  intros Ha. unfold step, dispatch. rewrite exec_rejected by done.
  intros [= <-]. eexists. by rewrite exec_rejected.
Qed.

(** C11. A request that fails changes nothing the user can see.  After any
    history, the rejection of a request that waits resumes its handler
    with an exception; the handler has no [catch], so the cells, the
    errors, the location and the requests stay as they were, the handler
    is gone, and the reason is left as an unhandled rejection. *)
Theorem reject_silent here area evs w w' i err :
  run evs (start here area) = Some w →
  step (ev_reject i err) w = Some w' →
  component w' = component w ∧ location w' = location w
  ∧ requests w' = requests w ∧ rejections w' = rejections w ++ [err]
  ∧ S (length (pending w')) = length (pending w).
Proof.
  intros Hr Hs.
  apply (step_transition here) in Hs; [|by eapply run_ok, Hr; apply start_ok].
  inversion Hs as [| | | | | | | |? ? p Hi]; subst. simpl. split_and!; try done.
  rewrite length_delete by done. apply lookup_lt_Some in Hi. lia.
Qed.

(** The reason is lost because nothing catches the exception of the
    [await]: had the rest of the handler run inside a [try] whose [catch]
    stores the reason, the reason would reach the errors cell and no
    rejection would be left unhandled. *)
Example rejection_caught :
  let rest := try_catch (after_post (inr "Network Error"))
                (λ err, trigger (do_setErrors {[ "form" := [err] ]})) in
  errors (component (exec rest (start "/new" ∅)))
  = {[ "form" := ["Network Error"] ]}
  ∧ rejections (exec rest (start "/new" ∅)) = [].
Proof. done. Qed.

(** C12. A draft without a thumbnail is accepted when its other fields are, and
    the request then carries the text [null] as its thumbnail part. *)
Theorem null_thumbnail_posted w :
  thumbnail (component w) = js_null →
  ¬ blank (company (component w)) → ¬ blank (techs (component w)) →
  price_ok (price (component w)) = true →
  ∃ w' req, step ev_submit w = Some w' ∧ last (requests w') = Some req
    ∧ getAll "thumbnail" (body req) = [entry_string (lit "null")].
Proof.
  intros Ht Hc Hte Hp.
  assert (accepted (formData (component w)) = true) as Ha.
  { apply accepted_spec. simpl. by rewrite Ht. }
  eexists _, _. unfold step, dispatch. rewrite exec_accepted by done.
  split_and!; [done|apply last_snoc|].
  unfold request_of, payload. cbn [body]. by rewrite Ht.
Qed.

(** Only the user's edits change the four input cells: neither a submit, nor
    an answer of the network, nor a change of the storage clears or rewrites
    what was typed. *)
Lemma step_cells ev w w' :
  is_edit ev = false → step ev w = Some w' →
  same_cells (component w') (component w).
Proof.
  intros He Hs. destruct ev; try done; unfold step, dispatch, resume in Hs;
    simplify_option_eq; first [exact (exec_cells _ _)|done].
Qed.

(** * Histories *)

Lemma reachable_run here area w :
  reachable here area w ↔ ∃ evs, run evs (start here area) = Some w.
Proof.
  split.
  - induction 1 as [|w ev w' _ [evs IH] Hs]; [by exists []|].
    exists (evs ++ [ev]). rewrite run_app, IH. simpl. by rewrite Hs.
  - intros [evs Hr]. revert w Hr.
    induction evs as [|ev evs IH] using rev_ind; intros w Hr.
    + simplify_eq/=. constructor.
    + rewrite run_app in Hr.
      destruct (run evs (start here area)) as [w1|]; simplify_option_eq.
      econstructor; eauto.
Qed.

(** C7. Every request the page ever issued goes to [/spots], carries the one
    header [user_id], and has the four parts in order: a thumbnail that is
    the text [null] or a file within the limits, then three texts, of
    which the company and the techs are not blank and the price passes the
    price check of the schema. *)
Theorem request_shape here area evs w req :
  run evs (start here area) = Some w → req ∈ requests w → well_shaped req.
Proof.
  intros Hr Hin. apply spot_request_shaped.
  pose proof (run_ok here _ _ _ (start_ok here area) Hr) as [Hq _ _ _ _ _].
  by eapply Forall_forall in Hq.
Qed.

(** After a history without edits the four input cells are what they
    were. *)
Theorem run_cells evs w w' :
  Forall (λ ev, is_edit ev = false) evs → run evs w = Some w' →
  same_cells (component w') (component w).
Proof.
  intros He. revert w. induction He as [|ev evs Hev _ IH]; intros w Hr;
    simplify_option_eq; [done|].
  destruct (IH _ Hr) as (?&?&?&?), (step_cells _ _ _ Hev Heqo) as (?&?&?&?).
  split_and!; congruence.
Qed.

(** What one step adds to the log of the page: a submit of an accepted
    draft its request, every submit one prevented default, a rejection its
    reason; nothing else issues a request or leaves a rejection. *)
Lemma step_log here ev w w' :
  world_ok here w → step ev w = Some w' →
  requests w' = requests w ++ (if is_submit ev then submitted w else [])
  ∧ prevented w' = prevented w + (if is_submit ev then 1 else 0)
  ∧ rejections w' = rejections w ++ reasons [ev].
Proof.
  intros Hw Hs. apply (step_transition here) in Hs; [|done].
  destruct Hs as [| | | |Ha|Ha| | |]; unfold submitted; rewrite ?Ha; simpl;
    rewrite ?app_nil_r; split_and!; (done || lia).
Qed.

Lemma reasons_cons ev evs : reasons (ev :: evs) = reasons [ev] ++ reasons evs.
Proof. by destruct ev. Qed.

Lemma run_log here evs w w' :
  world_ok here w → run evs w = Some w' →
  requests w' = requests w ++ issues evs w
  ∧ prevented w' = prevented w + length (filter (λ ev, is_submit ev = true) evs)
  ∧ rejections w' = rejections w ++ reasons evs.
Proof.
  revert w. induction evs as [|ev evs IH]; intros w Hw Hr.
  { simplify_eq/=. rewrite !app_nil_r. split_and!; (done || lia). }
  cbn [run] in Hr. destruct (step ev w) as [w1|] eqn:Hs; [|done].
  destruct (step_log _ _ _ _ Hw Hs) as (Hq & Hp & Hj).
  destruct (IH _ (step_ok _ _ _ _ Hw Hs) Hr) as (IHq & IHp & IHj).
  cbn [issues]. rewrite Hs, filter_cons, IHq, IHp, IHj, Hq, Hp, Hj.
  rewrite (reasons_cons ev evs).
  rewrite <- !app_assoc. split_and!; [done| |done].
  destruct (is_submit ev); simpl; lia.
Qed.

(** C9. The log of the page after any history.  The requests issued are those
    of the submits that found an accepted draft, one each, in order, each
    with the draft and the user of the moment of its submit: no draft that
    is not accepted is posted, none is posted twice, and no settlement
    posts.  The default submission was prevented once for each submit.
    The unhandled rejections are the reasons of the rejected requests: none
    was caught. *)
Theorem history_log here area evs w :
  run evs (start here area) = Some w →
  requests w = issues evs (start here area)
  ∧ prevented w = length (filter (λ ev, is_submit ev = true) evs)
  ∧ rejections w = reasons evs.
Proof. intros Hr. by apply (run_log here) in Hr; [|apply start_ok]. Qed.

Lemma step_counts here ev w w' :
  world_ok here w → step ev w = Some w' →
  length (requests w') + length (pending w)
  = length (requests w) + length (pending w') + (if is_settle ev then 1 else 0).
Proof.
  intros Hw Hs. apply (step_transition here) in Hs; [|done].
  destruct Hs as [| | | | | | |i r p Hi|i err p Hi]; simpl;
    rewrite ?length_app, ?length_delete by done; simpl; try lia;
    apply lookup_lt_Some in Hi; lia.
Qed.

Lemma run_counts here evs w w' :
  world_ok here w → run evs w = Some w' →
  length (requests w') + length (pending w)
  = length (requests w) + length (pending w') + settle_count evs.
Proof.
  revert w. induction evs as [|ev evs IH]; intros w Hw Hr; simplify_option_eq.
  - unfold settle_count. simpl. lia.
  - pose proof (step_counts _ _ _ _ Hw Heqo).
    pose proof (IH _ (step_ok _ _ _ _ Hw Heqo) Hr).
    unfold settle_count in *. rewrite filter_cons.
    destruct (is_settle ev); simpl in *; lia.
Qed.

(** Every request is either waiting or was settled by an answer of the
    network: none is lost and none is answered twice. *)
Lemma conservation here area evs w :
  run evs (start here area) = Some w →
  length (requests w) = length (pending w) + settle_count evs.
Proof.
  intros Hr. apply (run_counts here) in Hr; [simpl in Hr; lia|apply start_ok].
Qed.

(** An answer of the network issues no request, leaves one handler less
    waiting and the cells of the component alone, the errors among
    them. *)
Lemma step_settle here ev w w' :
  world_ok here w → is_settle ev = true → step ev w = Some w' →
  requests w' = requests w ∧ S (length (pending w')) = length (pending w)
  ∧ component w' = component w.
Proof.
  intros Hw He Hs. apply (step_transition here) in Hs; [|done].
  destruct Hs as [| | | | | | |i r p Hi|i err p Hi]; try done; simpl;
    rewrite length_delete by done; apply lookup_lt_Some in Hi;
    split_and!; (done || lia).
Qed.

(** A history of answers alone is no longer than the list of waiting
    handlers it starts from, and it issues nothing. *)
Lemma settle_bound here evs w w' :
  world_ok here w → Forall (λ ev, is_settle ev = true) evs →
  run evs w = Some w' →
  length evs + length (pending w') = length (pending w)
  ∧ requests w' = requests w.
Proof.
  intros Hw He. revert w Hw. induction He as [|ev evs Hev _ IH];
    intros w Hw Hr; simplify_option_eq; [done|].
  destruct (step_settle _ _ _ _ Hw Hev Heqo) as (Hq & Hp & _).
  destruct (IH _ (step_ok _ _ _ _ Hw Heqo) Hr) as [IHp IHq].
  split; [lia|congruence].
Qed.

Lemma step_settle_component here ev w w' :
  world_ok here w → is_settle ev = true → step ev w = Some w' →
  component w' = component w.
Proof. intros Hw He Hs. by destruct (step_settle _ _ _ _ Hw He Hs) as (_ & _ & ?). Qed.

Lemma step_location here ev w w' :
  world_ok here w → step ev w = Some w' →
  location w' = location w ∨ (is_fulfil ev = true ∧ location w' = "/dashboard").
Proof.
  intros Hw Hs. apply (step_transition here) in Hs; [|done].
  destruct Hs; simpl; auto.
Qed.

Lemma run_location here evs w w' :
  world_ok here w → run evs w = Some w' →
  location w' = location w ∨
  (location w' = "/dashboard" ∧ ∃ i r, ev_fulfil i r ∈ evs).
Proof.
  revert w. induction evs as [|ev evs IH]; intros w Hw Hr; simplify_option_eq;
    [by left|].
  destruct (IH _ (step_ok _ _ _ _ Hw Heqo) Hr) as [Hl|(Hl & i & r & Hin)].
  - destruct (step_location _ _ _ _ Hw Heqo) as [Hl'|[Hf Hl']].
    + left. congruence.
    + right. split; [congruence|]. destruct ev; try done.
      eexists _, _. by left.
  - right. split; [done|]. eexists _, _. by right.
Qed.

(** C8. The page leaves for the dashboard only after a request was answered
    with success; until then the location is the one it started at. *)
Theorem navigation_needs_fulfil here area evs w :
  run evs (start here area) = Some w →
  location w = here ∨
  (location w = "/dashboard" ∧ ∃ i r, ev_fulfil i r ∈ evs).
Proof. intros Hr. by apply (run_location here) in Hr; [|apply start_ok]. Qed.

(** With nothing stored under [user] the request is issued all the same,
    and its header holds [null]. *)
Example submit_without_user :
  requests <$> run (sample_edits ++ [ev_submit]) (start "/new" ∅)
  = Some [request_of (component (after sample_edits)) None].
Proof. vm_compute. reflexivity. Qed.

(** * The sample session *)

Lemma reachable_ok_witness : world_ok "/new" (after sample_history).
Proof.
  apply (reachable_ok "/new" sample_area (after sample_history)).
  apply reachable_run. exists sample_history. vm_compute. reflexivity.
Defined.

Lemma run_transition_witness :
  step (ev_reject 0 "Network Error") (after (sample_edits ++ [ev_submit]))
  = Some (after (sample_edits ++ [ev_submit; ev_reject 0 "Network Error"]))
  ↔ transition (after (sample_edits ++ [ev_submit]))
      (ev_reject 0 "Network Error")
      (after (sample_edits ++ [ev_submit; ev_reject 0 "Network Error"])).
Proof.
  apply (run_transition "/new" sample_area (sample_edits ++ [ev_submit])).
  vm_compute. reflexivity.
Defined.

Lemma submit_rejected_witness :
  step ev_submit (start "/new" sample_area)
  = Some (with_component (setErrors (spot_errors (formData initial)))
            (with_prevented (start "/new" sample_area))).
Proof. apply (submit_rejected (start "/new" sample_area)). reflexivity. Defined.

Lemma submit_accepted_witness :
  step ev_submit (after sample_edits)
  = Some (with_await
            (request_of (component (after sample_edits)) (Some (lit "42")))
            after_post
            (with_component (setErrors ∅) (with_prevented (after sample_edits)))).
Proof. apply (submit_accepted (after sample_edits)). vm_compute. reflexivity. Defined.

Lemma request_shape_witness :
  well_shaped (request_of (component (after sample_edits)) (Some (lit "42"))).
Proof.
  apply (request_shape "/new" sample_area sample_history (after sample_history)).
  - vm_compute. reflexivity.
  - vm_compute. apply list_elem_of_here.
Defined.

Lemma navigation_needs_fulfil_witness :
  location (after sample_history) = "/new" ∨
  (location (after sample_history) = "/dashboard"
   ∧ ∃ i r, ev_fulfil i r ∈ sample_history).
Proof.
  apply (navigation_needs_fulfil "/new" sample_area sample_history).
  vm_compute. reflexivity.
Defined.

Lemma history_log_witness :
  requests (after failed_history) = issues failed_history (start "/new" sample_area)
  ∧ prevented (after failed_history)
    = length (filter (λ ev, is_submit ev = true) failed_history)
  ∧ rejections (after failed_history) = reasons failed_history.
Proof.
  apply (history_log "/new" sample_area failed_history).
  vm_compute. reflexivity.
Defined.

Lemma submit_fulfil_navigates_witness :
  ∃ w',
    run [ev_submit; ev_fulfil (length (pending (after sample_edits)))
                      {| http_status := 201 |}] (after sample_edits) = Some w'
    ∧ location w' = "/dashboard"
    ∧ requests w'
      = requests (after sample_edits)
        ++ [request_of (component (after sample_edits))
              (getItem "user" (storage (after sample_edits)))]
    ∧ pending w' = pending (after sample_edits).
Proof.
  apply (submit_fulfil_navigates (after sample_edits) {| http_status := 201 |}).
  vm_compute. reflexivity.
Defined.

Lemma submit_unguarded_witness :
  ∃ w', run (replicate 3 ev_submit) (after sample_edits) = Some w' ∧
    requests w' = requests (after sample_edits) ++
      replicate 3 (request_of (component (after sample_edits))
                     (getItem "user" (storage (after sample_edits)))) ∧
    length (pending w') = length (pending (after sample_edits)) + 3.
Proof. apply (submit_unguarded 3 (after sample_edits)). vm_compute. reflexivity. Defined.

Lemma resubmit_rejected_witness :
  ∃ w2,
    step ev_submit (after [ev_submit]) = Some w2
    ∧ component w2 = component (after [ev_submit])
    ∧ requests w2 = requests (start "/new" sample_area)
    ∧ pending w2 = pending (start "/new" sample_area)
    ∧ location w2 = location (start "/new" sample_area).
Proof.
  apply (resubmit_rejected (start "/new" sample_area) (after [ev_submit]));
    vm_compute; reflexivity.
Defined.

Lemma reject_silent_witness :
  let w := after (sample_edits ++ [ev_submit]) in
  let w' := after (sample_edits ++ [ev_submit; ev_reject 0 "Network Error"]) in
  component w' = component w ∧ location w' = location w
  ∧ requests w' = requests w ∧ rejections w' = rejections w ++ ["Network Error"]
  ∧ S (length (pending w')) = length (pending w).
Proof.
  apply (reject_silent "/new" sample_area (sample_edits ++ [ev_submit])
           (after (sample_edits ++ [ev_submit])) _ 0 "Network Error");
    vm_compute; reflexivity.
Defined.

Lemma null_thumbnail_posted_witness :
  ∃ w' req,
    step ev_submit (after [ev_company (lit "Acme"); ev_techs (lit "React")])
    = Some w'
    ∧ last (requests w') = Some req
    ∧ getAll "thumbnail" (body req) = [entry_string (lit "null")].
Proof.
  apply (null_thumbnail_posted
           (after [ev_company (lit "Acme"); ev_techs (lit "React")])).
  - reflexivity.
  - intros H. by inversion H.
  - intros H. by inversion H.
  - reflexivity.
Defined.

Lemma run_cells_witness :
  same_cells
    (component (after sample_history)) (component (after sample_edits)).
Proof.
  apply (run_cells [ev_submit; ev_fulfil 0 {| http_status := 200 |}]).
  - by repeat constructor.
  - vm_compute. reflexivity.
Defined.

Lemma settle_bound_witness :
  length [ev_fulfil 0 {| http_status := 200 |}]
  + length (pending (after sample_history))
  = length (pending (after (sample_edits ++ [ev_submit])))
  ∧ requests (after sample_history)
    = requests (after (sample_edits ++ [ev_submit])).
Proof.
  apply (settle_bound "/new" [ev_fulfil 0 {| http_status := 200 |}]
           (after (sample_edits ++ [ev_submit]))).
  - apply (run_ok "/new" (sample_edits ++ [ev_submit]) (start "/new" sample_area)).
    + apply start_ok.
    + vm_compute. reflexivity.
  - by repeat constructor.
  - vm_compute. reflexivity.
Defined.
