(* ===== verification/Network.v ===== *)
(** The page together with the HTTP client and the server behind it.  In
    [EventLoop.v] the answers of the network are events that come from
    outside; here the server is a function of the request, the client
    settles the promise of [api.post] from what the server did, and the
    commands of a handler are given their meaning one by one by a handler
    in the sense of [Effects.v], the settlement being the answer of
    [api.post].  The theorems show that the event loop computes that
    interpretation, and what a submit leads to once the network has
    answered.  The client is taken to be an axios instance with the default
    [validateStatus]; the module services/api is not among the sources. *)
From S2P Require Import Prelude JsString ParseFloat Zod SpotSchema Browser Effects NewPage EventLoop.
From stdpp Require Import strings gmap pretty.

#[local] Open Scope N_scope.

(** What the server does with a request: it answers with a status, or the
    request never gets an answer. *)
Inductive Outcome :=
| answered (r : Response)
| network_error.

Definition Backend : Type := Request → Outcome.

(** The client's default [validateStatus]: the statuses 200 to 299. *)
Definition validateStatus (status : N) : bool :=
  (200 <=? status) && (status <? 300).

(** How the client settles the promise of a request: fulfilled with the
    response when its status is valid, rejected otherwise. *)
Definition settle (o : Outcome) : Response + string :=
  match o with
  | answered r =>
      if validateStatus (http_status r) then inl r
      else inr ("Request failed with status code " +:+ pretty (http_status r))
  | network_error => inr "Network Error"
  end.

(** The world after a request was issued and answered. *)
Definition with_request (req : Request) (w : World) : World :=
  {| component := component w; storage := storage w;
     location := location w; prevented := prevented w;
     requests := requests w ++ [req]; pending := pending w;
     rejections := rejections w |}.

(** What each command of a handler does to the page when the network
    answers at once: [api.post] is answered with the settlement of its
    promise. *)
Definition handle (backend : Backend) : Handler Cmd World :=
  λ X e,
    match e in Cmd X return World → World * X with
    | preventDefault => λ w, (with_prevented w, ())
    | do_setErrors v => λ w, (with_component (setErrors v) w, ())
    | localStorage_getItem key => λ w, (w, getItem key (storage w))
    | api_post req => λ w, (with_request req w, settle (backend req))
    | navigate to => λ w, (with_location to w, ())
    end.

(** The page after a handler that ran to its end: an exception that left
    it is an unhandled rejection. *)
Definition ended (r : World * (unit + JsError)) : World :=
  match r.2 with
  | inl _ => r.1
  | inr err => with_rejection err r.1
  end.

(** The event by which the loop learns how the request of the handler at
    place [i] among those that wait was settled. *)
Definition settle_at (i : nat) (o : Response + string) : Event :=
  match o with inl r => ev_fulfil i r | inr err => ev_reject i err end.

(** The settlement a command calls for: one for each request. *)
Definition settlement (backend : Backend) (n : nat) (c : Call Cmd) : option Event :=
  match projT2 c with
  | api_post req => Some (settle_at n (settle (backend req)))
  | _ => None
  end.

(** The events of the network for a run of the program [m] from [w]. *)
Definition settlements (backend : Backend) (m : Async unit) (w : World)
    : list Event :=
  omap (settlement backend (length (pending w))) (issued (handle backend) m w).

(** A submit and the answers of the network to it. *)
Definition submission (backend : Backend) (w : World) : list Event :=
  ev_submit :: settlements backend (handleSubmit (component w)) w.

(** Sample servers. *)
Definition created : Backend := λ _, answered {| http_status := 201 |}.
Definition failing : Backend := λ _, answered {| http_status := 500 |}.
Definition unreachable : Backend := λ _, network_error.

(** The handler that has just been suspended is the last of those that
    wait; taking it out leaves the world with the request issued. *)
Lemma pending_with_await req k w :
  pending (with_await req k w) !! length (pending w)
  = Some {| p_request := req; p_resume := k |}.
Proof. simpl. by rewrite lookup_app_r, Nat.sub_diag. Qed.

Lemma take_with_await req k w :
  with_pending (delete (length (pending w)) (pending (with_await req k w)))
    (with_await req k w)
  = with_request req w.
Proof.
  unfold with_pending, with_request. simpl.
  by rewrite delete_middle, app_nil_r.
Qed.

Lemma step_settle_at_eq i s w : step (settle_at i s) w = resume i s w.
Proof. by destruct s. Qed.

(** The settlement of the request of the handler that was suspended last
    resumes that handler with it. *)
Lemma step_settle_await req k w s :
  step (settle_at (length (pending w)) s) (with_await req k w)
  = Some (exec (k s) (with_request req w)).
Proof.
  rewrite step_settle_at_eq. unfold resume. rewrite pending_with_await.
  cbn [mbind option_bind p_resume]. by rewrite take_with_await.
Qed.

(** The event loop computes the interpretation: running a handler to its
    [await] and then feeding the loop the settlements of its requests, one
    by one, ends in the world the handler [handle] computes in one go. *)
Lemma exec_interp backend m w :
  run (settlements backend m w) (exec m w)
  = Some (ended (interp (handle backend) m w)).
Proof.
  revert w. induction m as [r|err|X e k IH]; intros w; [done..|].
  unfold settlements in *.
  destruct e as [|v|key|req|to];
    cbn [exec interp issued handle omap list_omap settlement projT2 call].
  - exact (IH () (with_prevented w)).
  - exact (IH () (with_component (setErrors v) w)).
  - exact (IH _ w).
  - cbn [run]. rewrite step_settle_await. exact (IH _ (with_request req w)).
  - exact (IH () (with_location to w)).
Qed.

Lemma interp_handleSubmit backend w :
  ended (interp (handle backend) (handleSubmit (component w)) w)
  = if accepted (formData (component w))
    then
      let req := request_of (component w) (getItem "user" (storage w)) in
      let w1 := with_request req
                  (with_component (setErrors ∅) (with_prevented w)) in
      match settle (backend req) with
      | inl _ => with_location "/dashboard" w1
      | inr err => with_rejection err w1
      end
    else with_component (setErrors (spot_errors (formData (component w))))
           (with_prevented w).
Proof.
  destruct (accepted (formData (component w))) eqn:Ha.
  - rewrite handleSubmit_accepted by done. cbn [interp handle]. simpl.
    unfold request_of. by destruct (settle _).
  - by rewrite handleSubmit_rejected.
Qed.

(** C30. A submit and the answers of the network to it take the page to the
    world the interpretation of [handleSubmit] computes, which is: for a
    rejected draft the page with the errors stored; for an accepted draft
    the request issued with the user read from the storage, and then the
    dashboard when the client fulfils the promise, an unhandled rejection
    and nothing else when it rejects it. *)
Theorem submit_outcome backend w :
  run (submission backend w) w
  = Some (ended (interp (handle backend) (handleSubmit (component w)) w))
  ∧ ended (interp (handle backend) (handleSubmit (component w)) w)
    = if accepted (formData (component w))
      then
        let req := request_of (component w) (getItem "user" (storage w)) in
        let w1 := with_request req
                    (with_component (setErrors ∅) (with_prevented w)) in
        match settle (backend req) with
        | inl _ => with_location "/dashboard" w1
        | inr err => with_rejection err w1
        end
      else with_component (setErrors (spot_errors (formData (component w))))
             (with_prevented w).
Proof. split; [apply exec_interp|apply interp_handleSubmit]. Qed.

(** C25. A submit takes the page to the dashboard exactly when the draft is
    accepted and the server answers with a status from 200 to 299. *)
Corollary submit_navigates backend w w' :
  location w ≠ "/dashboard" → run (submission backend w) w = Some w' →
  location w' = "/dashboard"
  ↔ accepted (formData (component w)) = true
    ∧ ∃ r, backend (request_of (component w) (getItem "user" (storage w)))
           = answered r ∧ validateStatus (http_status r) = true.
Proof.
  intros Hl. unfold submission. cbn [run]. unfold step at 1, dispatch.
  cbn [mbind option_bind]. rewrite exec_interp, interp_handleSubmit.
  intros [= <-].
  destruct (accepted _); [cbn zeta; unfold settle|by split; [|intros []]].
  destruct (backend _) as [r|]; [destruct (validateStatus _) eqn:Hv|]; simpl.
  - split; [eauto|done].
  - split; [done|]. intros [_ (r' & [= <-] & Hr)]. congruence.
  - split; [done|]. by intros [_ (r' & [=] & _)].
Qed.

(** * Answers that take their time *)

Lemma step_settle_at here i p o w :
  world_ok here w → pending w !! i = Some p →
  step (settle_at i o) w
  = Some (let w' := with_pending (delete i (pending w)) w in
          match o with
          | inl _ => with_location "/dashboard" w'
          | inr err => with_rejection err w'
          end).
Proof.
  intros Hw Hi.
  by rewrite step_settle_at_eq, (resume_after_post here _ _ p), exec_after_post.
Qed.

(** An event that is no settlement always happens, and leaves the handlers
    that wait in their places. *)
Lemma step_unsettled ev w i p :
  is_settle ev = false → pending w !! i = Some p →
  ∃ w', step ev w = Some w' ∧ pending w' !! i = Some p.
Proof.
  intros He Hi. destruct ev; try done; eexists; (split; [done|]); try done.
  destruct (accepted (formData (component w))) eqn:Ha.
  - rewrite exec_accepted by done. simpl. by apply lookup_app_l_Some.
  - by rewrite exec_rejected.
Qed.

Lemma settle_commutes here ev i p o w :
  world_ok here w → is_settle ev = false → pending w !! i = Some p →
  run [ev; settle_at i o] w = run [settle_at i o; ev] w.
Proof.
  intros Hw He Hi.
  destruct (step_unsettled ev w i p He Hi) as (w1 & Hs & Hi1).
  pose proof (step_ok _ _ _ _ Hw Hs) as Hw1.
  cbn [run]. rewrite Hs, (step_settle_at here i p o w) by done.
  cbn [mbind option_bind]. rewrite (step_settle_at here i p o w1) by done.
  cbn [mbind option_bind]. f_equal.
  destruct ev; try done; unfold step, dispatch in *; simplify_eq;
    try by destruct o.
  pose proof (lookup_lt_Some _ _ _ Hi) as Hlt.
  destruct (accepted (formData (component w))) eqn:Ha.
  - destruct o; rewrite !exec_accepted by done; unfold with_await; simpl;
      by rewrite delete_app_l.
  - by destruct o; rewrite !exec_rejected.
Qed.

(** An answer of the network gives the same whenever it comes: after any
    events that are no settlements, or before them. *)
Theorem settle_any_time here evs i p o w :
  world_ok here w → Forall (λ ev, is_settle ev = false) evs →
  pending w !! i = Some p →
  run (evs ++ [settle_at i o]) w = run (settle_at i o :: evs) w.
Proof.
  intros Hw Hevs. revert w Hw.
  induction Hevs as [|ev evs He _ IH]; intros w Hw Hi; [done|].
  destruct (step_unsettled ev w i p He Hi) as (w1 & Hs & Hi1).
  change (run ((ev :: evs) ++ [settle_at i o]) w)
    with (step ev w ≫= run (evs ++ [settle_at i o])).
  rewrite Hs. cbn [mbind option_bind].
  rewrite IH by eauto using step_ok.
  change (run (settle_at i o :: evs) w1)
    with (Some w1 ≫= run ([settle_at i o] ++ evs)).
  rewrite <- Hs.
  change (step ev w ≫= run ([settle_at i o] ++ evs))
    with (run ([ev; settle_at i o] ++ evs) w).
  rewrite run_app, (settle_commutes here _ _ p) by done. by rewrite <- run_app.
Qed.

(** C28. A submission ends as the interpretation says however long the network
    takes: whatever the user does and whatever happens to the storage
    between the submit and the answer could as well have happened after
    the answer. *)
Theorem delayed_submission here backend evs w :
  world_ok here w → Forall (λ ev, is_settle ev = false) evs →
  run (ev_submit :: evs ++ settlements backend (handleSubmit (component w)) w) w
  = run (submission backend w ++ evs) w.
Proof.
  intros Hw Hevs. unfold submission, settlements.
  destruct (accepted (formData (component w))) eqn:Ha.
  - rewrite handleSubmit_accepted by done.
    cbn [issued handle omap list_omap settlement projT2 call app run].
    unfold step at 1 3, dispatch. rewrite exec_accepted by done.
    cbn [mbind option_bind].
    destruct (settle _) as [r|err] eqn:Es;
      cbn [issued omap list_omap settlement projT2 call];
      eapply (settle_any_time here); try done;
      first [ rewrite <- exec_accepted by done; by apply exec_handleSubmit_ok
            | exact (pending_with_await _ _
                       (with_component (setErrors ∅) (with_prevented w))) ].
  - rewrite handleSubmit_rejected by done. simpl. by rewrite app_nil_r.
Qed.

Example submission_created :
  location <$> run (sample_edits ++ submission created (after sample_edits))
                 (start "/new" sample_area)
  = Some "/dashboard".
Proof. vm_compute. reflexivity. Qed.

Example submission_failing :
  rejections <$> run (sample_edits ++ submission failing (after sample_edits))
                   (start "/new" sample_area)
  = Some ["Request failed with status code 500"].
Proof. vm_compute. reflexivity. Qed.

Example submission_unreachable :
  (λ w, (location w, rejections w, length (requests w)))
    <$> run (sample_edits ++ submission unreachable (after sample_edits))
          (start "/new" sample_area)
  = Some ("/new", ["Network Error"], 1%nat).
Proof. vm_compute. reflexivity. Qed.

(** The user goes on typing while the request is on its way. *)
Definition meanwhile : list Event :=
  [ev_company (lit "Acme Inc"); ev_storage "user" None].

Lemma delayed_submission_witness :
  run (ev_submit :: meanwhile
         ++ settlements created (handleSubmit (component (after sample_edits)))
              (after sample_edits))
    (after sample_edits)
  = run (submission created (after sample_edits) ++ meanwhile)
      (after sample_edits).
Proof.
  apply (delayed_submission "/new" created meanwhile (after sample_edits)).
  - apply (run_ok "/new" sample_edits (start "/new" sample_area)).
    + apply start_ok.
    + vm_compute. reflexivity.
  - by repeat constructor.
Defined.

Lemma submit_navigates_witness :
  location (after (sample_edits ++ submission failing (after sample_edits)))
  = "/dashboard"
  ↔ accepted (formData (component (after sample_edits))) = true
    ∧ ∃ r, failing (request_of (component (after sample_edits))
                      (getItem "user" (storage (after sample_edits))))
           = answered r ∧ validateStatus (http_status r) = true.
Proof.
  apply (submit_navigates failing (after sample_edits)).
  - discriminate.
  - vm_compute. reflexivity.
Defined.
