(* ===== verification/Router.v ===== *)
(** The page under the router.  [EventLoop.v] lets every event happen in
    every world; the router shows the form only while the location is the
    path of its route, and the events of the user, which the elements of
    the form deliver, need the form on the screen.  This file restricts the
    steps of the event loop accordingly and shows what teardown means for
    the page: what was proved of all histories still holds, and after the
    page has left for the dashboard nothing of it changes any more, while
    the handlers that still wait are answered all the same. *)
From S2P Require Import Prelude JsString Zod SpotSchema Browser Effects NewPage EventLoop Network.
From stdpp Require Import strings gmap.

(** The events that an element of the form delivers. *)
Definition from_user (ev : Event) : bool :=
  match ev with
  | ev_pick _ | ev_company _ | ev_techs _ | ev_price _ | ev_submit => true
  | ev_storage _ _ | ev_fulfil _ _ | ev_reject _ _ => false
  end.

Section router.
Context (here : string).

(** The route of the form matches the location. *)
Definition mounted (w : World) : bool := bool_decide (location w = here).

(** An event of the user needs the form; the others happen anyway. *)
Definition enabled (ev : Event) (w : World) : bool :=
  negb (from_user ev) || mounted w.

(** One step of the routed page; [None] when the event cannot happen. *)
Definition routed_step (ev : Event) (w : World) : option World :=
  if enabled ev w then step ev w else None.

Fixpoint routed_run (evs : list Event) (w : World) : option World :=
  match evs with
  | [] => Some w
  | ev :: evs' => w' ← routed_step ev w; routed_run evs' w'
  end.

(** * The routed page is a restriction of the event loop *)

Lemma routed_step_step ev w w' : routed_step ev w = Some w' → step ev w = Some w'.
Proof. unfold routed_step. by case_match. Qed.

Lemma routed_run_run evs w w' : routed_run evs w = Some w' → run evs w = Some w'.
Proof.
  revert w. induction evs as [|ev evs IH]; intros w Hr; simplify_option_eq;
    [done|].
  erewrite routed_step_step by done. simpl. by apply IH.
Qed.

(** While the form is mounted nothing is restricted. *)
Lemma routed_step_mounted ev w :
  mounted w = true → routed_step ev w = step ev w.
Proof. unfold routed_step, enabled. intros ->. by rewrite orb_true_r. Qed.

(** * After the page has left *)

Context (Hhere : here ≠ "/dashboard").

Lemma unmounted w : location w = "/dashboard" → mounted w = false.
Proof. intros Hl. apply bool_decide_eq_false. congruence. Qed.

(** A step of a page that has left: no event of the user, the state of the
    component and the requests as they were, the location still the
    dashboard, and no more handlers waiting than before. *)
Lemma unmounted_step ev w w' :
  world_ok here w → location w = "/dashboard" → routed_step ev w = Some w' →
  from_user ev = false ∧ component w' = component w
  ∧ requests w' = requests w ∧ location w' = "/dashboard"
  ∧ length (pending w') ≤ length (pending w).
Proof.
  intros Hw Hl. unfold routed_step, enabled. rewrite (unmounted w Hl), orb_false_r.
  destruct (from_user ev) eqn:Hu; [done|]. simpl. intros Hs.
  apply (step_transition here) in Hs; [|done].
  destruct Hs; try done; simpl; rewrite ?length_delete by done;
    split_and!; (done || lia).
Qed.

(** C34. Teardown: once the page has left for the dashboard, no event of the
    user happens any more, and whatever else happens, answers of the
    network and changes of the storage, the state of the component and the
    requests it issued stay as they were, the location stays the
    dashboard, and no handler is added to those that wait. *)
Theorem unmounted_frozen evs w w' :
  world_ok here w → location w = "/dashboard" → routed_run evs w = Some w' →
  Forall (λ ev, from_user ev = false) evs
  ∧ component w' = component w ∧ requests w' = requests w
  ∧ location w' = "/dashboard"
  ∧ length (pending w') ≤ length (pending w).
Proof.
  revert w. induction evs as [|ev evs IH]; intros w Hw Hl Hr;
    simplify_option_eq; [by split_and!|].
  destruct (unmounted_step _ _ _ Hw Hl Heqo) as (Hu & Hc & Hq & Hl' & Hp).
  destruct (IH _ (step_ok _ _ _ _ Hw (routed_step_step _ _ _ Heqo)) Hl' Hr)
    as (IHu & IHc & IHq & IHl & IHp).
  split_and!; [by constructor|congruence..|lia].
Qed.

(** Teardown cancels nothing: a handler that waits when the page leaves is
    still resumed by the answer to its request. *)
Lemma unmounted_resumes i p r w :
  world_ok here w → pending w !! i = Some p →
  ∃ w', routed_step (ev_fulfil i r) w = Some w'
    ∧ location w' = "/dashboard"
    ∧ length (pending w') < length (pending w).
Proof.
  intros Hw Hi. eexists. unfold routed_step, enabled, step.
  cbn [from_user negb orb]. rewrite (resume_after_post here _ _ p) by done.
  split_and!; [done..|]. simpl. rewrite length_delete by done.
  apply lookup_lt_Some in Hi. lia.
Qed.

End router.

(** * A sample: two submissions in flight when the page leaves *)

Definition two_in_flight : list Event :=
  sample_edits ++ [ev_submit; ev_submit; ev_fulfil 0 {| http_status := 201 |}].

Definition late_answers : list Event :=
  [ev_storage "user" None; ev_fulfil 0 {| http_status := 201 |}].

Example routed_two_in_flight :
  routed_run "/new" (two_in_flight ++ late_answers) (start "/new" sample_area)
  = Some (after (two_in_flight ++ late_answers)).
Proof. vm_compute. reflexivity. Qed.

(** The form is gone: a submit cannot happen any more. *)
Example routed_no_submit_after :
  routed_run "/new" (two_in_flight ++ [ev_submit]) (start "/new" sample_area)
  = None
  ∧ is_Some (run (two_in_flight ++ [ev_submit]) (start "/new" sample_area)).
Proof. split; [|eexists]; vm_compute; reflexivity. Qed.

(** Under the router the order matters to the user: while the request is
    on its way the form takes what is typed, after the answer it is gone. *)
Example routed_answer_order :
  is_Some (routed_run "/new"
             (ev_submit :: meanwhile
                ++ settlements created
                     (handleSubmit (component (after sample_edits)))
                     (after sample_edits))
             (after sample_edits))
  ∧ routed_run "/new" (submission created (after sample_edits) ++ meanwhile)
      (after sample_edits)
    = None.
Proof. split; [eexists|]; vm_compute; reflexivity. Qed.

Lemma unmounted_frozen_witness :
  Forall (λ ev, from_user ev = false) late_answers
  ∧ component (after (two_in_flight ++ late_answers))
    = component (after two_in_flight)
  ∧ requests (after (two_in_flight ++ late_answers))
    = requests (after two_in_flight)
  ∧ location (after (two_in_flight ++ late_answers)) = "/dashboard"
  ∧ length (pending (after (two_in_flight ++ late_answers)))
    ≤ length (pending (after two_in_flight)).
Proof.
  apply (unmounted_frozen "/new").
  - discriminate.
  - apply (run_ok "/new" two_in_flight (start "/new" sample_area)).
    + apply start_ok.
    + vm_compute. reflexivity.
  - vm_compute. reflexivity.
  - vm_compute. reflexivity.
Defined.
