(* ===== verification/Session.v ===== *)
(** The page with its screen: after every step of the event loop the
    component is rendered again (src/src/pages/New/index.jsx, the body of
    [New], lines 30-130), with the cell of [useMemo] and the object URLs of
    the document carried from one render to the next.  The theorems say what
    the user sees after a step and what the document holds. *)
From S2P Require Import Prelude JsString Zod SpotSchema Browser Effects NewPage Render EventLoop.
From stdpp Require Import strings gmap.

(** What a render leaves behind: the tree on screen, the cell of [useMemo]
    and the object URLs of the document. *)
Record Screen := {
  tree : VNode;
  memo : option (JsRef File.t * option jsstring);
  urls : list (jsstring * File.t);
}.

Section session.
Context (mint : nat → jsstring) `{!Inj (=) (=) mint}.

(** One call of the component function. *)
Definition paint (st : State) (memo : Memo) (urls : UrlStore) : Screen :=
  let '(t, m, u) := render mint st memo urls in
  {| tree := t; memo := m; urls := u |}.

(** The first render, in a document without object URLs. *)
Definition mount (w : World) : Screen := paint (component w) None [].

(** A later render. *)
Definition repaint (w : World) (scr : Screen) : Screen :=
  paint (component w) (memo scr) (urls scr).

(** The page and its screen. *)
Definition open (here : string) (area : gmap string jsstring) : World * Screen :=
  (start here area, mount (start here area)).

(** A step of the event loop, then a render. *)
Definition session_step (ev : Event) (s : World * Screen) : option (World * Screen) :=
  w' ← step ev s.1; Some (w', repaint w' s.2).

Fixpoint session_run (evs : list Event) (s : World * Screen) : option (World * Screen) :=
  match evs with
  | [] => Some s
  | ev :: evs' => s' ← session_step ev s; session_run evs' s'
  end.

(** The screen shows the state: the tree is the view of the component's
    cells with a preview that is right for the thumbnail, the cell of
    [useMemo] holds that preview, and the URLs are the document's. *)
Definition screen_ok (s : World * Screen) : Prop :=
  ∃ preview,
    tree s.2 = view (component s.1) preview
    ∧ memo s.2 = Some (thumbnail (component s.1), preview)
    ∧ preview_ok (thumbnail (component s.1)) preview (urls s.2)
    ∧ store_ok mint (urls s.2).

(** The events that leave the thumbnail alone. *)
Definition keeps_thumbnail (ev : Event) : bool :=
  match ev with ev_pick _ => false | _ => true end.

Lemma paint_spec st m u :
  memo_ok m u → store_ok mint u →
  ∃ preview,
    tree (paint st m u) = view st preview
    ∧ memo (paint st m u) = Some (thumbnail st, preview)
    ∧ preview_ok (thumbnail st) preview (urls (paint st m u))
    ∧ store_ok mint (urls (paint st m u))
    ∧ u `prefix_of` urls (paint st m u).
Proof.
  intros Hm Hu. unfold paint, render.
  pose proof (useMemo_preview_ok mint (thumbnail st) m u Hm) as Hs.
  pose proof (useMemo_store_ok mint (thumbnail st) m u Hu) as Ho.
  destruct (useMemo_preview mint (thumbnail st) m u) as [[v m'] u'].
  destruct Hs as (Hv & -> & Hp). by exists v.
Qed.

Lemma screen_memo_ok s : screen_ok s → memo_ok (memo s.2) (urls s.2).
Proof. intros (v & _ & -> & Hv & _). exact Hv. Qed.

Lemma open_ok here area : screen_ok (open here area).
Proof.
  destruct (paint_spec initial None [] I (store_ok_nil mint))
    as (v & ? & ? & ? & ? & _).
  by exists v.
Qed.

Lemma session_step_ok ev s s' :
  screen_ok s → session_step ev s = Some s' →
  screen_ok s' ∧ urls s.2 `prefix_of` urls s'.2.
Proof.
  intros Hs Hst. unfold session_step in Hst. simplify_option_eq.
  destruct (paint_spec (component H) (memo s.2) (urls s.2))
    as (v & ? & ? & ? & ? & ?).
  - by apply screen_memo_ok.
  - by destruct Hs as (? & _ & _ & _ & ?).
  - split; [by exists v|done].
Qed.

Lemma session_run_ok evs s s' :
  screen_ok s → session_run evs s = Some s' →
  screen_ok s' ∧ urls s.2 `prefix_of` urls s'.2.
Proof.
  revert s. induction evs as [|ev evs IH]; intros s Hs Hr; simplify_option_eq.
  - done.
  - destruct (session_step_ok _ _ _ Hs Heqo) as [Hs1 Hp1].
    destruct (IH _ Hs1 Hr) as [Hs2 Hp2]. split; [done|by etrans].
Qed.

Lemma paint_tree st m u : ∃ preview, tree (paint st m u) = view st preview.
Proof.
  unfold paint, render.
  destruct (useMemo_preview mint (thumbnail st) m u) as [[v m'] u'].
  by exists v.
Qed.

(** C14. After a submit the screen shows, under each field, the first of the
    messages that field earns, and no other error text: a thumbnail that is
    both too large and of the wrong type shows the message about its size
    alone. *)
Theorem submit_shows_first_messages s s' :
  session_step ev_submit s = Some s' →
  error_texts (tree s'.2)
  = omap (λ k, head (expected_messages (formData (component s.1)) k))
      field_names.
Proof.
  unfold session_step. intros Hs.
  destruct (step ev_submit s.1) as [w'|] eqn:Hw; [|done].
  injection Hs as <-. cbn [snd]. unfold repaint.
  destruct (paint_tree (component w') (memo s.2) (urls s.2)) as [v ->].
  rewrite view_error_texts, (submit_errors _ _ Hw).
  unfold field_names. cbn [omap list_omap].
  by rewrite !spot_errors_lookup, !nonempty_head.
Qed.

(** The screen never changes what the page does. *)
Theorem session_run_world evs s :
  fst <$> session_run evs s = run evs s.1.
Proof.
  revert s. induction evs as [|ev evs IH]; intros [w scr]; [done|].
  simpl. unfold session_step. simpl.
  destruct (step ev w) as [w'|]; [|done]. apply IH.
Qed.

(** C22. After any history the screen shows the state of the component. *)
Theorem session_screen_ok here area evs s :
  session_run evs (open here area) = Some s → screen_ok s.
Proof. intros Hr. eapply session_run_ok; [apply open_ok|done]. Qed.

(** C21. No object URL is ever released: what the document held before a
    history, it holds after it. *)
Theorem urls_never_released here area evs1 evs2 s1 s2 :
  session_run evs1 (open here area) = Some s1 →
  session_run evs2 s1 = Some s2 →
  urls s1.2 `prefix_of` urls s2.2.
Proof.
  intros H1 H2. eapply session_run_ok; [|done].
  eapply session_run_ok; [apply open_ok|done].
Qed.

(** C23. Picking a file other than the one shown costs one more URL. *)
Theorem pick_mints_url s f fs :
  screen_ok s → thumbnail (component s.1) ≠ js_object f →
  ∃ s', session_step (ev_pick (f :: fs)) s = Some s'
    ∧ urls s'.2 = urls s.2 ++ [(mint (length (urls s.2)), f)]
    ∧ memo s'.2 = Some (js_object f, Some (mint (length (urls s.2)))).
Proof.
  intros (v & _ & Hm & _) Hne. eexists. split; [reflexivity|].
  unfold repaint, paint, render. simpl. rewrite Hm.
  by rewrite useMemo_preview_miss.
Qed.

(** Everything but a pick leaves the URLs and the preview as they are. *)
Theorem typing_keeps_urls ev s s' :
  screen_ok s → keeps_thumbnail ev = true → session_step ev s = Some s' →
  urls s'.2 = urls s.2 ∧ memo s'.2 = memo s.2.
Proof.
  intros (v & _ & Hm & _) Hk Hst. unfold session_step in Hst.
  destruct (step ev s.1) as [w'|] eqn:Hw; simplify_eq/=.
  assert (thumbnail (component w') = thumbnail (component s.1)) as Ht.
  { destruct ev; try done; try (by simplify_eq/=);
      by apply step_cells in Hw as [? _]. }
  unfold repaint, paint, render. rewrite Hm, Ht, useMemo_preview_hit. done.
Qed.

(** C33. An answer of the network changes nothing on the screen: whether the
    request succeeded or failed, the form the user sees is the one it saw
    before, with the same tree, the same preview and the same URLs. *)
Theorem settle_keeps_screen here ev s s' :
  world_ok here s.1 → screen_ok s → is_settle ev = true →
  session_step ev s = Some s' → s'.2 = s.2.
Proof.
  intros Hw (v & Ht & Hm & _) He Hst. unfold session_step in Hst.
  destruct (step ev s.1) as [w'|] eqn:Hs; simplify_eq/=.
  unfold repaint, paint, render.
  rewrite (step_settle_component _ _ _ _ Hw He Hs), Hm, useMemo_preview_hit.
  destruct s as [w [t m u]]. simpl in *. by subst.
Qed.

(** No two previews of a session share a URL. *)
Theorem session_urls_distinct here area evs s :
  session_run evs (open here area) = Some s → NoDup (urls s.2).*1.
Proof.
  intros Hr. apply (store_ok_NoDup mint).
  by destruct (session_run_ok _ _ _ (open_ok here area) Hr)
    as [(? & _ & _ & _ & ?) _].
Qed.

End session.

(** * The sample session on screen *)

(** The user picks a picture, then another, and submits an empty form. *)
Definition two_picks : list Event := [ev_pick [jpeg_1MB]; ev_pick [huge_gif]].

Definition shown (evs : list Event) : World * Screen :=
  default (open blob "/new" sample_area)
    (session_run blob evs (open blob "/new" sample_area)).

(** The sample sessions keep the screen right. *)
Lemma shown_ok evs :
  is_Some (session_run blob evs (open blob "/new" sample_area)) →
  screen_ok blob (shown evs).
Proof.
  intros [s Hs]. unfold shown. rewrite Hs.
  apply (session_run_ok blob evs _ s (open_ok blob "/new" sample_area) Hs).
Qed.

Lemma session_screen_ok_witness : screen_ok blob (shown two_picks).
Proof.
  apply (session_screen_ok blob "/new" sample_area two_picks).
  vm_compute. reflexivity.
Defined.

Lemma urls_never_released_witness :
  urls (shown [ev_pick [jpeg_1MB]]).2 `prefix_of` urls (shown two_picks).2.
Proof.
  apply (urls_never_released blob "/new" sample_area
           [ev_pick [jpeg_1MB]] [ev_pick [huge_gif]]);
    vm_compute; reflexivity.
Defined.

Lemma pick_mints_url_witness :
  ∃ s', session_step blob (ev_pick [huge_gif]) (shown [ev_pick [jpeg_1MB]])
        = Some s'
    ∧ urls s'.2 = urls (shown [ev_pick [jpeg_1MB]]).2
                  ++ [(blob (length (urls (shown [ev_pick [jpeg_1MB]]).2)), huge_gif)]
    ∧ memo s'.2
      = Some (js_object huge_gif,
              Some (blob (length (urls (shown [ev_pick [jpeg_1MB]]).2)))).
Proof.
  apply (pick_mints_url blob (shown [ev_pick [jpeg_1MB]]) huge_gif []).
  - apply shown_ok. eexists. vm_compute. reflexivity.
  - discriminate.
Defined.

Lemma typing_keeps_urls_witness :
  urls (shown (two_picks ++ [ev_company (lit "Acme")])).2 = urls (shown two_picks).2
  ∧ memo (shown (two_picks ++ [ev_company (lit "Acme")])).2
    = memo (shown two_picks).2.
Proof.
  apply (typing_keeps_urls blob (ev_company (lit "Acme")) (shown two_picks)).
  - apply shown_ok. eexists. vm_compute. reflexivity.
  - reflexivity.
  - vm_compute. reflexivity.
Defined.

Lemma submit_shows_first_messages_witness :
  error_texts (tree (shown (two_picks ++ [ev_submit])).2)
  = omap (λ k, head (expected_messages (formData (component (shown two_picks).1)) k))
      field_names.
Proof.
  apply (submit_shows_first_messages blob (shown two_picks)).
  vm_compute. reflexivity.
Defined.

Lemma settle_keeps_screen_witness :
  (shown (sample_edits ++ [ev_submit; ev_reject 0 "Network Error"])).2
  = (shown (sample_edits ++ [ev_submit])).2.
Proof.
  apply (settle_keeps_screen blob "/new" (ev_reject 0 "Network Error")
           (shown (sample_edits ++ [ev_submit]))).
  - apply (run_ok "/new" (sample_edits ++ [ev_submit]) (start "/new" sample_area));
      [apply start_ok|vm_compute; reflexivity].
  - apply shown_ok. eexists. vm_compute. reflexivity.
  - reflexivity.
  - vm_compute. reflexivity.
Defined.

Lemma session_urls_distinct_witness : NoDup (urls (shown two_picks).2).*1.
Proof.
  apply (session_urls_distinct blob "/new" sample_area two_picks).
  vm_compute. reflexivity.
Defined.
