(* ===== verification/Submission.v ===== *)
(** The life of a submission as the specification of the form draws it,
    [Idle], [Validating], then [Invalid] or [Submitting], then [Done] or
    [Failed], kept as a machine over counters because the page can have
    several submissions in flight; and the proof that every step of the
    event loop is a step of that machine. *)
From S2P Require Import Prelude JsString Zod SpotSchema Browser Effects NewPage EventLoop Network.
From stdpp Require Import strings gmap.

(** What an observer of submissions knows: how many wait for an answer, how
    many failed, whether the page has left for the dashboard, and whether
    the form shows errors. *)
Record Progress := {
  in_flight : nat;
  failed : nat;
  done : bool;
  invalid_shown : bool;
}.

(** The phase the specification would name. *)
Inductive Phase := Idle | InvalidDisplayed | Submitting | Done | Failed.

#[export] Instance Phase_eq_dec : EqDecision Phase.
Proof. solve_decision. Defined.

Definition phase (a : Progress) : Phase :=
  if done a then Done
  else if decide (0 < in_flight a) then Submitting
  else if decide (0 < failed a) then Failed
  else if invalid_shown a then InvalidDisplayed
  else Idle.

(** The moves of the machine. *)
Inductive Move := m_stay | m_invalid | m_valid | m_done | m_failed.

Inductive progress : Move → Progress → Progress → Prop :=
| p_stay a : progress m_stay a a
| p_invalid a :
    progress m_invalid a
      {| in_flight := in_flight a; failed := failed a; done := done a;
         invalid_shown := true |}
| p_valid a :
    progress m_valid a
      {| in_flight := S (in_flight a); failed := failed a; done := done a;
         invalid_shown := false |}
| p_done a n :
    in_flight a = S n →
    progress m_done a
      {| in_flight := n; failed := failed a; done := true;
         invalid_shown := invalid_shown a |}
| p_failed a n :
    in_flight a = S n →
    progress m_failed a
      {| in_flight := n; failed := S (failed a); done := done a;
         invalid_shown := invalid_shown a |}.

(** What the observer sees of a world. *)
Definition observe (w : World) : Progress :=
  {| in_flight := length (pending w);
     failed := length (rejections w);
     done := bool_decide (location w = "/dashboard");
     invalid_shown := bool_decide (errors (component w) ≠ ∅) |}.

(** The move an event makes in a world. *)
Definition move_of (ev : Event) (w : World) : Move :=
  match ev with
  | ev_submit => if accepted (formData (component w)) then m_valid else m_invalid
  | ev_fulfil _ _ => m_done
  | ev_reject _ _ => m_failed
  | _ => m_stay
  end.

(** The moves a history makes from a world, and a run of the machine. *)
Fixpoint moves (evs : list Event) (w : World) : list Move :=
  match evs with
  | [] => []
  | ev :: evs' =>
      move_of ev w :: match step ev w with
                      | Some w' => moves evs' w'
                      | None => []
                      end
  end.

Inductive progress_star : list Move → Progress → Progress → Prop :=
| ps_nil a : progress_star [] a a
| ps_cons m ms a b c :
    progress m a b → progress_star ms b c → progress_star (m :: ms) a c.

(** The phase a move leads to, while the page has not left. *)
Definition phase_after (m : Move) (before after : Phase) : Prop :=
  match m with
  | m_stay => after = before
  | m_invalid => after ∈ [InvalidDisplayed; Submitting; Failed]
  | m_valid => after = Submitting
  | m_done => after = Done
  | m_failed => after ∈ [Submitting; Failed]
  end.

Lemma pending_take w i p :
  pending w !! i = Some p → ∃ n, length (pending w) = S n
    ∧ length (delete i (pending w)) = n.
Proof.
  intros Hi. pose proof (lookup_lt_Some _ _ _ Hi).
  exists (pred (length (pending w))). rewrite length_delete by done. lia.
Qed.

Lemma observe_submit w :
  progress (move_of ev_submit w) (observe w)
    (observe (exec (handleSubmit (component w)) w)).
Proof.
  unfold move_of. destruct (accepted (formData (component w))) eqn:Ha.
  - rewrite exec_accepted by done. unfold observe. simpl.
    rewrite length_app, Nat.add_1_r. apply (p_valid (observe w)).
  - rewrite exec_rejected by done. unfold observe. simpl.
    rewrite (bool_decide_eq_true_2 (spot_errors _ ≠ ∅));
      [apply (p_invalid (observe w))|].
    intros He. apply spot_errors_accepted_inv in He. congruence.
Qed.

(** Every step of the page is a move of the machine. *)
Lemma step_progress here ev w w' :
  world_ok here w → step ev w = Some w' →
  progress (move_of ev w) (observe w) (observe w').
Proof.
  intros Hw Hs. apply (step_transition here) in Hs; [|done].
  destruct Hs as [| | | |Ha|Ha| |i r p Hi|i err p Hi]; try apply p_stay.
  - rewrite <- exec_rejected by done. apply observe_submit.
  - rewrite <- exec_accepted by done. apply observe_submit.
  - destruct (pending_take _ _ _ Hi) as (n & Hn & Hd).
    unfold observe. simpl. rewrite Hd. by apply (p_done (observe w)).
  - destruct (pending_take _ _ _ Hi) as (n & Hn & Hd).
    unfold observe. simpl. rewrite Hd, length_app, Nat.add_1_r.
    by apply (p_failed (observe w)).
Qed.

(** C32. The event loop refines the life of a submission: a history of the page
    is a run of the machine, move by move. *)
Theorem run_progress here evs w w' :
  world_ok here w → run evs w = Some w' →
  progress_star (moves evs w) (observe w) (observe w').
Proof.
  revert w. induction evs as [|ev evs IH]; intros w Hw Hr; simplify_option_eq;
    [constructor|].
  econstructor; [by eapply step_progress|].
  eapply IH; [by eapply step_ok|done].
Qed.

Lemma progress_phase m a b :
  progress m a b → done a = false → phase_after m (phase a) (phase b).
Proof.
  intros H Hd. destruct H; unfold phase; simpl; rewrite ?Hd;
    repeat case_decide; try done; try lia;
    try destruct (invalid_shown a); set_solver.
Qed.

(** The phases of the page follow the drawing of the specification, with
    the two additions the code makes: errors can be shown while an earlier
    submission is still in flight or has failed, and a failed submission
    does not stop the next one. *)
Theorem step_phase here ev w w' :
  world_ok here w → step ev w = Some w' → location w ≠ "/dashboard" →
  phase_after (move_of ev w) (phase (observe w)) (phase (observe w')).
Proof.
  intros Hw Hs Hl. apply progress_phase; [by eapply step_progress|].
  simpl. by apply bool_decide_eq_false.
Qed.

(** From a page at rest, a submission ends in the phase the drawing of the
    specification gives it: errors displayed for a rejected draft, [Done]
    when the client fulfils the promise, [Failed] when it rejects it. *)
Corollary submission_phase backend w w' :
  pending w = [] → rejections w = [] → location w ≠ "/dashboard" →
  run (submission backend w) w = Some w' →
  phase (observe w')
  = if accepted (formData (component w))
    then match settle (backend (request_of (component w)
                                  (getItem "user" (storage w)))) with
         | inl _ => Done
         | inr _ => Failed
         end
    else InvalidDisplayed.
Proof.
  intros Hp Hf Hl. unfold submission. cbn [run]. unfold step at 1, dispatch.
  cbn [mbind option_bind]. rewrite exec_interp, interp_handleSubmit.
  intros [= <-]. unfold phase, observe.
  destruct (accepted _) eqn:Ha; [cbn zeta; destruct (settle _)|]; simpl;
    rewrite ?Hp, ?Hf; simpl.
  - done.
  - rewrite bool_decide_eq_false_2 by done. done.
  - rewrite bool_decide_eq_false_2 by done. simpl.
    rewrite bool_decide_eq_true_2; [done|].
    intros He%spot_errors_accepted_inv. congruence.
Qed.

(** * The sample session as a run of the machine *)

Lemma step_phase_witness :
  phase_after m_valid (phase (observe (after sample_edits)))
    (phase (observe (after (sample_edits ++ [ev_submit])))).
Proof.
  apply (step_phase "/new" ev_submit (after sample_edits)).
  - apply (run_ok "/new" sample_edits (start "/new" sample_area)).
    + apply start_ok.
    + vm_compute. reflexivity.
  - vm_compute. reflexivity.
  - vm_compute. discriminate.
Defined.

Lemma run_progress_witness :
  progress_star [m_stay; m_stay; m_stay; m_valid; m_done]
    (observe (start "/new" sample_area)) (observe (after sample_history)).
Proof.
  apply (run_progress "/new" sample_history (start "/new" sample_area)).
  - apply start_ok.
  - vm_compute. reflexivity.
Defined.
