(* ===== verification/Typing.v ===== *)
(** The types of the values the page handles: strings are sequences of
    16-bit code units, a file has a size that fits an unsigned 64-bit
    integer and a string as its type, a part of a request is a
    scalar-value string or a file.  The model keeps code units and sizes as
    unbounded naturals; this file shows that no operation of the page
    leaves the ranges, so that nothing proved elsewhere rests on values that
    cannot exist. *)
From S2P Require Import Prelude JsString Number ParseFloat Zod SpotSchema Browser Effects NewPage EventLoop.
From Stdlib Require Import Ascii.
From stdpp Require Import strings gmap.

#[local] Open Scope N_scope.

(** A code unit is below 2^16; a string is a sequence of code units. *)
Definition is_code_unit (c : N) : Prop := c < 2 ^ 16.

Definition is_string (s : jsstring) : Prop := Forall is_code_unit s.

(** A file: its size is an [unsigned long long], its type a string. *)
Definition is_file (f : File.t) : Prop :=
  File.size f <= unsigned_long_long_max ∧ is_string (File.type f).

Definition ref_typed (v : JsRef File.t) : Prop :=
  match v with js_object f => is_file f | _ => True end.

(** The four input cells hold what their setters are given by the inputs. *)
Definition state_typed (st : State) : Prop :=
  ref_typed (thumbnail st) ∧ is_string (company st)
  ∧ is_string (techs st) ∧ is_string (price st).

(** A part of a [FormData]: a file, or a string without lone surrogates. *)
Definition entry_typed (v : FormDataEntryValue) : Prop :=
  match v with
  | entry_string s => is_string s ∧ well_formed s = true
  | entry_file f => is_file f
  end.

Definition request_typed (req : Request) : Prop :=
  Forall (λ e, entry_typed e.2) (body req)
  ∧ Forall (λ h, from_option is_string True h.2) (headers req).

Definition world_typed (w : World) : Prop :=
  state_typed (component w)
  ∧ map_Forall (λ _, is_string) (storage w)
  ∧ Forall request_typed (requests w)
  ∧ Forall (λ p, request_typed (p_request p)) (pending w).

(** What an event may carry. *)
Definition event_typed (ev : Event) : Prop :=
  match ev with
  | ev_pick files => Forall is_file files
  | ev_company v | ev_techs v | ev_price v => is_string v
  | ev_storage _ (Some v) => is_string v
  | _ => True
  end.

#[export] Instance is_code_unit_dec c : Decision (is_code_unit c).
Proof. unfold is_code_unit. apply _. Defined.

#[export] Instance is_string_dec s : Decision (is_string s).
Proof. unfold is_string. apply _. Defined.

#[export] Instance is_file_dec f : Decision (is_file f).
Proof. unfold is_file. apply _. Defined.

Section string_types.
Implicit Types (s : jsstring) (t : string).

(** * The operations on strings stay within the code units *)

Lemma lit_is_string t : is_string (lit t).
Proof.
  unfold lit, is_string. apply Forall_fmap, Forall_true. intros a. simpl.
  unfold is_code_unit. pose proof (N_ascii_bounded a). lia.
Qed.

Lemma trim_is_string s : is_string s → is_string (trim s).
Proof.
  destruct (trim_decompose s) as (l & r & Hs & _). rewrite Hs at 1.
  unfold is_string. rewrite !Forall_app. tauto.
Qed.

Lemma toUSVString_is_string s : is_string s → is_string (toUSVString s).
Proof.
  unfold is_string.
  induction (toUSVString_units s) as [|c c' ? ? Hc _ IH]; [done|].
  rewrite !Forall_cons. intros [H1 H2]. split; [|auto].
  by destruct Hc as [->|[_ ->]].
Qed.

Lemma entry_value_ref v : ref_typed v → entry_typed (entry_value (arg_ref v)).
Proof.
  destruct v as [| |f]; simpl; [|  |done];
    (split; [apply lit_is_string|done]).
Qed.

End string_types.

(** * The handlers keep the types *)

Lemma payload_typed st :
  state_typed st → Forall (λ e, entry_typed e.2) (payload st).
Proof.
  intros (Ht & Hc & Hte & Hp). unfold payload, append.
  repeat (apply Forall_app; split); repeat constructor; cbn [snd];
    auto using entry_value_ref, toUSVString_is_string, toUSVString_scalar.
Qed.

Lemma request_of_typed st user_id :
  state_typed st → from_option is_string True user_id →
  request_typed (request_of st user_id).
Proof.
  intros Hst Hu. split; simpl; [by apply payload_typed|by repeat constructor].
Qed.

Lemma getItem_typed key (area : gmap string jsstring) :
  map_Forall (λ _, is_string) area →
  from_option is_string True (getItem key area).
Proof.
  intros Ha. unfold getItem. destruct (area !! key) as [v|] eqn:E; [|done].
  by apply (Ha key).
Qed.

Lemma exec_handleSubmit_typed w :
  world_typed w → world_typed (exec (handleSubmit (component w)) w).
Proof.
  intros (Hst & Ha & Hr & Hp).
  destruct (accepted (formData (component w))) eqn:Hacc.
  - rewrite exec_accepted by done.
    pose proof (request_of_typed _ _ Hst (getItem_typed "user" _ Ha)) as Hq.
    split_and!; [exact Hst|exact Ha|..]; simpl;
      (apply Forall_app; split; [done|by constructor]).
  - rewrite exec_rejected by done. split_and!; [exact Hst|done..].
Qed.

Lemma files_0_typed files : Forall is_file files → ref_typed (files_0 files).
Proof. by destruct 1. Qed.

Lemma storage_typed (key : string) value (area : gmap string jsstring) :
  map_Forall (λ _, is_string) area → from_option is_string True value →
  map_Forall (λ _, is_string) (partial_alter (λ _, value) key area).
Proof.
  intros Ha Hv k s. destruct (decide (k = key)) as [->|Hk].
  - rewrite lookup_partial_alter_eq. by intros ->.
  - rewrite lookup_partial_alter_ne by done. apply Ha.
Qed.

Lemma with_component_typed f w :
  world_typed w → state_typed (f (component w)) →
  world_typed (with_component f w).
Proof. intros (_ & Ha & Hr & Hp) Hst. by split_and!. Qed.

(** Every step keeps the world well typed, whatever well-typed event
    arrives. *)
Lemma step_typed here ev w w' :
  world_ok here w → world_typed w → event_typed ev → step ev w = Some w' →
  world_typed w'.
Proof.
  intros Hok Hw Hev Hs. pose proof Hw as ((Ht & Hc & Hte & Hp) & Ha & Hr & Hq).
  apply (step_transition here) in Hs; [|done].
  destruct Hs as [| | | |Hacc|Hacc|key value|i r p Hi|i err p Hi];
    simpl in Hev;
    try (apply with_component_typed; [done|];
         split_and!; simpl; by auto using files_0_typed).
  - rewrite <- exec_accepted by done. by apply exec_handleSubmit_typed.
  - split_and!; [done| |done..]. simpl. apply storage_typed; [done|].
    by destruct value.
  - split_and!; simpl; [done..|]. by apply Forall_delete.
  - split_and!; simpl; [done..|]. by apply Forall_delete.
Qed.

Lemma start_typed here area :
  map_Forall (λ _, is_string) area → world_typed (start here area).
Proof.
  intros Ha. split_and!; simpl; try done.
  repeat split; by apply Forall_nil.
Qed.

(** The page is well typed for ever: from a first render over a storage of
    strings, after any history of well-typed events, code units are below
    2^16, file sizes fit 64 bits, and the text parts of the requests are
    scalar-value strings. *)
Theorem run_typed here area evs w :
  map_Forall (λ _, is_string) area → Forall event_typed evs →
  run evs (start here area) = Some w → world_typed w.
Proof.
  intros Ha Hevs.
  assert (∀ w0, world_ok here w0 → world_typed w0 → run evs w0 = Some w →
    world_typed w) as H; [|eauto using start_ok, start_typed].
  induction Hevs as [|ev evs Hev _ IH]; intros w0 Hok Hw Hr;
    simplify_option_eq; [done|].
  eapply IH; [by eapply step_ok|by eapply step_typed|done].
Qed.

(** The validated draft is well typed too. *)
Lemma normalise_typed st :
  state_typed st →
  is_string (Output.company (normalise (formData st)))
  ∧ is_string (Output.techs (normalise (formData st)))
  ∧ is_string (Output.price (normalise (formData st))).
Proof. intros (_ & Hc & Ht & Hp). simpl. auto using trim_is_string. Qed.

(** * The sample session is well typed *)

Lemma run_typed_witness : world_typed (after sample_history).
Proof.
  apply (run_typed "/new" sample_area sample_history).
  - apply map_Forall_singleton. apply lit_is_string.
  - unfold sample_history, sample_edits.
    repeat constructor; simpl; try apply lit_is_string; by vm_compute.
  - vm_compute. reflexivity.
Defined.
